(** * Marbles bounty bot: the screenshot-to-ranking pipeline and the ledger

    A shallow embedding of the core of [marblesbounty.py]:
    [normalize_ocr_text], [fuzzy_match_keyword], [fuzzy_match_any],
    [merge_screenshot_data], [clean_player_name],
    [parse_marbles_screenshot], [calculate_bounty],
    [update_bounty_board] and [PlayerRemovalView.done_editing]; then
    the commands [bounty_slash], [show_bounty], [remove_player],
    [leaderboard_slash], the two views with their pages, and the
    formatters [format_leaderboard] and [format_game_results].

    Data model.
    - A Python [str] is a [string]; a character is a code point in
      0..255 (Latin-1), and the Unicode tables Python consults
      ([str.lower], [str.upper], [str.isspace], [str.isdigit], the
      regular-expression classes [\w] and [\s]) are written out for
      that range.
    - A Python [int] is a [Z].  A Python [float] is an IEEE-754 binary64
      value, a [spec_float] of the Standard Library at precision 53.
    - A ranking (the dict with keys ['total_players'] and ['results'])
      is the record [Ranking].
    - The module globals [bounty_board] and [last_game_data] form the
      record [state]; code that mutates them runs in the monad [M],
      which also carries Python exceptions.
    - The board is a [gmap]; where the code iterates over it, the order
      in which the dict yields its keys is the parameter [order].
    - A message, which holds characters beyond Latin-1, is the list of
      its code points. *)

From Stdlib Require Import ZArith QArith Ascii String List Bool Lia.
From Stdlib Require Import SpecFloat Sorted.
From stdpp Require Import gmap strings list.

Local Open Scope string_scope.
Local Open Scope list_scope.
Local Open Scope Z_scope.

(** ** Python exceptions *)

Inductive exn : Set :=
  | IndexError
  | OverflowError
  | ValueError
  | ZeroDivisionError.

Inductive result (A : Type) : Type :=
  | Ok (a : A)
  | Raise (e : exn).
Arguments Ok {A} a.
Arguments Raise {A} e.

(** ** The [str] type *)

Module Py.

Definition ord (c : ascii) : N := N_of_ascii c.

Definition between (lo hi : N) (c : ascii) : bool :=
  ((lo <=? ord c) && (ord c <=? hi))%N.

Definition is_code (n : N) (c : ascii) : bool := (ord c =? n)%N.

(** [str.isspace], which is also the class [\s] and the separator set
    of [str.split()] and [str.strip()]. *)
Definition isspace (c : ascii) : bool :=
  between 9 13 c || between 28 32 c || is_code 133 c || is_code 160 c.

(** [str.isdigit]: the ASCII digits and the superscripts 2, 3 and 1. *)
Definition isdigit (c : ascii) : bool :=
  between 48 57 c || between 178 179 c || is_code 185 c.

(** The classes [[A-Za-z]] and [[A-Za-z0-9_]]. *)
Definition ascii_letter (c : ascii) : bool :=
  between 65 90 c || between 97 122 c.

Definition ident_char (c : ascii) : bool :=
  ascii_letter c || between 48 57 c || is_code 95 c.

(** The class [\w] of a [str] pattern: alphanumeric or underscore. *)
Definition word_char (c : ascii) : bool :=
  ident_char c
  || is_code 170 c || between 178 179 c || is_code 181 c
  || between 185 186 c || between 188 190 c
  || between 192 214 c || between 216 246 c || between 248 255 c.

(** [str.lower] on one character: A-Z and the Latin-1 capitals
    (all of 0xC0..0xDE but the multiplication sign) move up by 32. *)
Definition lower_char (c : ascii) : ascii :=
  if between 65 90 c || (between 192 222 c && negb (is_code 215 c))
  then ascii_of_N (ord c + 32)
  else c.

(** [str.upper] on one character.  The sharp s becomes "SS"; the
    micro sign and the y with diaeresis have capitals beyond code
    point 255, for which there is no string here. *)
Definition upper_char (c : ascii) : option string :=
  if between 97 122 c || (between 224 254 c && negb (is_code 247 c))
  then Some (String (ascii_of_N (ord c - 32)) "")
  else if is_code 223 c then Some "SS"
  else if is_code 181 c || is_code 255 c then None
  else Some (String c "").

Fixpoint map (f : ascii -> ascii) (s : string) : string :=
  match s with
  | "" => ""
  | String c s' => String (f c) (map f s')
  end.

Fixpoint filter (p : ascii -> bool) (s : string) : string :=
  match s with
  | "" => ""
  | String c s' => if p c then String c (filter p s') else filter p s'
  end.

Fixpoint any (p : ascii -> bool) (s : string) : bool :=
  match s with
  | "" => false
  | String c s' => p c || any p s'
  end.

Fixpoint all (p : ascii -> bool) (s : string) : bool :=
  match s with
  | "" => true
  | String c s' => p c && all p s'
  end.

Definition len (s : string) : Z := Z.of_nat (String.length s).

Definition lower (s : string) : string := map lower_char s.

Fixpoint upper (s : string) : option string :=
  match s with
  | "" => Some ""
  | String c s' =>
      match upper_char c, upper s' with
      | Some u, Some us => Some (u +:+ us)
      | _, _ => None
      end
  end.

(** [s.upper() in l] for a list [l] of Latin-1 strings: a capital
    outside Latin-1 makes [s.upper()] differ from all of them. *)
Definition upper_in (s : string) (l : list string) : bool :=
  match upper s with
  | Some u => existsb (String.eqb u) l
  | None => false
  end.

(** [x in l] for a list of strings. *)
Definition in_list (x : string) (l : list string) : bool :=
  existsb (String.eqb x) l.

(** [needle in hay]. *)
Fixpoint contains (hay needle : string) : bool :=
  String.prefix needle hay
  || match hay with
     | "" => false
     | String _ hay' => contains hay' needle
     end.

(** [s.split(sep)] for a one-character separator. *)
Fixpoint split_on (sep : ascii) (s : string) : list string :=
  match s with
  | "" => [""]
  | String c s' =>
      if Ascii.eqb c sep then "" :: split_on sep s'
      else match split_on sep s' with
           | [] => [String c ""]
           | w :: ws => String c w :: ws
           end
  end.

Fixpoint lstrip (s : string) : string :=
  match s with
  | "" => ""
  | String c s' => if isspace c then lstrip s' else s
  end.

Fixpoint rstrip (s : string) : string :=
  match s with
  | "" => ""
  | String c s' =>
      match rstrip s' with
      | "" => if isspace c then "" else String c ""
      | r => String c r
      end
  end.

(** [s.strip()] *)
Definition strip (s : string) : string := rstrip (lstrip s).

Definition push_word (w : string) (ws : list string) : list string :=
  match w with
  | "" => ws
  | _ => w :: ws
  end.

Fixpoint split_go (s : string) : string * list string :=
  match s with
  | "" => ("", [])
  | String c s' =>
      let '(w, ws) := split_go s' in
      if isspace c then ("", push_word w ws) else (String c w, ws)
  end.

(** [s.split()]: the maximal runs of non-space characters. *)
Definition split (s : string) : list string :=
  let '(w, ws) := split_go s in push_word w ws.

(** [sep.join(l)] *)
Definition join (sep : string) (l : list string) : string :=
  String.concat sep l.

Fixpoint take_while (p : ascii -> bool) (s : string) : string :=
  match s with
  | "" => ""
  | String c s' => if p c then String c (take_while p s') else ""
  end.

(** [re.match(r'^[A-Za-z][A-Za-z0-9_]*$', s)] as a truth value; [$]
    also matches just before a newline that ends the string. *)
Definition match_username (s : string) : bool :=
  match s with
  | "" => false
  | String c s' =>
      ascii_letter c
      && (let body := take_while ident_char s' in
          let rest := String.substring (String.length body)
                        (String.length s' - String.length body) s' in
          String.eqb rest "" || String.eqb rest (String "010" ""))
  end.

(** [re.findall(r'[A-Za-z][A-Za-z0-9_]{2,}', s)]: at each position
    not inside an earlier match, a letter followed by the longest run
    of at least two identifier characters is a match, and the scan
    resumes after it.  [skip] counts the characters of the current
    match still to pass over. *)
Fixpoint findall_go (skip : nat) (s : string) : list string :=
  match s with
  | "" => []
  | String c s' =>
      match skip with
      | S k => findall_go k s'
      | O =>
          if ascii_letter c then
            let body := take_while ident_char s' in
            if (2 <=? String.length body)%nat
            then String c body :: findall_go (String.length body) s'
            else findall_go 0 s'
          else findall_go 0 s'
      end
  end.

Definition findall_names (s : string) : list string := findall_go 0 s.

End Py.

(** ** OCR error correction *)

(** [re.sub(r'[l1]', 'i', _)], [re.sub(r'0', 'o', _)] and
    [re.sub(r'5', 's', _)], each on one character. *)
Definition sub_l1 (c : ascii) : ascii :=
  if Ascii.eqb c "l" || Ascii.eqb c "1" then "i"%char else c.

Definition sub_0 (c : ascii) : ascii :=
  if Ascii.eqb c "0" then "o"%char else c.

Definition sub_5 (c : ascii) : ascii :=
  if Ascii.eqb c "5" then "s"%char else c.

Definition normalize_ocr_text (text : string) : string :=
  let text := Py.lower text in
  let text := Py.map sub_l1 text in
  let text := Py.map sub_0 text in
  let text := Py.map sub_5 text in
  text.

Definition fuzzy_match_keyword (text keyword : string) : bool :=
  let normalized_text := normalize_ocr_text text in
  let normalized_keyword := normalize_ocr_text keyword in
  Py.contains normalized_text normalized_keyword.

Definition fuzzy_match_any (text : string) (keywords : list string) : bool :=
  existsb (fun kw => fuzzy_match_keyword text kw) keywords.


(** What [normalize_ocr_text] does to one character. *)
Definition normalize_char (c : ascii) : ascii :=
  sub_5 (sub_0 (sub_l1 (Py.lower_char c))).

(** [needle] occurs in [hay] as a contiguous run of characters. *)
Definition substring_of (needle hay : string) : Prop :=
  exists before after : string, hay = before +:+ needle +:+ after.

(** ** Rankings *)

(** The dict [{'total_players': n, 'results': [(name, position), ...]}]. *)
Record Ranking : Type := {
  total_players : Z;
  results : list (string * Z)
}.

Definition py_len {A : Type} (l : list A) : Z := Z.of_nat (length l).

(** The names of a list of entries, and the names as the comparison
    ignoring case sees them. *)
Definition names (entries : list (string * Z)) : list string :=
  List.map fst entries.

Definition folded_names (entries : list (string * Z)) : list string :=
  List.map (fun p => Py.lower (fst p)) entries.

(** Entry [i] (from 0) carries position [i + 1]. *)
Definition contiguous_from (start : Z) (entries : list (string * Z)) : Prop :=
  forall (i : nat) (entry : string * Z),
    entries !! i = Some entry -> snd entry = start + Z.of_nat i + 1.

(** The Ranking invariant. *)
Record Ranking_invariant (r : Ranking) : Prop := {
  inv_total : total_players r = py_len (results r);
  inv_positions : contiguous_from 0 (results r);
  inv_names : NoDup (folded_names (results r))
}.

(** ** Screenshot merging *)

(** The state of the loops of [merge_screenshot_data]. *)
Record merge_state : Type := {
  merged_results : list (string * Z);
  current_max_position : Z
}.

(** The set comprehension [{name.lower() for name, _ in merged_results}]. *)
Definition lower_names (l : list (string * Z)) : gset string :=
  list_to_set (List.map (fun p => Py.lower (fst p)) l).

(** One iteration of the inner loop, over [(player_name, original_position)]. *)
Definition merge_entry (acc : merge_state * gset string) (entry : string * Z)
  : merge_state * gset string :=
  let '(st, existing_names) := acc in
  let player_name := fst entry in
  let player_lower := Py.lower player_name in
  if decide (player_lower ∈ existing_names) then acc
  else
    let current_max_position := current_max_position st + 1 in
    ({| merged_results :=
          merged_results st ++ [(player_name, current_max_position)];
        current_max_position := current_max_position |},
     {[ player_lower ]} ∪ existing_names).

(** One iteration of the outer loop, over a later screenshot. *)
Definition merge_screenshot (st : merge_state) (parsed_data : Ranking)
  : merge_state :=
  let new_results := results parsed_data in
  let existing_names := lower_names (merged_results st) in
  fst (fold_left merge_entry new_results (st, existing_names)).

Definition merge_screenshot_data (parsed_data_list : list Ranking)
  : result Ranking :=
  match parsed_data_list with
  | [] => Raise IndexError
  | [only] => Ok only
  | first :: rest =>
      let seed := results first in
      let st := fold_left merge_screenshot rest
                  {| merged_results := seed;
                     current_max_position := py_len seed |} in
      Ok {| total_players := py_len (merged_results st);
            results := merged_results st |}
  end.

(** The Screenshot Merger as the specification words it (section 4.4):
    seed with the first ranking; scan each later ranking in order; skip
    an entry whose name already occurs, ignoring case; otherwise append
    it one position past the highest position used so far. *)
Definition highest_position (merged : list (string * Z)) : Z :=
  fold_right Z.max 0 (List.map snd merged).

Definition merge_spec_entry (merged : list (string * Z)) (entry : string * Z)
  : list (string * Z) :=
  if decide (Py.lower (fst entry) ∈ folded_names merged) then merged
  else merged ++ [(fst entry, highest_position merged + 1)].

Definition merge_spec_ranking (merged : list (string * Z)) (r : Ranking)
  : list (string * Z) :=
  fold_left merge_spec_entry (results r) merged.

Definition merge_spec (rankings : list Ranking) : Ranking :=
  match rankings with
  | [] => {| total_players := 0; results := [] |}
  | [only] => only
  | first :: rest =>
      let merged := fold_left merge_spec_ranking rest (results first) in
      {| total_players := py_len merged; results := merged |}
  end.

(** The loop variables of the merger describe the merged list. *)
Definition merge_related (st : merge_state) (existing : gset string) : Prop :=
  current_max_position st = highest_position (merged_results st)
  /\ forall x, x ∈ existing <-> x ∈ folded_names (merged_results st).

(** ** Parsing *)

(** [re.sub(r'[^\w\s-]', '', name)], then [' '.join(name.split())],
    then [strip()]. *)
Definition clean_player_name (name : string) : string :=
  let name :=
    Py.filter (fun c => Py.word_char c || Py.isspace c || Py.is_code 45 c)
      name in
  let name := Py.join " " (Py.split name) in
  Py.strip name.

Definition header_keywords : list string :=
  ["place"; "player"; "time"; "points"; "damage";
   "wins"; "races"; "elimination"; "name"].

Definition ignore_words : list string :=
  ["even"; "dltc"; "def"; "juaz"; "dne"].

Definition placement_indicators : list string :=
  ["1ST"; "2ND"; "3RD"; "DNF"; "IST"].

(** The list [clean_lines]: stripped lines that are longer than two
    characters. *)
Definition clean_lines (text : string) : list string :=
  List.filter (fun line => negb (String.eqb line "") && (2 <? Py.len line))
    (List.map Py.strip (Py.split_on "010" text)).

(** [any(p[0].lower() == name.lower() for p in results)] *)
Definition listed (name : string) (results : list (string * Z)) : bool :=
  existsb (fun p => String.eqb (Py.lower (fst p)) (Py.lower name)) results.

(** The token loop of the strict pass: the value of [player_name] when
    the loop ends, by [break] or by exhaustion. *)
Fixpoint find_player_name (tokens : list string) : option string :=
  match tokens with
  | [] => None
  | token :: rest =>
      let token_clean := Py.filter Py.word_char token in
      if Py.upper_in token placement_indicators then find_player_name rest
      else if fuzzy_match_any token_clean header_keywords
      then find_player_name rest
      else if Py.in_list (Py.lower token_clean) ignore_words
      then find_player_name rest
      else if Py.match_username token_clean && (3 <=? Py.len token_clean)
      then Some (clean_player_name token_clean)
      else find_player_name rest
  end.

(** The variables of the parsing loops. *)
Record parse_state : Type := {
  ps_results : list (string * Z);
  ps_position : Z;
  ps_header_found : bool
}.

Definition parse_init : parse_state :=
  {| ps_results := []; ps_position := 0; ps_header_found := false |}.

Definition accept (name : string) (st : parse_state) : parse_state :=
  let position := ps_position st + 1 in
  {| ps_results := ps_results st ++ [(name, position)];
     ps_position := position;
     ps_header_found := ps_header_found st |}.

(** The body of the strict loop, for one line. *)
Definition strict_line (st : parse_state) (line : string) : parse_state :=
  if fuzzy_match_any line ["place"; "player"] then
    {| ps_results := ps_results st;
       ps_position := ps_position st;
       ps_header_found := true |}
  else if fuzzy_match_any line header_keywords && negb (Py.any Py.isdigit line)
  then st
  else
    let tokens := Py.split line in
    match find_player_name tokens with
    | None => st
    | Some player_name =>
        if negb (String.eqb player_name "") && (3 <=? Py.len player_name)
        then if negb (listed player_name (ps_results st))
             then accept player_name st
             else st
        else st
    end.

(** The loop over [potential_names] of the aggressive pass: the name it
    appends before its [break], if any. *)
Fixpoint pick_name (results : list (string * Z)) (names : list string)
  : option string :=
  match names with
  | [] => None
  | name :: rest =>
      if fuzzy_match_any name header_keywords then pick_name results rest
      else if Py.in_list (Py.lower name) ignore_words
      then pick_name results rest
      else if listed name results then pick_name results rest
      else Some name
  end.

(** The body of the aggressive loop, for one line. *)
Definition aggressive_line (st : parse_state) (line : string) : parse_state :=
  if fuzzy_match_any line ["place"; "player"] then st
  else
    let potential_names := Py.findall_names line in
    match pick_name (ps_results st) potential_names with
    | None => st
    | Some name => accept name st
    end.

Definition strict_pass (lines : list string) : parse_state :=
  fold_left strict_line lines parse_init.

Definition aggressive_pass (header_found : bool) (lines : list string)
  : parse_state :=
  fold_left aggressive_line lines
    {| ps_results := []; ps_position := 0; ps_header_found := header_found |}.

(** [None] is Python's [None]. *)
Definition parse_marbles_screenshot (text : string) : option Ranking :=
  let clean_lines := clean_lines text in
  let st := strict_pass clean_lines in
  let st :=
    if py_len (ps_results st) <? 2
    then aggressive_pass (ps_header_found st) clean_lines
    else st in
  match ps_results st with
  | [] => None
  | results => Some {| total_players := py_len results; results := results |}
  end.


(** The loop variables of the parser describe a ranking in the making. *)
Definition parse_ok (st : parse_state) : Prop :=
  contiguous_from 0 (ps_results st)
  /\ NoDup (folded_names (ps_results st))
  /\ ps_position st = py_len (ps_results st).

(** ** The [float] type: IEEE-754 binary64 *)

Definition prec : Z := 53.
Definition emax : Z := 1024.

(** The conversion of an [int] operand to [float] (round to nearest,
    ties to even); an [int] beyond the range of [float] raises. *)
Definition float_of_int (n : Z) : result spec_float :=
  match binary_normalize prec emax n 0 false with
  | S754_infinity _ => Raise OverflowError
  | f => Ok f
  end.

(** [a / b] on two [int]s: the correctly rounded quotient. *)
Definition int_truediv (a b : Z) : result spec_float :=
  let negate := xorb (a <? 0) (b <? 0) in
  match b, a with
  | 0, _ => Raise ZeroDivisionError
  | _, 0 => Ok (S754_zero negate)
  | _, _ =>
      let '(mz, ez, lz) :=
        SFdiv_core_binary prec emax (Z.abs a) 0 (Z.abs b) 0 in
      match binary_round_aux prec emax negate mz ez lz with
      | S754_infinity _ => Raise OverflowError
      | f => Ok f
      end
  end.

Definition float_sub (x y : spec_float) : spec_float := SFsub prec emax x y.
Definition float_mul (x y : spec_float) : spec_float := SFmul prec emax x y.

(** [int(x)] on a [float]: truncation toward zero. *)
Definition int_of_float (x : spec_float) : result Z :=
  match x with
  | S754_zero _ => Ok 0
  | S754_infinity _ => Raise OverflowError
  | S754_nan => Raise ValueError
  | S754_finite s m e => Ok (cond_Zopp s (Z.shiftl (Z.pos m) e))
  end.

Definition result_bind {A B : Type} (r : result A) (k : A -> result B)
  : result B :=
  match r with
  | Ok a => k a
  | Raise e => Raise e
  end.

Notation "'let?' x ':=' r 'in' k" := (result_bind r (fun x => k))
  (at level 10, x name, r at level 100, k at level 200).

(** The binary64 value [q * 2^exponent] with sign [s], for [0 < q < 2^53]:
    the mantissa is shifted to 53 digits. *)
Definition dyadic (s : bool) (q exponent : Z) : spec_float :=
  let shift := prec - Zdigits2 q in
  S754_finite s (Z.to_pos (q * 2 ^ shift)) (exponent - shift).

(** ** Bounty calculation *)

Definition WIN_BONUS : Z := 200.
Definition PLACEMENT_FACTOR : Z := 20.

Definition calculate_bounty (position total_players : Z) (is_winner : bool)
  : result Z :=
  let win_bounty := if is_winner then WIN_BONUS else 0 in
  let? half := int_truediv total_players 2 in
  let? ahead := float_of_int (total_players - position + 1) in
  let? factor := float_of_int PLACEMENT_FACTOR in
  let placement_score := float_mul (float_sub ahead half) factor in
  let? truncated := int_of_float placement_score in
  let total_bounty := win_bounty + truncated in
  Ok total_bounty.

(** The bounty as the specification words it (section 4.5), in exact
    rational arithmetic: the placement score
    [((N - position + 1) - N / 2) * 20] with a real-valued division,
    truncated toward zero, plus the win bonus. *)
Definition placement_score_exact (position total_players : Z) : Q :=
  ((inject_Z (total_players - position + 1) - inject_Z total_players / 2)
   * 20)%Q.

Definition trunc (x : Q) : Z := Z.quot (Qnum x) (Z.pos (Qden x)).

Definition win_bonus (is_winner : bool) : Z := if is_winner then 200 else 0.

Definition score_spec (position total_players : Z) (is_winner : bool) : Z :=
  win_bonus is_winner + trunc (placement_score_exact position total_players).

(** The bounty in closed form. *)
Definition bounty_formula (position total_players : Z) (is_winner : bool) : Z :=
  (if is_winner then 200 else 0)
  + 20 * (total_players - position + 1) - 10 * total_players.

(** ** The ledger *)

(** The module globals. *)
Record state : Type := {
  bounty_board : gmap string Z;
  last_game_data : option Ranking
}.

(** Code over the globals: it returns a value or raises, and leaves the
    globals as they are at that point. *)
Definition M (A : Type) : Type := state -> result A * state.

Definition ret {A : Type} (a : A) : M A := fun st => (Ok a, st).

Definition bind {A B : Type} (m : M A) (k : A -> M B) : M B :=
  fun st =>
    match m st with
    | (Ok a, st') => k a st'
    | (Raise e, st') => (Raise e, st')
    end.

Definition lift {A : Type} (r : result A) : M A := fun st => (r, st).

Definition get_board : M (gmap string Z) := fun st => (Ok (bounty_board st), st).

Definition set_board (board : gmap string Z) : M unit :=
  fun st => (Ok tt, {| bounty_board := board;
                       last_game_data := last_game_data st |}).

Definition set_last_game_data (data : option Ranking) : M unit :=
  fun st => (Ok tt, {| bounty_board := bounty_board st;
                       last_game_data := data |}).

(** [try: body except Exception as e: ...], whose handler reports the
    error and touches no global. *)
Definition try_except (body : M unit) : M unit :=
  fun st =>
    match body st with
    | (Ok tt, st') => (Ok tt, st')
    | (Raise _, st') => (Ok tt, st')
    end.

Notation "'let*' x ':=' m 'in' k" := (bind m (fun x => k))
  (at level 10, x name, m at level 100, k at level 200).
Notation "'run' m 'then' k" := (bind m (fun _ => k))
  (at level 10, m at level 100, k at level 200).

(** [for x in l: body(x)] *)
Fixpoint for_each {A : Type} (body : A -> M unit) (l : list A) : M unit :=
  match l with
  | [] => ret tt
  | x :: l' => run body x then for_each body l'
  end.

(** The body of the loop of [update_bounty_board]. *)
Definition add_bounty (total_players : Z) (entry : string * Z) : M unit :=
  let '(player_name, position) := entry in
  let is_winner := position =? 1 in
  let* bounty := lift (calculate_bounty position total_players is_winner) in
  let* board := get_board in
  match board !! player_name with
  | Some total => set_board (<[player_name := total + bounty]> board)
  | None => set_board (<[player_name := bounty]> board)
  end.

(** [save_bounty_board] writes the board to the JSON file and leaves
    the globals alone. *)
Definition save_bounty_board : M unit := ret tt.

Definition update_bounty_board (parsed_data : Ranking) : M unit :=
  run set_last_game_data (Some parsed_data) then
  let total_players := total_players parsed_data in
  run for_each (add_bounty total_players) (results parsed_data) then
  save_bounty_board.

(** The body of the revert loop of [PlayerRemovalView.done_editing]. *)
Definition revert_bounty (total_players : Z) (entry : string * Z) : M unit :=
  let '(player_name, position) := entry in
  let is_winner := position =? 1 in
  let* bounty := lift (calculate_bounty position total_players is_winner) in
  let* board := get_board in
  match board !! player_name with
  | Some total =>
      let total := total - bounty in
      if total =? 0 then set_board (delete player_name board)
      else set_board (<[player_name := total]> board)
  | None => ret tt
  end.

(** The revert loop of [PlayerRemovalView.done_editing]. *)
Definition revert_bounties (game_data : Ranking) : M unit :=
  let total_players := total_players game_data in
  for_each (revert_bounty total_players) (results game_data).

(** [[(name, idx + 1) for idx, (name, _) in enumerate(filtered, start)]],
    with [start = 0] in the source. *)
Fixpoint renumber (idx : Z) (filtered : list (string * Z))
  : list (string * Z) :=
  match filtered with
  | [] => []
  | (name, _) :: rest => (name, idx + 1) :: renumber (idx + 1) rest
  end.

(** The ranking [new_game_data] of [done_editing]. *)
Definition corrected_game_data (game_data : Ranking)
    (removed_players : list string) : Ranking :=
  let filtered_results :=
    List.filter (fun p => negb (Py.in_list (fst p) removed_players))
      (results game_data) in
  let new_results := renumber 0 filtered_results in
  {| total_players := py_len new_results; results := new_results |}.

(** [PlayerRemovalView.done_editing], on the fields [game_data] and
    [removed_players] of the view. *)
Definition done_editing (game_data : Ranking) (removed_players : list string)
  : M unit :=
  match removed_players with
  | [] => ret tt
  | _ =>
      run revert_bounties game_data then
      update_bounty_board (corrected_game_data game_data removed_players)
  end.

(** [edit_last_game] followed by the Done button with the selection
    [removed_players]: the view is built on [last_game_data]. *)
Definition edit_last_game (removed_players : list string) : M unit :=
  fun st =>
    match last_game_data st with
    | None => (Ok tt, st)
    | Some game_data => done_editing game_data removed_players st
    end.

(** The list [all_parsed_data] of [submit_marbles], from the texts that
    [perform_ocr] returned for the downloaded screenshots. *)
Fixpoint parse_screenshots (ocr_texts : list string) : list Ranking :=
  match ocr_texts with
  | [] => []
  | ocr_text :: rest =>
      if String.eqb ocr_text "" then parse_screenshots rest
      else match parse_marbles_screenshot ocr_text with
           | None => parse_screenshots rest
           | Some parsed_data => parsed_data :: parse_screenshots rest
           end
  end.

(** The [try] block of [submit_marbles]. *)
Definition submit_marbles (ocr_texts : list string) : M unit :=
  try_except
    (let all_parsed_data := parse_screenshots ocr_texts in
     match all_parsed_data with
     | [] => ret tt
     | first :: others =>
         let* merged_data :=
           lift (match others with
                 | [] => Ok first
                 | _ => merge_screenshot_data all_parsed_data
                 end) in
         update_bounty_board merged_data
     end).


(** [reset_slash]: the board is rebound to an empty dict. *)
Definition reset_slash : M unit := set_board ∅.

(** ** The ledger, one player at a time *)

(** The bounty an entry earns in a game of [total_players] players. *)
Definition entry_bounty (total_players : Z) (entry : string * Z) : result Z :=
  calculate_bounty (snd entry) total_players (snd entry =? 1).

(** A player's total after a bounty is added, and after it is taken
    back; [None] is a player without an entry on the board. *)
Definition credited (bounty : Z) (total : option Z) : option Z :=
  Some (default 0 total + bounty).

Definition debited (bounty : Z) (total : option Z) : option Z :=
  match total with
  | Some total => if total - bounty =? 0 then None else Some (total - bounty)
  | None => None
  end.

(** A prior total as it stands after apply and revert: a total of zero,
    like no total, leaves no entry. *)
Definition restored (total : option Z) : option Z :=
  match total with
  | Some total => if total =? 0 then None else Some total
  | None => None
  end.

(** All bounties of the entries can be computed. *)
Definition bounties_defined (total_players : Z) (entries : list (string * Z))
  : Prop :=
  forall entry, entry ∈ entries -> exists bounty,
    entry_bounty total_players entry = Ok bounty.

(** * Further notions *)

(** The sum of all totals on a board. *)
Definition board_total (board : gmap string Z) : Z :=
  foldr Z.add 0 (snd <$> map_to_list board).

(** The loop variables of the merger, without regard to positions:
    the set holds the lower-cased names of the merged list, and the
    counter is the length of the list. *)
Definition merge_tracked (st : merge_state) (existing : gset string) : Prop :=
  current_max_position st = py_len (merged_results st)
  /\ forall x, x ∈ existing <-> x ∈ folded_names (merged_results st).

(** What one pass of the merger appends: entries whose names come from
    [entries], at most one for each. *)
Definition appended_from (entries tail : list (string * Z)) : Prop :=
  (forall name, name ∈ names tail -> name ∈ names entries)
  /\ (length tail <= length entries)%nat.

(** A well-formed player name: an ASCII letter followed by at least two
    letters, digits or underscores. *)
Definition username (name : string) : bool :=
  match name with
  | "" => false
  | String c body =>
      Py.ascii_letter c && Py.all Py.ident_char body
      && (2 <=? String.length body)%nat
  end.

(** A character that [normalize_ocr_text] never leaves in place: a
    capital letter, or one of l, 1, 0 and 5. *)
Definition confusable (c : ascii) : bool :=
  negb (Ascii.eqb (Py.lower_char c) c)
  || Ascii.eqb c "l" || Ascii.eqb c "1" || Ascii.eqb c "0" || Ascii.eqb c "5".

(** A character that [clean_player_name] keeps inside a word. *)
Definition name_char (c : ascii) : bool :=
  Py.word_char c || Py.is_code 45 c.

(** The words that [str.split()] returns: not empty, without spaces. *)
Definition word (w : string) : Prop :=
  w <> "" /\ Py.any Py.isspace w = false.

(** What both passes of the parser require of a name they accept. *)
Definition accepted_name (name : string) : Prop :=
  username name = true
  /\ fuzzy_match_any name header_keywords = false
  /\ Py.in_list (Py.lower name) ignore_words = false.

(** ** The board in key order *)

(** A dict yields its keys in the order of their insertion, which a
    [gmap] does not record: the code that iterates over the board takes
    the list of its keys, in that order, as [order]. *)
Definition key_order (order : list string) (board : gmap string Z) : Prop :=
  NoDup order /\ forall name, name ∈ order <-> is_Some (board !! name).

(** [bounty_board.items()] *)
Definition board_items (order : list string) (board : gmap string Z)
  : list (string * Z) :=
  omap (fun name => pair name <$> board !! name) order.

(** The loop [for name, bounty in bounty_board.items()] that stops at
    the first name equal to [player] when case is ignored. *)
Definition find_ignoring_case (player : string) (items : list (string * Z))
  : option (string * Z) :=
  let player_lower := Py.lower player in
  List.find (fun item => String.eqb (Py.lower (fst item)) player_lower) items.

(** [bounty_slash]; the value is the name and bounty of the reply, and
    [None] stands for the reply that the player was not found. *)
Definition bounty_slash (order : list string) (player : string)
  : M (option (string * Z)) :=
  let* board := get_board in
  match board !! player with
  | Some bounty => ret (Some (player, bounty))
  | None => ret (find_ignoring_case player (board_items order board))
  end.

(** [show_bounty], the text command. *)
Definition show_bounty (order : list string) (player_name : string)
  : M (option (string * Z)) :=
  let* board := get_board in
  match board !! player_name with
  | Some bounty => ret (Some (player_name, bounty))
  | None => ret (find_ignoring_case player_name (board_items order board))
  end.

(** [remove_player]; the value is the name and bounty of the reply.  The
    second loop runs over [list(bounty_board.keys())] and reads
    [bounty_board[name]], which is the pair that [items()] holds. *)
Definition remove_player (order : list string) (player : string)
  : M (option (string * Z)) :=
  let* board := get_board in
  match board !! player with
  | Some bounty =>
      run set_board (delete player board) then
      run save_bounty_board then
      ret (Some (player, bounty))
  | None =>
      match find_ignoring_case player (board_items order board) with
      | Some (name, bounty) =>
          run set_board (delete name board) then
          run save_bounty_board then
          ret (Some (name, bounty))
      | None => ret None
      end
  end.

(** ** The views *)

Definition players_per_page : Z := 25.

(** An index of a slice, brought into the bounds of a list of length
    [len]: a negative index counts from the end. *)
Definition slice_index (len i : Z) : Z :=
  if i <? 0 then Z.max 0 (len + i) else Z.min len i.

(** [l[start:stop]] *)
Definition slice {A : Type} (start stop : Z) (l : list A) : list A :=
  let lo := slice_index (py_len l) start in
  let hi := slice_index (py_len l) stop in
  take (Z.to_nat (hi - lo)) (drop (Z.to_nat lo) l).

(** [range(start, stop)] as a list. *)
Definition range (start stop : Z) : list Z :=
  seqZ start (stop - start).

(** [sorted(items, key=lambda x: x[1], reverse=True)]: the sort is
    stable, so an item goes before the items of the same bounty that
    came after it. *)
Fixpoint insert_by_bounty (item : string * Z) (sorted : list (string * Z))
  : list (string * Z) :=
  match sorted with
  | [] => [item]
  | next :: rest =>
      if snd next <=? snd item then item :: sorted
      else next :: insert_by_bounty item rest
  end.

Definition sorted_by_bounty (items : list (string * Z)) : list (string * Z) :=
  foldr insert_by_bounty [] items.

(** The fields of a view that its methods change. *)
Record view : Type := {
  removed_players : list string;
  page : Z
}.

(** The items that [update_view] puts on a view: the values of the
    options of the select menu (no menu when there is none), and whether
    each button is there; the Done and Cancel buttons come together. *)
Record view_items : Type := {
  options : list string;
  previous_button : bool;
  next_button : bool;
  action_buttons : bool
}.

(** The loop of [player_selected], which both views have. *)
Definition mark_selected (selected_players removed_players : list string)
  : list string :=
  fold_left
    (fun removed player =>
       if Py.in_list player removed then removed else removed ++ [player])
    selected_players removed_players.

Module LeaderboardEditView.

Definition get_sorted_leaderboard (order : list string)
    (board : gmap string Z) : list (string * Z) :=
  sorted_by_bounty (board_items order board).

Definition get_available_players (order : list string)
    (board : gmap string Z) (self : view) : list (string * Z) :=
  let all_players := get_sorted_leaderboard order board in
  List.filter (fun p => negb (Py.in_list (fst p) (removed_players self)))
    all_players.

Definition get_total_pages (order : list string) (board : gmap string Z)
    (self : view) : Z :=
  let available := get_available_players order board self in
  Z.max 1 ((py_len available + players_per_page - 1) / players_per_page).

Definition update_view (order : list string) (board : gmap string Z)
    (self : view) : view_items :=
  let available_players := get_available_players order board self in
  let total_pages := get_total_pages order board self in
  match available_players with
  | [] => {| options := []; previous_button := false;
             next_button := false; action_buttons := false |}
  | _ =>
      let start_idx := page self * players_per_page in
      let end_idx := start_idx + players_per_page in
      let page_players := slice start_idx end_idx available_players in
      {| options := names page_players;
         previous_button := 0 <? page self;
         next_button := page self <? total_pages - 1;
         action_buttons := true |}
  end.

Definition previous_page (self : view) : view :=
  {| removed_players := removed_players self;
     page := Z.max 0 (page self - 1) |}.

Definition next_page (order : list string) (board : gmap string Z)
    (self : view) : view :=
  let total_pages := get_total_pages order board self in
  {| removed_players := removed_players self;
     page := Z.min (total_pages - 1) (page self + 1) |}.

Definition player_selected (order : list string) (board : gmap string Z)
    (selected_players : list string) (self : view) : view :=
  let self := {| removed_players :=
                   mark_selected selected_players (removed_players self);
                 page := page self |} in
  let total_pages := get_total_pages order board self in
  if (total_pages <=? page self) && (0 <? total_pages)
  then {| removed_players := removed_players self; page := total_pages - 1 |}
  else self.

(** The body of the loop of [done_editing]. *)
Definition remove_from_board (player : string) : M unit :=
  let* board := get_board in
  match board !! player with
  | Some _ => set_board (delete player board)
  | None => ret tt
  end.

Definition done_editing (self : view) : M unit :=
  match removed_players self with
  | [] => ret tt
  | _ =>
      run for_each remove_from_board (removed_players self) then
      save_bounty_board
  end.

End LeaderboardEditView.

(** The view of [edit_last_game]; its [done_editing] is the one above,
    on the fields [game_data] and [removed_players]. *)
Module PlayerRemovalView.

Definition get_available_players (game_data : Ranking) (self : view)
  : list (string * Z) :=
  List.filter (fun p => negb (Py.in_list (fst p) (removed_players self)))
    (results game_data).

Definition get_total_pages (game_data : Ranking) (self : view) : Z :=
  let available := get_available_players game_data self in
  (py_len available + players_per_page - 1) / players_per_page.

Definition update_view (game_data : Ranking) (self : view) : view_items :=
  let available_players := get_available_players game_data self in
  let total_pages := get_total_pages game_data self in
  match available_players with
  | [] => {| options := []; previous_button := false;
             next_button := false; action_buttons := false |}
  | _ =>
      let start_idx := page self * players_per_page in
      let end_idx := start_idx + players_per_page in
      let page_players := slice start_idx end_idx available_players in
      {| options := names page_players;
         previous_button := 0 <? page self;
         next_button := page self <? total_pages - 1;
         action_buttons := true |}
  end.

Definition previous_page (self : view) : view :=
  {| removed_players := removed_players self;
     page := Z.max 0 (page self - 1) |}.

Definition next_page (game_data : Ranking) (self : view) : view :=
  let total_pages := get_total_pages game_data self in
  {| removed_players := removed_players self;
     page := Z.min (total_pages - 1) (page self + 1) |}.

Definition player_selected (game_data : Ranking)
    (selected_players : list string) (self : view) : view :=
  let self := {| removed_players :=
                   mark_selected selected_players (removed_players self);
                 page := page self |} in
  let total_pages := get_total_pages game_data self in
  if (total_pages <=? page self) && (0 <? total_pages)
  then {| removed_players := removed_players self; page := total_pages - 1 |}
  else self.

End PlayerRemovalView.

(** ** Messages *)

(** The messages hold characters beyond Latin-1, so a message is the
    list of its code points, and [len] is the length of the list. *)
Definition text : Type := list N.

Fixpoint of_str (s : string) : text :=
  match s with
  | "" => []
  | String c s' => Py.ord c :: of_str s'
  end.

Definition newline : text := [10%N].

(** The decimal digits of [n >= 0] in front of [acc]; [fuel] bounds the
    number of divisions by ten. *)
Fixpoint digits (fuel : nat) (n : Z) (acc : text) : text :=
  let acc := (48 + Z.to_N (n mod 10))%N :: acc in
  match fuel with
  | O => acc
  | S fuel => if n <? 10 then acc else digits fuel (n / 10) acc
  end.

(** [str(n)], which is also [format(n, '')]. *)
Definition str_of_int (n : Z) : text :=
  let magnitude := Z.abs n in
  let ds := digits (Z.to_nat (Z.log2 magnitude)) magnitude [] in
  if n <? 0 then 45%N :: ds else ds.

(** The sign option [+] of a format specification. *)
Definition signed (n : Z) : text :=
  if n <? 0 then str_of_int n else 43%N :: str_of_int n.

(** The alignments [<width] and [>width] of a format specification. *)
Definition ljust (width : Z) (t : text) : text :=
  t ++ replicate (Z.to_nat (width - py_len t)) 32%N.

Definition rjust (width : Z) (t : text) : text :=
  replicate (Z.to_nat (width - py_len t)) 32%N ++ t.

Definition fence : text := of_str "```".

(** The check of both formatters before a line is added: a message
    that would grow beyond the limit is closed and a continuation,
    which starts as [continued], takes the line. *)
Definition add_line (continued line : text) (st : list text * text)
  : list text * text :=
  let '(messages, current_message) := st in
  if 1900 <? py_len current_message + py_len line + 10
  then (messages ++ [current_message ++ fence], continued ++ line)
  else (messages, current_message ++ line).

(** The part that the first message and a continuation share: the
    opening fence, the column titles and the rule. *)
Definition columns (first : text) : text :=
  fence ++ newline
  ++ first ++ of_str " " ++ ljust 20 (of_str "Player") ++ of_str " "
  ++ rjust 10 (of_str "Bounty") ++ newline
  ++ replicate 40 9472%N ++ newline.

Definition trophy : text := [127942%N].

Definition no_bounties : text :=
  trophy ++ of_str " **BOUNTY LEADERBOARD** " ++ trophy ++ newline ++ newline
  ++ of_str "*No bounties recorded yet!*".

Definition leaderboard_top : text :=
  trophy ++ of_str " **BOUNTY LEADERBOARD** " ++ trophy ++ newline ++ newline
  ++ columns (ljust 6 (of_str "Rank")).

Definition leaderboard_continued : text :=
  trophy ++ of_str " **BOUNTY LEADERBOARD (continued)** " ++ trophy
  ++ newline ++ newline
  ++ columns (ljust 6 (of_str "Rank")).

Definition leaderboard_line (rank : Z) (player : string) (bounty : Z) : text :=
  let medal :=
    if rank =? 1 then [129351%N]
    else if rank =? 2 then [129352%N]
    else if rank =? 3 then [129353%N]
    else of_str "   " in
  medal ++ of_str " " ++ ljust 3 (str_of_int rank) ++ of_str " "
  ++ ljust 20 (of_str player) ++ of_str " " ++ rjust 10 (str_of_int bounty)
  ++ newline.

(** The loop of [format_leaderboard] over
    [enumerate(sorted_players, rank)]. *)
Fixpoint leaderboard_loop (rank : Z) (sorted_players : list (string * Z))
    (st : list text * text) : list text * text :=
  match sorted_players with
  | [] => st
  | (player, bounty) :: rest =>
      let line := leaderboard_line rank player bounty in
      leaderboard_loop (rank + 1) rest (add_line leaderboard_continued line st)
  end.

(** [format_leaderboard], on the board as it stands. *)
Definition format_leaderboard (order : list string) (board : gmap string Z)
  : list text :=
  if decide (board = ∅) then [no_bounties]
  else
    let sorted_players := sorted_by_bounty (board_items order board) in
    let '(messages, current_message) :=
      leaderboard_loop 1 sorted_players ([], leaderboard_top) in
    messages ++ [current_message ++ fence].

Definition flag : text := [127937%N].

Definition game_results_top (total_players : Z) : text :=
  flag ++ of_str " **RACE RESULTS** (Total Players: "
  ++ str_of_int total_players ++ of_str ")" ++ newline ++ newline
  ++ columns (ljust 5 (of_str "Pos")).

Definition game_results_continued : text :=
  flag ++ of_str " **RACE RESULTS (continued)**" ++ newline ++ newline
  ++ columns (ljust 5 (of_str "Pos")).

Definition game_results_line (position : Z) (player_name : string)
    (bounty : Z) : text :=
  let is_winner := position =? 1 in
  let medal := if is_winner then [128081%N] else of_str "   " in
  medal ++ ljust 4 (str_of_int position) ++ of_str " "
  ++ ljust 20 (of_str player_name) ++ of_str " " ++ rjust 10 (signed bounty)
  ++ newline.

(** The loop of [format_game_results]. *)
Fixpoint game_results_loop (total_players : Z) (results : list (string * Z))
    (st : list text * text) : result (list text * text) :=
  match results with
  | [] => Ok st
  | (player_name, position) :: rest =>
      let is_winner := position =? 1 in
      let? bounty := calculate_bounty position total_players is_winner in
      let line := game_results_line position player_name bounty in
      game_results_loop total_players rest
        (add_line game_results_continued line st)
  end.

Definition format_game_results (parsed_data : Ranking) : result (list text) :=
  let total_players := total_players parsed_data in
  let results := results parsed_data in
  let? st :=
    game_results_loop total_players results
      ([], game_results_top total_players) in
  let '(messages, current_message) := st in
  Ok (messages ++ [current_message ++ fence]).

(** What the formatters build, as the theorems tell it: a message is a
    top, the lines of a group and the closing fence. *)
Definition render (top : text) (group : list text) : text :=
  top ++ mjoin group ++ fence.

(** The lines of [format_leaderboard], from rank [rank] on. *)
Fixpoint leaderboard_lines (rank : Z) (sorted_players : list (string * Z))
  : list text :=
  match sorted_players with
  | [] => []
  | (player, bounty) :: rest =>
      leaderboard_line rank player bounty :: leaderboard_lines (rank + 1) rest
  end.

(** The loop of both formatters, once the lines are given. *)
Definition add_lines (continued : text) (lines : list text)
    (st : list text * text) : list text * text :=
  fold_left (fun st line => add_line continued line st) lines st.

(** The messages cut the lines into groups: the first message has the
    top and the first group, which may be empty; each further message
    is a continuation with a group that is not. *)
Definition chunked (top continued : text) (lines messages : list text)
  : Prop :=
  exists (first : list text) (groups : list (list text)),
    mjoin (first :: groups) = lines
    /\ Forall (fun group => group <> []) groups
    /\ messages = render top first :: (render continued <$> groups).

(** The lines of [format_game_results] where the bounties are the
    closed form. *)
Definition game_results_lines (total_players : Z)
    (results : list (string * Z)) : list text :=
  List.map
    (fun entry =>
       game_results_line (snd entry) (fst entry)
         (bounty_formula (snd entry) total_players (snd entry =? 1)))
    results.

(** [leaderboard_slash]: the messages it sends, in order; it reads the
    first one by index. *)
Definition leaderboard_slash (order : list string) (board : gmap string Z)
  : result (list text) :=
  let leaderboard_messages := format_leaderboard order board in
  match leaderboard_messages with
  | [] => Raise IndexError
  | first :: rest => Ok (first :: rest)
  end.

(** ** The globals as the commands keep them *)


(** * Properties *)

(** A decidable closed proposition, settled by evaluation. *)
Ltac by_decision :=
  match goal with
  | |- ?P => apply (bool_decide_unpack P); vm_compute; exact I
  end.

(** ** Strings *)

Lemma str_map_map (f g : ascii -> ascii) (s : string) :
  Py.map f (Py.map g s) = Py.map (fun c => f (g c)) s.
Proof. induction s as [|c s IH]; simpl; [reflexivity | now rewrite IH]. Qed.

Lemma str_map_ext (f g : ascii -> ascii) (s : string) :
  (forall c, f c = g c) -> Py.map f s = Py.map g s.
Proof.
  intros Hfg. induction s as [|c s IH]; simpl; [reflexivity|].
  now rewrite Hfg, IH.
Qed.

Lemma normalize_ocr_text_map (text : string) :
  normalize_ocr_text text = Py.map normalize_char text.
Proof.
  unfold normalize_ocr_text, Py.lower. now rewrite !str_map_map.
Qed.

Lemma normalize_char_idempotent (c : ascii) :
  normalize_char (normalize_char c) = normalize_char c.
Proof. destruct c as [[] [] [] [] [] [] [] []]; reflexivity. Qed.

(** C9.  Normalization is idempotent: normalizing a normalized string
    changes nothing. *)
Theorem normalize_ocr_text_idempotent (x : string) :
  normalize_ocr_text (normalize_ocr_text x) = normalize_ocr_text x.
Proof.
  rewrite !normalize_ocr_text_map, str_map_map.
  apply str_map_ext, normalize_char_idempotent.
Qed.

Lemma str_app_nil_l (s : string) : "" +:+ s = s.
Proof. reflexivity. Qed.

Lemma str_app_cons (c : ascii) (s t : string) :
  String c s +:+ t = String c (s +:+ t).
Proof. reflexivity. Qed.

Lemma prefix_nil (s : string) : String.prefix "" s = true.
Proof. now destruct s. Qed.

Lemma prefix_app (p s : string) :
  String.prefix p s = true <-> exists after, s = p +:+ after.
Proof.
  revert s. induction p as [|c p IH]; intros s.
  - rewrite prefix_nil. split; [intros _; now exists s | reflexivity].
  - destruct s as [|d s]; simpl.
    + split; [discriminate | intros [after H]; discriminate].
    + destruct (ascii_dec c d) as [->|Hne].
      * rewrite IH. split; intros [after H]; exists after.
        -- now rewrite str_app_cons, H.
        -- rewrite str_app_cons in H. now injection H.
      * split; [discriminate|]. intros [after H].
        rewrite str_app_cons in H. injection H as Hc _. now destruct Hne.
Qed.

Lemma contains_substring_of (hay needle : string) :
  Py.contains hay needle = true <-> substring_of needle hay.
Proof.
  unfold substring_of. induction hay as [|c hay IH].
  - cbn [Py.contains]. rewrite orb_false_r, prefix_app. split.
    + intros [after H]. now exists "", after.
    + intros [[|b before] [after H]]; [now exists after | discriminate].
  - cbn [Py.contains]. rewrite orb_true_iff, prefix_app, IH. split.
    + intros [[after H] | (before & after & H)].
      * now exists "", after.
      * exists (String c before), after. now rewrite str_app_cons, H.
    + intros [[|b before] [after H]].
      * left. now exists after.
      * right. exists before, after. rewrite str_app_cons in H. now injection H.
Qed.

(** C7.  [fuzzy_match_keyword text keyword] is true exactly when the
    normalized keyword is a substring of the normalized text; "Tlme"
    contains "time" and "P0ints" contains "points". *)
Theorem fuzzy_match_keyword_spec :
  (forall text keyword : string,
      fuzzy_match_keyword text keyword = true <->
      substring_of (normalize_ocr_text keyword) (normalize_ocr_text text))
  /\ fuzzy_match_keyword "Tlme" "time" = true
  /\ fuzzy_match_keyword "P0ints" "points" = true.
Proof.
  split; [|split; reflexivity].
  intros text keyword. unfold fuzzy_match_keyword.
  apply contains_substring_of.
Qed.

(** ** Rankings and the merger *)

Lemma py_len_app {A : Type} (l k : list A) :
  py_len (l ++ k) = py_len l + py_len k.
Proof. unfold py_len. rewrite length_app. lia. Qed.

Lemma folded_names_app (l k : list (string * Z)) :
  folded_names (l ++ k) = folded_names l ++ folded_names k.
Proof. apply map_app. Qed.

Lemma highest_position_snoc (l : list (string * Z)) (x : string * Z) :
  highest_position (l ++ [x]) = Z.max (highest_position l) (snd x).
Proof.
  unfold highest_position. induction l as [|y l IH]; simpl.
  - lia.
  - simpl in IH. rewrite IH. lia.
Qed.

Lemma contiguous_from_nil (start : Z) : contiguous_from start [].
Proof. intros i entry H. discriminate. Qed.

Lemma contiguous_from_snoc (start : Z) (l : list (string * Z)) (x : string * Z) :
  contiguous_from start (l ++ [x]) <->
  contiguous_from start l /\ snd x = start + py_len l + 1.
Proof.
  unfold contiguous_from, py_len. split.
  - intros H. split.
    + intros i entry Hi. apply H. rewrite lookup_app_l; [assumption|].
      eapply lookup_lt_Some, Hi.
    + apply H. rewrite lookup_app_r by lia. now rewrite Nat.sub_diag.
  - intros [Hl Hx] i entry Hi.
    destruct (decide (i < length l)%nat) as [Hlt|Hge].
    + rewrite lookup_app_l in Hi by assumption. now apply Hl.
    + rewrite lookup_app_r in Hi by lia.
      destruct (i - length l)%nat as [|k] eqn:Hk; simpl in Hi; [|discriminate].
      injection Hi as <-. rewrite Hx. f_equal. lia.
Qed.

Lemma contiguous_highest (l : list (string * Z)) :
  contiguous_from 0 l -> highest_position l = py_len l.
Proof.
  induction l as [|x l IH] using rev_ind; intros H; [reflexivity|].
  apply contiguous_from_snoc in H as [Hl Hx].
  rewrite highest_position_snoc, py_len_app, IH, Hx by assumption.
  unfold py_len. simpl. lia.
Qed.


Lemma lower_names_spec (l : list (string * Z)) (x : string) :
  x ∈ lower_names l <-> x ∈ folded_names l.
Proof. unfold lower_names, folded_names. apply elem_of_list_to_set. Qed.

Lemma merge_entry_refines (st : merge_state) (existing : gset string)
    (entry : string * Z) :
  merge_related st existing ->
  let '(st', existing') := merge_entry (st, existing) entry in
  merged_results st' = merge_spec_entry (merged_results st) entry
  /\ merge_related st' existing'.
Proof.
  intros [Hmax Hset]. unfold merge_entry, merge_spec_entry.
  destruct (decide (Py.lower (fst entry) ∈ existing)) as [Hin|Hnotin].
  - rewrite decide_True by now apply Hset.
    split; [reflexivity | now split].
  - rewrite decide_False by now rewrite <- Hset.
    cbn [merged_results current_max_position]. rewrite Hmax.
    split; [reflexivity|]. split; cbn [merged_results current_max_position].
    + rewrite highest_position_snoc. cbn [snd]. lia.
    + intros x. rewrite folded_names_app, elem_of_app, elem_of_union, Hset.
      cbn. rewrite elem_of_singleton, list_elem_of_singleton. tauto.
Qed.

Lemma merge_entries_refine (entries : list (string * Z)) (st : merge_state)
    (existing : gset string) :
  merge_related st existing ->
  let '(st', existing') := fold_left merge_entry entries (st, existing) in
  merged_results st' = fold_left merge_spec_entry entries (merged_results st)
  /\ merge_related st' existing'.
Proof.
  revert st existing.
  induction entries as [|entry entries IH]; intros st existing Hrel.
  - now split.
  - cbn [fold_left].
    pose proof (merge_entry_refines st existing entry Hrel) as Hstep.
    destruct (merge_entry (st, existing) entry) as [st1 existing1].
    destruct Hstep as [Hres Hrel1].
    specialize (IH st1 existing1 Hrel1). rewrite <- Hres. exact IH.
Qed.

Lemma merge_screenshot_refines (st : merge_state) (parsed_data : Ranking) :
  current_max_position st = highest_position (merged_results st) ->
  merged_results (merge_screenshot st parsed_data)
  = merge_spec_ranking (merged_results st) parsed_data
  /\ current_max_position (merge_screenshot st parsed_data)
     = highest_position (merged_results (merge_screenshot st parsed_data)).
Proof.
  intros Hmax. unfold merge_screenshot, merge_spec_ranking.
  pose proof (merge_entries_refine (results parsed_data) st
                (lower_names (merged_results st))) as H.
  destruct (fold_left merge_entry (results parsed_data)
              (st, lower_names (merged_results st))) as [st' existing'].
  destruct H as [Hres [Hmax' _]].
  - split; [assumption | apply lower_names_spec].
  - now split.
Qed.

Lemma merge_screenshots_refine (rest : list Ranking) (st : merge_state) :
  current_max_position st = highest_position (merged_results st) ->
  merged_results (fold_left merge_screenshot rest st)
  = fold_left merge_spec_ranking rest (merged_results st).
Proof.
  revert st. induction rest as [|r rest IH]; intros st Hmax; [reflexivity|].
  cbn [fold_left].
  destruct (merge_screenshot_refines st r Hmax) as [Hres Hmax'].
  rewrite IH by assumption. now rewrite Hres.
Qed.

(** The merger computes what the specification describes, as soon as
    the positions of the first ranking are contiguous from 1. *)
Lemma merge_screenshot_data_refines (first : Ranking) (rest : list Ranking) :
  contiguous_from 0 (results first) ->
  merge_screenshot_data (first :: rest) = Ok (merge_spec (first :: rest)).
Proof.
  intros Hfirst. destruct rest as [|second rest]; [reflexivity|].
  unfold merge_screenshot_data, merge_spec.
  rewrite merge_screenshots_refine; [reflexivity|].
  cbn [current_max_position merged_results].
  symmetry. now apply contiguous_highest.
Qed.

Lemma merge_spec_entry_extends (merged : list (string * Z)) (entry : string * Z) :
  exists tail, merge_spec_entry merged entry = merged ++ tail.
Proof.
  unfold merge_spec_entry. case_decide.
  - exists []. now rewrite app_nil_r.
  - eauto.
Qed.

Lemma merge_spec_ranking_extends (r : Ranking) (merged : list (string * Z)) :
  exists tail, merge_spec_ranking merged r = merged ++ tail.
Proof.
  unfold merge_spec_ranking. generalize (results r) as entries.
  intros entries. revert merged.
  induction entries as [|entry entries IH]; intros merged; cbn [fold_left].
  - exists []. now rewrite app_nil_r.
  - destruct (merge_spec_entry_extends merged entry) as [t1 ->].
    destruct (IH (merged ++ t1)) as [t2 ->].
    exists (t1 ++ t2). now rewrite app_assoc.
Qed.

Lemma merge_spec_rankings_extend (rest : list Ranking)
    (merged : list (string * Z)) :
  exists tail, fold_left merge_spec_ranking rest merged = merged ++ tail.
Proof.
  revert merged. induction rest as [|r rest IH]; intros merged; cbn [fold_left].
  - exists []. now rewrite app_nil_r.
  - destruct (merge_spec_ranking_extends r merged) as [t1 ->].
    destruct (IH (merged ++ t1)) as [t2 ->].
    exists (t1 ++ t2). now rewrite app_assoc.
Qed.

(** C3.  The merger returns a single ranking unchanged; on several
    rankings that satisfy the invariant it computes what the
    specification describes (first ranking verbatim, later entries in
    order, skipped when the name already occurs ignoring case, appended
    one past the highest position otherwise), the result beginning with
    the entries of the first ranking; alice, bob merged with bob, carol
    gives alice 1, bob 2, carol 3 and three players. *)
Theorem merge_screenshot_data_spec :
  (forall only : Ranking, merge_screenshot_data [only] = Ok only)
  /\ (forall rankings : list Ranking,
        rankings <> [] ->
        Forall Ranking_invariant rankings ->
        merge_screenshot_data rankings = Ok (merge_spec rankings))
  /\ (forall (first second : Ranking) (rest : list Ranking),
        exists tail,
          results (merge_spec (first :: second :: rest))
          = results first ++ tail)
  /\ merge_screenshot_data
       [ {| total_players := 2; results := [("alice", 1); ("bob", 2)] |};
         {| total_players := 2; results := [("bob", 1); ("carol", 2)] |} ]
     = Ok {| total_players := 3;
             results := [("alice", 1); ("bob", 2); ("carol", 3)] |}.
Proof.
  split; [reflexivity|]. split; [|split].
  - intros [|first rest] Hne Hinv; [contradiction|].
    apply merge_screenshot_data_refines.
    apply Forall_cons in Hinv as [Hfirst _]. apply Hfirst.
  - intros first second rest. cbn [merge_spec results].
    apply merge_spec_rankings_extend.
  - vm_compute. reflexivity.
Qed.

(** Alice, then Alice in capitals: the second ranking adds nothing. *)
Lemma merge_screenshot_data_spec_witness :
  merge_screenshot_data
    [ {| total_players := 1; results := [("alice", 1)] |};
      {| total_players := 1; results := [("Alice", 1)] |} ]
  = Ok {| total_players := 1; results := [("alice", 1)] |}.
Proof.
  pose proof merge_screenshot_data_spec as (_ & Hspec & _).
  rewrite Hspec.
  - vm_compute. reflexivity.
  - discriminate.
  - repeat constructor; cbn; try lia.
    all: try (intros i entry; destruct i as [|i]; cbn; intros [= <-];
              reflexivity).
    all: try (intros Hin; inversion Hin).
Defined.

Lemma snoc_invariant (merged : list (string * Z)) (name : string) :
  contiguous_from 0 merged ->
  NoDup (folded_names merged) ->
  Py.lower name ∉ folded_names merged ->
  contiguous_from 0 (merged ++ [(name, py_len merged + 1)])
  /\ NoDup (folded_names (merged ++ [(name, py_len merged + 1)])).
Proof.
  intros Hpos Hnodup Hfresh. split.
  - apply contiguous_from_snoc. split; [assumption | reflexivity].
  - rewrite folded_names_app. apply NoDup_app. split; [assumption|]. split.
    + intros x Hx Hx'. cbn in Hx'. apply list_elem_of_singleton in Hx'.
      now subst x.
    + cbn. apply NoDup_singleton.
Qed.

Lemma merge_spec_entry_invariant (merged : list (string * Z))
    (entry : string * Z) :
  contiguous_from 0 merged /\ NoDup (folded_names merged) ->
  contiguous_from 0 (merge_spec_entry merged entry)
  /\ NoDup (folded_names (merge_spec_entry merged entry)).
Proof.
  intros [Hpos Hnodup]. unfold merge_spec_entry. case_decide.
  - now split.
  - rewrite contiguous_highest by assumption. now apply snoc_invariant.
Qed.

Lemma merge_spec_ranking_invariant (r : Ranking) (merged : list (string * Z)) :
  contiguous_from 0 merged /\ NoDup (folded_names merged) ->
  contiguous_from 0 (merge_spec_ranking merged r)
  /\ NoDup (folded_names (merge_spec_ranking merged r)).
Proof.
  unfold merge_spec_ranking. generalize (results r) as entries.
  intros entries. revert merged.
  induction entries as [|entry entries IH]; intros merged H; [exact H|].
  cbn [fold_left]. now apply IH, merge_spec_entry_invariant.
Qed.

Lemma merge_spec_invariant (first : Ranking) (rest : list Ranking) :
  Ranking_invariant first -> Ranking_invariant (merge_spec (first :: rest)).
Proof.
  intros Hfirst. destruct rest as [|second rest]; [exact Hfirst|].
  cbn [merge_spec].
  assert (contiguous_from 0 (fold_left merge_spec_ranking (second :: rest)
                               (results first))
          /\ NoDup (folded_names (fold_left merge_spec_ranking
                                    (second :: rest) (results first)))) as [H1 H2].
  { generalize (second :: rest) as l. intros l.
    assert (contiguous_from 0 (results first)
            /\ NoDup (folded_names (results first))) as H
      by (split; apply Hfirst).
    revert H. generalize (results first) as merged. intros merged. revert merged.
    induction l as [|r l IH]; intros merged H; [exact H|].
    cbn [fold_left]. now apply IH, merge_spec_ranking_invariant. }
  now constructor.
Qed.

(** ** The parser *)

Lemma listed_spec (name : string) (l : list (string * Z)) :
  listed name l = true <-> Py.lower name ∈ folded_names l.
Proof.
  unfold listed, folded_names. rewrite existsb_exists, list_elem_of_In, in_map_iff.
  split; intros [p [H1 H2]]; exists p.
  - apply String.eqb_eq in H2. now split.
  - split; [assumption | now apply String.eqb_eq].
Qed.

Lemma listed_false (name : string) (l : list (string * Z)) :
  listed name l = false -> Py.lower name ∉ folded_names l.
Proof. intros H Hin. apply listed_spec in Hin. congruence. Qed.

Lemma parse_init_ok (header_found : bool) :
  parse_ok {| ps_results := []; ps_position := 0;
              ps_header_found := header_found |}.
Proof.
  split; [apply contiguous_from_nil|]. split; [constructor | reflexivity].
Qed.

Lemma accept_ok (name : string) (st : parse_state) :
  parse_ok st -> listed name (ps_results st) = false ->
  parse_ok (accept name st).
Proof.
  intros (Hpos & Hnodup & Hcount) Hfresh. apply listed_false in Hfresh.
  unfold parse_ok, accept. cbn [ps_results ps_position]. rewrite Hcount.
  destruct (snoc_invariant _ name Hpos Hnodup Hfresh) as [H1 H2].
  split; [assumption|]. split; [assumption|].
  rewrite py_len_app. reflexivity.
Qed.

Lemma strict_line_ok (st : parse_state) (line : string) :
  parse_ok st -> parse_ok (strict_line st line).
Proof.
  intros Hok. unfold strict_line.
  destruct (fuzzy_match_any line ["place"; "player"]); [exact Hok|].
  destruct (fuzzy_match_any line header_keywords && negb (Py.any Py.isdigit line));
    [exact Hok|].
  destruct (find_player_name (Py.split line)) as [player_name|]; [|exact Hok].
  destruct (negb (String.eqb player_name "") && (3 <=? Py.len player_name));
    [|exact Hok].
  destruct (listed player_name (ps_results st)) eqn:Hlisted; [exact Hok|].
  now apply accept_ok.
Qed.

Lemma pick_name_fresh (results : list (string * Z)) (candidates : list string)
    (name : string) :
  pick_name results candidates = Some name -> listed name results = false.
Proof.
  induction candidates as [|c candidates IH]; cbn [pick_name]; [discriminate|].
  destruct (fuzzy_match_any c header_keywords); [exact IH|].
  destruct (Py.in_list (Py.lower c) ignore_words); [exact IH|].
  destruct (listed c results) eqn:Hlisted; [exact IH|].
  intros [= <-]. exact Hlisted.
Qed.

Lemma aggressive_line_ok (st : parse_state) (line : string) :
  parse_ok st -> parse_ok (aggressive_line st line).
Proof.
  intros Hok. unfold aggressive_line.
  destruct (fuzzy_match_any line ["place"; "player"]); [exact Hok|].
  destruct (pick_name (ps_results st) (Py.findall_names line)) as [name|] eqn:Hpick;
    [|exact Hok].
  apply accept_ok; [exact Hok|]. eapply pick_name_fresh, Hpick.
Qed.

Lemma fold_left_preserves {A B : Type} (P : A -> Prop) (f : A -> B -> A)
    (l : list B) (a : A) :
  (forall a b, P a -> P (f a b)) -> P a -> P (fold_left f l a).
Proof.
  intros Hf. revert a. induction l as [|b l IH]; intros a Ha; [exact Ha|].
  cbn [fold_left]. apply IH, Hf, Ha.
Qed.

Lemma parse_marbles_screenshot_results (text : string) :
  exists st : parse_state,
    parse_ok st
    /\ parse_marbles_screenshot text
       = match ps_results st with
         | [] => None
         | results =>
             Some {| total_players := py_len results; results := results |}
         end.
Proof.
  unfold parse_marbles_screenshot.
  set (lines := clean_lines text).
  assert (parse_ok (strict_pass lines)) as Hstrict.
  { unfold strict_pass. apply (fold_left_preserves parse_ok);
      [apply strict_line_ok | apply parse_init_ok]. }
  destruct (py_len (ps_results (strict_pass lines)) <? 2).
  - eexists. split; [|reflexivity].
    unfold aggressive_pass. apply (fold_left_preserves parse_ok);
      [apply aggressive_line_ok | apply parse_init_ok].
  - eexists. split; [exact Hstrict | reflexivity].
Qed.

(** C4.  Every ranking the parser returns, and every ranking the merger
    returns on rankings that satisfy the invariant, satisfies the
    Ranking invariant: [total_players] is the number of entries, entry
    [i] carries position [i + 1], and no two names are equal ignoring
    case.  The merger returns a ranking on every non-empty input. *)
Theorem ranking_invariant_established :
  (forall (text : string) (r : Ranking),
      parse_marbles_screenshot text = Some r -> Ranking_invariant r)
  /\ (forall (rankings : list Ranking) (r : Ranking),
        Forall Ranking_invariant rankings ->
        merge_screenshot_data rankings = Ok r ->
        Ranking_invariant r)
  /\ (forall rankings : list Ranking,
        rankings <> [] ->
        Forall Ranking_invariant rankings ->
        exists r, merge_screenshot_data rankings = Ok r).
Proof.
  split; [|split].
  - intros text r Hparse.
    destruct (parse_marbles_screenshot_results text) as (st & Hok & Heq).
    rewrite Heq in Hparse. destruct Hok as (Hpos & Hnodup & _).
    destruct (ps_results st) as [|entry entries]; [discriminate|].
    injection Hparse as <-. now constructor.
  - intros [|first rest] r Hinv Hmerge; [discriminate|].
    apply Forall_cons in Hinv as [Hfirst _].
    rewrite merge_screenshot_data_refines in Hmerge by apply Hfirst.
    injection Hmerge as <-. now apply merge_spec_invariant.
  - intros [|first rest] Hne Hinv; [contradiction|].
    apply Forall_cons in Hinv as [Hfirst _].
    eexists. apply merge_screenshot_data_refines, Hfirst.
Qed.

(** The parser on the line of the parser-robustness property. *)
Lemma ranking_invariant_established_witness :
  Ranking_invariant
    {| total_players := 1; results := [("Pl4yer0ne", 1)] |}.
Proof.
  apply (proj1 ranking_invariant_established "1ST TIME 00:12 Pl4yer0ne").
  vm_compute. reflexivity.
Defined.

(** C6.  The parser reports absence or returns a ranking with at least
    one entry, never an empty ranking; when neither the strict pass nor
    the aggressive pass accepts an entry the result is absence; and on
    absence [submit_marbles] leaves the board and the last game alone. *)
Theorem parse_marbles_screenshot_absent_or_nonempty :
  (forall text : string,
      parse_marbles_screenshot text = None
      \/ exists r : Ranking,
           parse_marbles_screenshot text = Some r
           /\ results r <> [] /\ 1 <= total_players r)
  /\ (forall text : string,
        let strict := strict_pass (clean_lines text) in
        ps_results strict = [] ->
        ps_results (aggressive_pass (ps_header_found strict) (clean_lines text))
        = [] ->
        parse_marbles_screenshot text = None)
  /\ (forall (text : string) (st : state),
        parse_marbles_screenshot text = None ->
        submit_marbles [text] st = (Ok tt, st)).
Proof.
  split; [|split].
  - intros text.
    destruct (parse_marbles_screenshot_results text) as (st & _ & ->).
    destruct (ps_results st) as [|entry entries]; [now left|].
    right. eexists. split; [reflexivity|]. cbn [results total_players].
    split; [discriminate|]. unfold py_len. cbn [length]. lia.
  - intros text strict Hstrict Haggressive. unfold parse_marbles_screenshot.
    fold strict. rewrite Hstrict.
    replace (py_len (@nil (string * Z)) <? 2) with true by reflexivity.
    now rewrite Haggressive.
  - intros text st Hnone. unfold submit_marbles.
    cbn [parse_screenshots]. rewrite Hnone.
    now destruct (String.eqb text "").
Qed.

(** A text of punctuation only: no line survives, both passes accept
    nothing, the parser reports absence and the caller changes nothing. *)
Lemma parse_marbles_screenshot_absent_or_nonempty_witness :
  parse_marbles_screenshot "?! .." = None
  /\ submit_marbles ["?! .."]
       {| bounty_board := {["alice" := 10]}; last_game_data := None |}
     = (Ok tt, {| bounty_board := {["alice" := 10]}; last_game_data := None |}).
Proof.
  pose proof parse_marbles_screenshot_absent_or_nonempty as (_ & Hboth & Hcaller).
  assert (parse_marbles_screenshot "?! .." = None) as Hnone.
  { apply Hboth; vm_compute; reflexivity. }
  split; [exact Hnone|]. apply Hcaller, Hnone.
Defined.

(** C8.  On the line "1ST TIME 00:12 Pl4yer0ne" the placement token
    "1ST" and the header word "TIME" are skipped and "Pl4yer0ne" (a
    letter, then letters, digits or underscores, at least three
    characters) is the player name; the strict loop accepts it at the
    next position whatever was accepted before, unless the name is
    already listed; and the parser on that line alone returns the one
    entry ("Pl4yer0ne", 1). *)
Theorem parse_line_with_placement_and_header :
  let line := "1ST TIME 00:12 Pl4yer0ne" in
  Py.split line = ["1ST"; "TIME"; "00:12"; "Pl4yer0ne"]
  /\ Py.upper_in "1ST" placement_indicators = true
  /\ Py.upper_in "TIME" placement_indicators = false
  /\ fuzzy_match_any "TIME" header_keywords = true
  /\ Py.match_username "Pl4yer0ne" = true
  /\ find_player_name (Py.split line) = Some "Pl4yer0ne"
  /\ (forall st : parse_state,
        listed "Pl4yer0ne" (ps_results st) = false ->
        strict_line st line
        = {| ps_results := ps_results st ++ [("Pl4yer0ne", ps_position st + 1)];
             ps_position := ps_position st + 1;
             ps_header_found := ps_header_found st |})
  /\ parse_marbles_screenshot line
     = Some {| total_players := 1; results := [("Pl4yer0ne", 1)] |}.
Proof.
  cbv zeta. repeat split; try (vm_compute; reflexivity).
  intros st Hfresh. unfold strict_line.
  replace (fuzzy_match_any "1ST TIME 00:12 Pl4yer0ne" ["place"; "player"])
    with false by (vm_compute; reflexivity).
  replace (fuzzy_match_any "1ST TIME 00:12 Pl4yer0ne" header_keywords
           && negb (Py.any Py.isdigit "1ST TIME 00:12 Pl4yer0ne"))
    with false by (vm_compute; reflexivity).
  replace (find_player_name (Py.split "1ST TIME 00:12 Pl4yer0ne"))
    with (Some "Pl4yer0ne") by (vm_compute; reflexivity).
  replace (negb (String.eqb "Pl4yer0ne" "") && (3 <=? Py.len "Pl4yer0ne"))
    with true by (vm_compute; reflexivity).
  rewrite Hfresh. reflexivity.
Qed.

(** The line after two accepted players: the name lands at position 3. *)
Lemma parse_line_with_placement_and_header_witness :
  strict_line
    {| ps_results := [("alice", 1); ("bob", 2)]; ps_position := 2;
       ps_header_found := true |}
    "1ST TIME 00:12 Pl4yer0ne"
  = {| ps_results := [("alice", 1); ("bob", 2); ("Pl4yer0ne", 3)];
       ps_position := 3; ps_header_found := true |}.
Proof.
  pose proof parse_line_with_placement_and_header as H. cbv zeta in H.
  destruct H as (_ & _ & _ & _ & _ & _ & Hline & _).
  rewrite Hline; [reflexivity|]. vm_compute. reflexivity.
Defined.

(** ** Binary64 arithmetic on small dyadic numbers *)

Lemma digits2_pos_size (p : positive) : digits2_pos p = Pos.size p.
Proof. induction p as [p IH|p IH|]; simpl; now rewrite ?IH. Qed.

Lemma Zdigits2_log2 (z : Z) : 0 < z -> Zdigits2 z = Z.log2 z + 1.
Proof.
  destruct z as [|p|p]; try lia. intros _. unfold Zdigits2.
  rewrite digits2_pos_size. destruct p as [p|p|]; simpl; lia.
Qed.

Lemma Zdigits2_shift (z n : Z) :
  0 < z -> 0 <= n -> Zdigits2 (z * 2 ^ n) = Zdigits2 z + n.
Proof.
  intros Hz Hn. rewrite !Zdigits2_log2 by nia.
  rewrite Z.log2_mul_pow2 by lia. lia.
Qed.

Lemma Zdigits2_le (z d : Z) : 0 < z -> z < 2 ^ d -> Zdigits2 z <= d.
Proof.
  intros Hz Hd. rewrite Zdigits2_log2 by assumption.
  apply Z.log2_lt_pow2 in Hd; lia.
Qed.

Lemma Zdigits2_positive (z : Z) : 0 < z -> 1 <= Zdigits2 z.
Proof.
  intros Hz. rewrite Zdigits2_log2 by assumption.
  pose proof (Z.log2_nonneg z). lia.
Qed.

Lemma iter_pos_iter {A : Type} (f : A -> A) (n : positive) (x : A) :
  SpecFloat.iter_pos f n x = Pos.iter f x n.
Proof.
  revert x. induction n as [n IH|n IH|]; intros x; simpl.
  - rewrite !IH. rewrite <- !Pos.iter_swap. reflexivity.
  - now rewrite !IH.
  - reflexivity.
Qed.

Lemma shr_1_even (z : Z) :
  0 < z ->
  shr_1 {| shr_m := 2 * z; shr_r := false; shr_s := false |}
  = {| shr_m := z; shr_r := false; shr_s := false |}.
Proof. destruct z; try lia. reflexivity. Qed.

Lemma iter_shr_1_exact (n : positive) (z : Z) :
  0 < z ->
  SpecFloat.iter_pos shr_1 n
    {| shr_m := z * 2 ^ Z.pos n; shr_r := false; shr_s := false |}
  = {| shr_m := z; shr_r := false; shr_s := false |}.
Proof.
  intros Hz. rewrite iter_pos_iter.
  induction n as [|n IH] using Pos.peano_ind.
  - simpl Pos.iter. replace (z * 2 ^ 1) with (2 * z) by lia.
    now apply shr_1_even.
  - rewrite Pos.iter_succ_r.
    replace (z * 2 ^ Z.pos (Pos.succ n)) with (2 * (z * 2 ^ Z.pos n)).
    + rewrite shr_1_even by nia. exact IH.
    + rewrite Pos2Z.inj_succ, Z.pow_succ_r by lia. lia.
Qed.

Lemma fexp_normal (e : Z) : -1021 <= e -> fexp prec emax e = e - 53.
Proof. unfold fexp, SpecFloat.emin, prec, emax. lia. Qed.

Lemma shr_exact (z n e : Z) :
  0 < z -> 0 <= n ->
  shr {| shr_m := z * 2 ^ n; shr_r := false; shr_s := false |} e n
  = ({| shr_m := z; shr_r := false; shr_s := false |}, e + n).
Proof.
  intros Hz Hn. destruct n as [|n|n]; try lia.
  - unfold shr. rewrite Z.pow_0_r, Z.mul_1_r, Z.add_0_r. reflexivity.
  - unfold shr. now rewrite iter_shr_1_exact.
Qed.

(** Rounding a mantissa of 53 digits followed by [n] zero bits drops
    the zero bits and nothing else. *)
Lemma binary_round_aux_exact (s : bool) (m n e : Z) :
  0 < m -> Zdigits2 m = 53 -> 0 <= n -> -1074 <= e + n <= 971 ->
  binary_round_aux prec emax s (m * 2 ^ n) e loc_Exact
  = S754_finite s (Z.to_pos m) (e + n).
Proof.
  intros Hm Hdigits Hn Hrange. unfold binary_round_aux, shr_fexp.
  rewrite Zdigits2_shift, Hdigits, fexp_normal by lia.
  cbn [shr_record_of_loc].
  replace (53 + n + e - 53 - e) with n by lia.
  rewrite shr_exact by assumption.
  cbn [shr_m loc_of_shr_record round_nearest_even shr_record_of_loc].
  rewrite Hdigits, fexp_normal by lia.
  replace (53 + (e + n) - 53 - (e + n)) with 0 by lia.
  cbn [shr shr_m]. destruct m as [|p|p]; try lia.
  replace (e + n <=? emax - prec) with true; [reflexivity|].
  symmetry. apply Z.leb_le. unfold emax, prec. lia.
Qed.

Lemma dyadic_round_aux (s : bool) (q t e : Z) :
  0 < q -> Zdigits2 q <= 53 -> 53 - Zdigits2 q <= t ->
  -1021 <= e + t + Zdigits2 q <= 1024 ->
  binary_round_aux prec emax s (q * 2 ^ t) e loc_Exact = dyadic s q (e + t).
Proof.
  intros Hq Hdigits Ht Hrange. unfold dyadic.
  set (shift := prec - Zdigits2 q). assert (shift = 53 - Zdigits2 q) by reflexivity.
  pose proof (Zdigits2_positive q Hq) as Hd1.
  assert (0 < q * 2 ^ shift) as Hm
    by (apply Z.mul_pos_pos; [assumption | apply Z.pow_pos_nonneg; lia]).
  assert (Zdigits2 (q * 2 ^ shift) = 53) as Hd
    by (rewrite Zdigits2_shift; lia).
  replace (q * 2 ^ t) with (q * 2 ^ shift * 2 ^ (t - shift)).
  - rewrite (binary_round_aux_exact s _ _ _ Hm Hd) by lia. f_equal. lia.
  - rewrite <- Z.mul_assoc, <- Z.pow_add_r by lia. f_equal. f_equal. lia.
Qed.

Lemma iter_xO_pow (mx d : positive) :
  Z.pos (Pos.iter xO mx d) = Z.pos mx * 2 ^ Z.pos d.
Proof.
  induction d as [|d IH] using Pos.peano_ind.
  - cbn [Pos.iter]. rewrite Pos2Z.inj_xO. lia.
  - rewrite Pos.iter_succ, Pos2Z.inj_succ, Z.pow_succ_r by lia.
    rewrite Pos2Z.inj_xO, IH. lia.
Qed.

Lemma shl_align_spec (mx : positive) (ex ex' : Z) :
  snd (shl_align mx ex ex') = Z.min ex ex'
  /\ Z.pos (fst (shl_align mx ex ex'))
     = Z.pos mx * 2 ^ (ex - Z.min ex ex').
Proof.
  unfold shl_align. destruct (ex' - ex) as [|d|d] eqn:Hd; cbn [fst snd].
  - split; [lia|]. replace (ex - Z.min ex ex') with 0 by lia. lia.
  - split; [lia|]. replace (ex - Z.min ex ex') with 0 by lia. lia.
  - split; [lia|]. rewrite iter_xO_pow. f_equal. f_equal. lia.
Qed.

Lemma dyadic_round (s : bool) (q t e : Z) :
  0 < q -> Zdigits2 q <= 53 -> 0 <= t ->
  -1021 <= e + t + Zdigits2 q <= 1024 ->
  binary_round prec emax s (Z.to_pos (q * 2 ^ t)) e = dyadic s q (e + t).
Proof.
  intros Hq Hdigits Ht Hrange. unfold binary_round.
  assert (0 < q * 2 ^ t) as Hpos
    by (apply Z.mul_pos_pos; [assumption | apply Z.pow_pos_nonneg; lia]).
  set (mx := Z.to_pos (q * 2 ^ t)).
  assert (Z.pos mx = q * 2 ^ t) as Hmx by (unfold mx; lia).
  replace (Z.pos (digits2_pos mx)) with (Zdigits2 (Z.pos mx)) by reflexivity.
  rewrite Hmx, Zdigits2_shift, fexp_normal by lia.
  pose proof (shl_align_spec mx e (Zdigits2 q + t + e - 53)) as [He' Hm'].
  destruct (shl_align mx e (Zdigits2 q + t + e - 53)) as [mz ez].
  cbn [fst snd] in He', Hm'. rewrite Hm', Hmx.
  rewrite <- Z.mul_assoc, <- Z.pow_add_r by lia.
  rewrite dyadic_round_aux by lia. f_equal. lia.
Qed.

(** [binary_normalize] is exact on [h * 2^t] when [h] has at most 53
    digits. *)
Lemma dyadic_normalize (h t e : Z) :
  h <> 0 -> Z.abs h < 2 ^ 53 -> 0 <= t ->
  -1021 <= e + t /\ e + t + 53 <= 1024 ->
  binary_normalize prec emax (h * 2 ^ t) e false
  = dyadic (h <? 0) (Z.abs h) (e + t).
Proof.
  intros Hh Hbound Ht Hrange.
  assert (0 < 2 ^ t) as Hpow by (apply Z.pow_pos_nonneg; lia).
  pose proof (Zdigits2_le (Z.abs h) 53 ltac:(lia) Hbound) as Hd.
  pose proof (Zdigits2_positive (Z.abs h) ltac:(lia)) as Hd'.
  unfold binary_normalize.
  destruct (h * 2 ^ t) as [|m|m] eqn:Hm; try nia.
  - replace (h <? 0) with false by (symmetry; apply Z.ltb_ge; nia).
    rewrite <- (dyadic_round false (Z.abs h) t e) by lia.
    f_equal. replace (Z.abs h) with h by nia. rewrite Hm. reflexivity.
  - replace (h <? 0) with true by (symmetry; apply Z.ltb_lt; nia).
    rewrite <- (dyadic_round true (Z.abs h) t e) by lia.
    f_equal. replace (Z.abs h * 2 ^ t) with (- (h * 2 ^ t)) by nia.
    rewrite Hm. reflexivity.
Qed.

Lemma Zdigits2_mono (a b : Z) : 0 < a -> a <= b -> Zdigits2 a <= Zdigits2 b.
Proof.
  intros Ha Hab. rewrite !Zdigits2_log2 by lia.
  pose proof (Z.log2_le_mono a b Hab). lia.
Qed.

Lemma dyadic_mantissa (q : Z) :
  0 < q -> Zdigits2 q <= 53 ->
  Z.pos (Z.to_pos (q * 2 ^ (prec - Zdigits2 q))) = q * 2 ^ (53 - Zdigits2 q).
Proof.
  intros Hq Hd. unfold prec.
  assert (0 < q * 2 ^ (53 - Zdigits2 q))
    by (apply Z.mul_pos_pos; [assumption | apply Z.pow_pos_nonneg; lia]).
  lia.
Qed.

Lemma float_of_int_exact (z : Z) :
  0 < z < 2 ^ 53 -> float_of_int z = Ok (dyadic false z 0).
Proof.
  intros Hz. unfold float_of_int.
  replace z with (z * 2 ^ 0) at 1 by (rewrite Z.pow_0_r; lia).
  rewrite dyadic_normalize by lia.
  replace (z <? 0) with false by (symmetry; apply Z.ltb_ge; lia).
  replace (Z.abs z) with z by lia. reflexivity.
Qed.

Lemma int_truediv_2_exact (n : Z) :
  0 < n < 2 ^ 53 -> int_truediv n 2 = Ok (dyadic false n (-1)).
Proof.
  intros Hn. pose proof (Zdigits2_le n 53 ltac:(lia) ltac:(lia)) as Hd.
  pose proof (Zdigits2_positive n ltac:(lia)) as Hd1.
  unfold int_truediv. destruct n as [|p|p] eqn:Hp; try lia.
  rewrite <- Hp in *. cbn [xorb]. replace (n <? 0) with false by lia.
  replace (2 <? 0) with false by reflexivity. cbn [xorb].
  unfold SFdiv_core_binary. replace (Z.abs n) with n by lia.
  replace (Zdigits2 (Z.abs 2)) with 2 by reflexivity.
  rewrite fexp_normal by lia.
  replace (Z.min (Zdigits2 n + 0 - (2 + 0) - 53) (0 - 0))
    with (Zdigits2 n - 55) by lia.
  replace (0 - 0 - (Zdigits2 n - 55)) with (55 - Zdigits2 n) by lia.
  destruct (55 - Zdigits2 n) as [|s|s] eqn:Hs; try lia.
  rewrite Z.shiftl_mul_pow2 by lia. rewrite <- Hs.
  assert (n * 2 ^ (55 - Zdigits2 n) = n * 2 ^ (54 - Zdigits2 n) * 2) as Hshift.
  { replace (55 - Zdigits2 n) with (Z.succ (54 - Zdigits2 n)) by lia.
    rewrite Z.pow_succ_r by lia. lia. }
  assert (Z.div_eucl (n * 2 ^ (55 - Zdigits2 n)) (Z.abs 2)
          = (n * 2 ^ (54 - Zdigits2 n), 0)) as ->.
  { pose proof (Z.div_eucl_eq (n * 2 ^ (55 - Zdigits2 n)) 2 ltac:(lia)) as Heq.
    pose proof (Z.mod_pos_bound (n * 2 ^ (55 - Zdigits2 n)) 2 ltac:(lia)) as Hmod.
    unfold Z.modulo in Hmod. replace (Z.abs 2) with 2 by reflexivity.
    destruct (Z.div_eucl (n * 2 ^ (55 - Zdigits2 n)) 2) as [q r].
    f_equal; lia. }
  replace (new_location (Z.abs 2) 0) with loc_Exact by reflexivity.
  rewrite dyadic_round_aux by lia.
  replace (Zdigits2 n - 55 + (54 - Zdigits2 n)) with (-1) by lia.
  reflexivity.
Qed.

Lemma float_sub_exact (a n : Z) :
  0 < a < 2 ^ 53 -> 0 < n < 2 ^ 53 -> Z.abs (2 * a - n) < 2 ^ 53 ->
  float_sub (dyadic false a 0) (dyadic false n (-1))
  = if 2 * a - n =? 0 then S754_zero false
    else dyadic (2 * a - n <? 0) (Z.abs (2 * a - n)) (-1).
Proof.
  intros Ha Hn Hh.
  pose proof (Zdigits2_le a 53 ltac:(lia) ltac:(lia)) as Hda.
  pose proof (Zdigits2_positive a ltac:(lia)) as Hda1.
  pose proof (Zdigits2_le n 53 ltac:(lia) ltac:(lia)) as Hdn.
  pose proof (Zdigits2_positive n ltac:(lia)) as Hdn1.
  unfold float_sub, dyadic at 1 2, SFsub. cbn [cond_Zopp].
  set (ea := 0 - (prec - Zdigits2 a)). set (en := -1 - (prec - Zdigits2 n)).
  assert (ea = Zdigits2 a - 53) as Hea by (unfold ea, prec; lia).
  assert (en = Zdigits2 n - 54) as Hen by (unfold en, prec; lia).
  set (ez := Z.min ea en).
  destruct (shl_align_spec (Z.to_pos (a * 2 ^ (prec - Zdigits2 a))) ea ez)
    as [_ ->].
  destruct (shl_align_spec (Z.to_pos (n * 2 ^ (prec - Zdigits2 n))) en ez)
    as [_ ->].
  rewrite !dyadic_mantissa by lia.
  replace (Z.min ea ez) with ez by lia. replace (Z.min en ez) with ez by lia.
  assert (a * 2 ^ (53 - Zdigits2 a) * 2 ^ (ea - ez)
          - n * 2 ^ (53 - Zdigits2 n) * 2 ^ (en - ez)
          = (2 * a - n) * 2 ^ (-1 - ez)) as ->.
  { rewrite <- !Z.mul_assoc, <- !Z.pow_add_r by lia.
    replace (53 - Zdigits2 a + (ea - ez)) with (Z.succ (-1 - ez)) by lia.
    replace (53 - Zdigits2 n + (en - ez)) with (-1 - ez) by lia.
    rewrite Z.pow_succ_r by lia. lia. }
  destruct (2 * a - n =? 0) eqn:Hzero.
  - apply Z.eqb_eq in Hzero. rewrite Hzero. reflexivity.
  - apply Z.eqb_neq in Hzero. rewrite dyadic_normalize by lia.
    f_equal. lia.
Qed.

Lemma float_mul_20_exact (s : bool) (q : Z) :
  0 < q -> 5 * q < 2 ^ 53 ->
  float_mul (dyadic s q (-1)) (dyadic false 20 0) = dyadic s (5 * q) 1.
Proof.
  intros Hq Hbound.
  pose proof (Zdigits2_le q 53 ltac:(lia) ltac:(lia)) as Hd.
  pose proof (Zdigits2_positive q ltac:(lia)) as Hd1.
  pose proof (Zdigits2_le (5 * q) 53 ltac:(lia) ltac:(lia)) as Hd5.
  pose proof (Zdigits2_mono q (5 * q) ltac:(lia) ltac:(lia)) as Hmono.
  replace (dyadic false 20 0)
    with (S754_finite false (Z.to_pos (5 * 2 ^ 50)) (-48)) by reflexivity.
  unfold float_mul, dyadic at 1, SFmul.
  rewrite Pos2Z.inj_mul, dyadic_mantissa by lia.
  replace (Z.pos (Z.to_pos (5 * 2 ^ 50))) with (5 * 2 ^ 50) by reflexivity.
  replace (q * 2 ^ (53 - Zdigits2 q) * (5 * 2 ^ 50))
    with (5 * q * 2 ^ (103 - Zdigits2 q)).
  - rewrite dyadic_round_aux by (unfold prec; lia).
    rewrite xorb_false_r. f_equal. unfold prec. lia.
  - replace (103 - Zdigits2 q) with (53 - Zdigits2 q + 50) by lia.
    rewrite Z.pow_add_r by lia. lia.
Qed.

Lemma int_of_float_dyadic (s : bool) (q exponent : Z) :
  0 < q -> Zdigits2 q <= 53 -> 0 <= exponent ->
  int_of_float (dyadic s q exponent) = Ok (cond_Zopp s (q * 2 ^ exponent)).
Proof.
  intros Hq Hd He. pose proof (Zdigits2_positive q Hq) as Hd1.
  unfold int_of_float, dyadic. rewrite dyadic_mantissa by assumption.
  f_equal. f_equal. unfold prec.
  destruct (Z.le_gt_cases 0 (exponent - (53 - Zdigits2 q))) as [Hle|Hgt].
  - rewrite Z.shiftl_mul_pow2 by assumption.
    rewrite <- Z.mul_assoc, <- Z.pow_add_r by lia. f_equal. f_equal. lia.
  - rewrite Z.shiftl_div_pow2 by lia.
    replace (53 - Zdigits2 q)
      with (exponent + - (exponent - (53 - Zdigits2 q))) at 1 by lia.
    rewrite Z.pow_add_r, Z.mul_assoc by lia.
    apply Z.div_mul. apply Z.pow_nonzero; lia.
Qed.

(** In binary64 the bounty is the closed form, as long as five times
    the distance from the middle fits in 53 bits. *)
Lemma calculate_bounty_exact (position total_players : Z) (is_winner : bool) :
  1 <= position <= total_players -> 5 * total_players < 2 ^ 53 ->
  calculate_bounty position total_players is_winner
  = Ok (bounty_formula position total_players is_winner).
Proof.
  intros Hp Hn. unfold calculate_bounty, bounty_formula.
  set (a := total_players - position + 1).
  rewrite int_truediv_2_exact by lia. cbn [result_bind].
  rewrite float_of_int_exact by lia. cbn [result_bind].
  unfold PLACEMENT_FACTOR. rewrite (float_of_int_exact 20) by lia.
  cbn [result_bind]. rewrite float_sub_exact by lia.
  destruct (2 * a - total_players =? 0) eqn:Hzero.
  - apply Z.eqb_eq in Hzero. cbn. f_equal. unfold WIN_BONUS. lia.
  - apply Z.eqb_neq in Hzero. rewrite float_mul_20_exact by lia.
    pose proof (Zdigits2_le (5 * Z.abs (2 * a - total_players)) 53
                  ltac:(lia) ltac:(lia)) as Hd.
    rewrite int_of_float_dyadic by lia. cbn [result_bind]. f_equal.
    unfold WIN_BONUS.
    destruct (2 * a - total_players <? 0) eqn:Hsign; cbn [cond_Zopp].
    + apply Z.ltb_lt in Hsign. lia.
    + apply Z.ltb_ge in Hsign. lia.
Qed.

(** ** The ledger *)

Section Loops.

(** Both loops run with one value of the local [total_players]. *)
Variable total_players : Z.

Lemma add_bounty_run (entry : string * Z) (st : state) :
  add_bounty total_players entry st
  = match entry_bounty total_players entry with
    | Ok bounty =>
        (Ok tt,
         {| bounty_board :=
              <[fst entry := default 0 (bounty_board st !! fst entry) + bounty]>
                (bounty_board st);
            last_game_data := last_game_data st |})
    | Raise e => (Raise e, st)
    end.
Proof.
  destruct entry as [name position]. unfold add_bounty, entry_bounty, bind, lift.
  cbn [fst snd].
  destruct (calculate_bounty position total_players (position =? 1))
    as [bounty|e]; [|reflexivity].
  unfold get_board. destruct (bounty_board st !! name); reflexivity.
Qed.

Lemma revert_bounty_run (entry : string * Z) (st : state) :
  revert_bounty total_players entry st
  = match entry_bounty total_players entry with
    | Ok bounty =>
        (Ok tt,
         match bounty_board st !! fst entry with
         | Some total =>
             {| bounty_board :=
                  if total - bounty =? 0 then delete (fst entry) (bounty_board st)
                  else <[fst entry := total - bounty]> (bounty_board st);
                last_game_data := last_game_data st |}
         | None => st
         end)
    | Raise e => (Raise e, st)
    end.
Proof.
  destruct entry as [name position].
  unfold revert_bounty, entry_bounty, bind, lift. cbn [fst snd].
  destruct (calculate_bounty position total_players (position =? 1))
    as [bounty|e]; [|reflexivity].
  unfold get_board. destruct (bounty_board st !! name) as [total|]; [|reflexivity].
  cbv zeta. destruct (total - bounty =? 0); reflexivity.
Qed.

Lemma add_bounty_lookup (entry : string * Z)
    (st st1 : state) :
  add_bounty total_players entry st = (Ok tt, st1) ->
  last_game_data st1 = last_game_data st
  /\ exists bounty,
       entry_bounty total_players entry = Ok bounty
       /\ forall name,
            bounty_board st1 !! name
            = if decide (name = fst entry)
              then credited bounty (bounty_board st !! name)
              else bounty_board st !! name.
Proof.
  rewrite add_bounty_run.
  destruct (entry_bounty total_players entry) as [bounty|e]; [|discriminate].
  intros [= <-]. split; [reflexivity|]. exists bounty. split; [reflexivity|].
  intros name. cbn [bounty_board]. case_decide as Hname.
  - subst name. now rewrite lookup_insert_eq.
  - now rewrite lookup_insert_ne.
Qed.

Lemma revert_bounty_lookup (entry : string * Z)
    (st : state) (bounty : Z) :
  entry_bounty total_players entry = Ok bounty ->
  exists st1,
    revert_bounty total_players entry st = (Ok tt, st1)
    /\ last_game_data st1 = last_game_data st
    /\ forall name,
         bounty_board st1 !! name
         = if decide (name = fst entry)
           then debited bounty (bounty_board st !! name)
           else bounty_board st !! name.
Proof.
  intros Hbounty. rewrite revert_bounty_run, Hbounty.
  eexists. split; [reflexivity|].
  destruct (bounty_board st !! fst entry) as [total|] eqn:Htotal.
  - split; [reflexivity|]. intros name. cbn [bounty_board].
    case_decide as Hname.
    + subst name. rewrite Htotal. cbn [debited].
      destruct (total - bounty =? 0).
      * now rewrite lookup_delete_eq.
      * now rewrite lookup_insert_eq.
    + destruct (total - bounty =? 0).
      * now rewrite lookup_delete_ne.
      * now rewrite lookup_insert_ne.
  - split; [reflexivity|]. intros name. case_decide as Hname; [|reflexivity].
    subst name. now rewrite Htotal.
Qed.

Lemma for_each_cons {A : Type} (body : A -> M unit) (x : A) (l : list A)
    (st : state) :
  for_each body (x :: l) st
  = match body x st with
    | (Ok _, st') => for_each body l st'
    | (Raise e, st') => (Raise e, st')
    end.
Proof. reflexivity. Qed.

(** The loop of [update_bounty_board], when it completes. *)
Lemma add_loop_lookup (entries : list (string * Z)) :
  forall st st1 : state,
    for_each (add_bounty total_players) entries st = (Ok tt, st1) ->
    NoDup (names entries) ->
    last_game_data st1 = last_game_data st
    /\ bounties_defined total_players entries
    /\ (forall name, name ∉ names entries ->
          bounty_board st1 !! name = bounty_board st !! name)
    /\ (forall entry bounty,
          entry ∈ entries -> entry_bounty total_players entry = Ok bounty ->
          bounty_board st1 !! fst entry
          = credited bounty (bounty_board st !! fst entry)).
Proof.
  induction entries as [|entry entries IH]; intros st st1 Hrun Hnodup.
  - injection Hrun as <-. split; [reflexivity|]. split; [|split].
    + intros entry Hin. inversion Hin.
    + reflexivity.
    + intros entry bounty Hin. inversion Hin.
  - rewrite for_each_cons in Hrun.
    destruct (add_bounty total_players entry st) as [[[]|e] st'] eqn:Hstep;
      [|discriminate].
    apply add_bounty_lookup in Hstep as (Hlast & bounty & Hbounty & Hboard).
    cbn [names List.map] in Hnodup. apply NoDup_cons in Hnodup as [Hfresh Hnodup].
    destruct (IH st' st1 Hrun Hnodup) as (Hlast' & Hdefined & Hother & Hentry).
    split; [congruence|]. split; [|split].
    + intros entry' Hin. apply elem_of_cons in Hin as [->|Hin];
        [now exists bounty | now apply Hdefined].
    + intros name Hname. cbn [names List.map] in Hname.
      apply not_elem_of_cons in Hname as [Hne Hname].
      rewrite Hother by assumption. rewrite Hboard. now rewrite decide_False.
    + intros entry' bounty' Hin Hbounty'.
      apply elem_of_cons in Hin as [->|Hin].
      * rewrite Hother by assumption. rewrite Hboard, decide_True by reflexivity.
        congruence.
      * rewrite (Hentry entry' bounty' Hin Hbounty'), Hboard.
        rewrite decide_False; [reflexivity|].
        intros Heq. apply Hfresh. rewrite <- Heq.
        unfold names. apply list_elem_of_fmap. now exists entry'.
Qed.

Lemma add_loop_completes (entries : list (string * Z)) :
  forall st : state,
    bounties_defined total_players entries ->
    exists st1, for_each (add_bounty total_players) entries st = (Ok tt, st1).
Proof.
  induction entries as [|entry entries IH]; intros st Hdefined.
  - now exists st.
  - rewrite for_each_cons, add_bounty_run.
    destruct (Hdefined entry) as [bounty ->]; [left|].
    apply IH. intros entry' Hin. apply Hdefined. now right.
Qed.

(** The revert loop of [done_editing], when all bounties can be computed. *)
Lemma revert_loop_lookup (entries : list (string * Z)) :
  forall st : state,
    bounties_defined total_players entries ->
    NoDup (names entries) ->
    exists st1,
      for_each (revert_bounty total_players) entries st = (Ok tt, st1)
      /\ last_game_data st1 = last_game_data st
      /\ (forall name, name ∉ names entries ->
            bounty_board st1 !! name = bounty_board st !! name)
      /\ (forall entry bounty,
            entry ∈ entries -> entry_bounty total_players entry = Ok bounty ->
            bounty_board st1 !! fst entry
            = debited bounty (bounty_board st !! fst entry)).
Proof.
  induction entries as [|entry entries IH]; intros st Hdefined Hnodup.
  - exists st. split; [reflexivity|]. split; [reflexivity|]. split.
    + reflexivity.
    + intros entry bounty Hin. inversion Hin.
  - destruct (Hdefined entry) as [bounty Hbounty]; [left|].
    destruct (revert_bounty_lookup entry st bounty Hbounty)
      as (st' & Hstep & Hlast & Hboard).
    cbn [names List.map] in Hnodup. apply NoDup_cons in Hnodup as [Hfresh Hnodup].
    destruct (IH st') as (st1 & Hrun & Hlast' & Hother & Hentry);
      [intros entry' Hin; apply Hdefined; now right | assumption |].
    exists st1. rewrite for_each_cons, Hstep. split; [assumption|].
    split; [congruence|]. split.
    + intros name Hname. cbn [names List.map] in Hname.
      apply not_elem_of_cons in Hname as [Hne Hname].
      rewrite Hother by assumption. rewrite Hboard. now rewrite decide_False.
    + intros entry' bounty' Hin Hbounty'.
      apply elem_of_cons in Hin as [->|Hin].
      * rewrite Hother by assumption. rewrite Hboard, decide_True by reflexivity.
        congruence.
      * rewrite (Hentry entry' bounty' Hin Hbounty'), Hboard.
        rewrite decide_False; [reflexivity|].
        intros Heq. apply Hfresh. rewrite <- Heq.
        unfold names. apply list_elem_of_fmap. now exists entry'.
Qed.

Lemma revert_bounty_creates_nothing (entry : string * Z)
    (st : state) (name : string) :
  bounty_board st !! name = None ->
  bounty_board (snd (revert_bounty total_players entry st)) !! name = None.
Proof.
  intros Habsent. rewrite revert_bounty_run.
  destruct (entry_bounty total_players entry) as [bounty|e]; [|exact Habsent].
  cbn [snd]. destruct (bounty_board st !! fst entry) as [total|] eqn:Htotal;
    [|exact Habsent].
  assert (fst entry <> name) as Hne by congruence.
  cbn [bounty_board]. destruct (total - bounty =? 0).
  - now rewrite lookup_delete_ne.
  - now rewrite lookup_insert_ne.
Qed.

Lemma revert_loop_creates_nothing
    (entries : list (string * Z)) (name : string) :
  forall st : state,
    bounty_board st !! name = None ->
    bounty_board (snd (for_each (revert_bounty total_players) entries st))
      !! name = None.
Proof.
  induction entries as [|entry entries IH]; intros st Habsent; [exact Habsent|].
  rewrite for_each_cons.
  pose proof (revert_bounty_creates_nothing entry st name Habsent)
    as Hstep.
  destruct (revert_bounty total_players entry st) as [[[]|e] st'];
    cbn [snd] in Hstep; [now apply IH | exact Hstep].
Qed.

End Loops.

Lemma names_NoDup (entries : list (string * Z)) :
  NoDup (folded_names entries) -> NoDup (names entries).
Proof.
  unfold folded_names, names. intros H.
  apply (NoDup_fmap_1 Py.lower).
  replace (Py.lower <$> (List.map fst entries))
    with (List.map (fun p : string * Z => Py.lower (fst p)) entries);
    [assumption|].
  now rewrite <- list_fmap_compose.
Qed.

Lemma contiguous_positions (entries : list (string * Z)) (entry : string * Z) :
  contiguous_from 0 entries -> entry ∈ entries ->
  1 <= snd entry <= py_len entries.
Proof.
  intros Hpos Hin. apply list_elem_of_lookup in Hin as [i Hi].
  rewrite (Hpos i entry Hi). apply lookup_lt_Some in Hi. unfold py_len. lia.
Qed.

(** While five times the number of players is below 2^53 every bounty
    of a ranking is computed, and is the closed form. *)
Lemma ranking_bounties (r : Ranking) (entry : string * Z) :
  Ranking_invariant r -> 5 * total_players r < 2 ^ 53 -> entry ∈ results r ->
  entry_bounty (total_players r) entry
  = Ok (bounty_formula (snd entry) (total_players r) (snd entry =? 1)).
Proof.
  intros Hinv Hsize Hin. unfold entry_bounty.
  apply calculate_bounty_exact; [|assumption].
  rewrite (inv_total r Hinv).
  apply contiguous_positions; [apply Hinv | assumption].
Qed.

Lemma ranking_bounties_defined (r : Ranking) :
  Ranking_invariant r -> 5 * total_players r < 2 ^ 53 ->
  bounties_defined (total_players r) (results r).
Proof.
  intros Hinv Hsize entry Hin. eexists.
  now apply ranking_bounties.
Qed.

Lemma update_bounty_board_run (r : Ranking) (st : state) :
  update_bounty_board r st
  = for_each (add_bounty (total_players r)) (results r)
      {| bounty_board := bounty_board st; last_game_data := Some r |}.
Proof.
  unfold update_bounty_board, bind, set_last_game_data, save_bounty_board, ret.
  destruct (for_each _ _ _) as [[[]|e] st']; reflexivity.
Qed.

Lemma credited_debited (bounty : Z) (total : option Z) :
  debited bounty (credited bounty total) = restored total.
Proof.
  unfold debited, credited, restored.
  replace (default 0 total + bounty - bounty) with (default 0 total) by lia.
  destruct total as [total|]; reflexivity.
Qed.

(** C2.  Let a ranking satisfy the invariant, on any prior board.
    Whenever applying it completes, reverting it at once completes too,
    and every player it names is back at the prior total, except that a
    total of exactly zero (a player absent before included) leaves no
    entry on the board; all other players are untouched.  Applying it
    does complete while five times the number of players is below
    2^53. *)
Theorem apply_then_revert_restores (r : Ranking) (st : state) :
  Ranking_invariant r ->
  (forall st1 : state,
      update_bounty_board r st = (Ok tt, st1) ->
      exists st2 : state,
        revert_bounties r st1 = (Ok tt, st2)
        /\ forall name : string,
             bounty_board st2 !! name
             = if decide (name ∈ names (results r))
               then restored (bounty_board st !! name)
               else bounty_board st !! name)
  /\ (5 * total_players r < 2 ^ 53 ->
      exists st1 : state, update_bounty_board r st = (Ok tt, st1)).
Proof.
  intros Hinv. pose proof (names_NoDup _ (inv_names r Hinv)) as Hnodup. split.
  - intros st1 Happly. rewrite update_bounty_board_run in Happly.
    destruct (add_loop_lookup _ _ _ _ Happly Hnodup)
      as (_ & Hdefined & Hother & Hentry).
    destruct (revert_loop_lookup (total_players r) (results r) st1 Hdefined Hnodup)
      as (st2 & Hrevert & _ & Hother' & Hentry').
    exists st2. split; [exact Hrevert|]. intros name.
    case_decide as Hname.
    + unfold names in Hname. apply list_elem_of_fmap in Hname as [entry [-> Hin]].
      destruct (Hdefined entry Hin) as [bounty Hbounty].
      rewrite (Hentry' entry bounty Hin Hbounty), (Hentry entry bounty Hin Hbounty).
      apply credited_debited.
    + now rewrite Hother', Hother.
  - intros Hsize. rewrite update_bounty_board_run.
    now apply add_loop_completes, ranking_bounties_defined.
Qed.

(** Alice and bob on a board where alice has 30 and carol has 7: after
    apply and revert alice has 30 again, bob (absent before) has no
    entry, and carol still has 7. *)
Lemma apply_then_revert_restores_witness :
  let r := {| total_players := 2; results := [("alice", 1); ("bob", 2)] |} in
  let st := {| bounty_board := {["alice" := 30; "carol" := 7]};
               last_game_data := None |} in
  exists st1 st2 : state,
    update_bounty_board r st = (Ok tt, st1)
    /\ revert_bounties r st1 = (Ok tt, st2)
    /\ bounty_board st2 !! "alice" = Some 30
    /\ bounty_board st2 !! "bob" = None
    /\ bounty_board st2 !! "carol" = Some 7.
Proof.
  intros r st.
  assert (Ranking_invariant r) as Hinv.
  { constructor; [reflexivity | |].
    - intros i entry. destruct i as [|[|i]]; cbn; intros [= <-]; reflexivity.
    - by_decision. }
  destruct (apply_then_revert_restores r st Hinv) as [Hrestores Hcompletes].
  destruct Hcompletes as [st1 Happly]; [cbn; lia|].
  destruct (Hrestores st1 Happly) as (st2 & Hrevert & Hboard).
  exists st1, st2. split; [exact Happly|]. split; [exact Hrevert|].
  rewrite !Hboard. repeat split; vm_compute; reflexivity.
Defined.

(** C10.  In the revert loop an entry whose name is not a key of the
    board, by exact comparison, changes nothing: the globals are as
    before, whatever else happens.  Over a whole revert a name that is
    not a key never becomes one, so no entry is created and no negative
    total appears for it.  An entry whose name is a key has its bounty
    subtracted (the entry is deleted at zero).  "bob" is not the key
    "Bob": reverting a ranking that names "bob" leaves the board with
    "Bob" alone. *)
Theorem revert_skips_absent_names :
  (forall (total_players position : Z) (name : string) (st : state),
      bounty_board st !! name = None ->
      snd (revert_bounty total_players (name, position) st) = st)
  /\ (forall (r : Ranking) (name : string) (st : state),
        bounty_board st !! name = None ->
        bounty_board (snd (revert_bounties r st)) !! name = None)
  /\ (forall (total_players position : Z) (name : string) (st : state)
             (total bounty : Z),
        bounty_board st !! name = Some total ->
        calculate_bounty position total_players (position =? 1) = Ok bounty ->
        revert_bounty total_players (name, position) st
        = (Ok tt,
           {| bounty_board :=
                if total - bounty =? 0 then delete name (bounty_board st)
                else <[name := total - bounty]> (bounty_board st);
              last_game_data := last_game_data st |}))
  /\ (let st := {| bounty_board := {["Bob" := 5]}; last_game_data := None |} in
      revert_bounties {| total_players := 1; results := [("bob", 1)] |} st
      = (Ok tt, st)).
Proof.
  split; [|split; [|split]].
  - intros total_players position name st Habsent. rewrite revert_bounty_run.
    cbn [fst]. rewrite Habsent.
    now destruct (entry_bounty total_players (name, position)).
  - intros r name st Habsent. now apply revert_loop_creates_nothing.
  - intros total_players position name st total bounty Htotal Hbounty.
    rewrite revert_bounty_run. unfold entry_bounty. cbn [fst snd].
    now rewrite Hbounty, Htotal.
  - vm_compute. reflexivity.
Qed.

(** A board with the key "Bob" only, and the entry ("bob", 1) of a game
    of three players: nothing changes. *)
Lemma revert_skips_absent_names_witness :
  let st := {| bounty_board := {["Bob" := 5]}; last_game_data := None |} in
  snd (revert_bounty 3 ("bob", 1) st) = st
  /\ bounty_board (snd (revert_bounties
                          {| total_players := 3;
                             results := [("bob", 1); ("Bob", 2); ("eve", 3)] |}
                          st)) !! "bob" = None.
Proof.
  intros st. pose proof revert_skips_absent_names as (Hskip & Hcreate & _).
  split; [apply Hskip | apply Hcreate]; vm_compute; reflexivity.
Defined.

(** ** The correction workflow *)

Lemma in_list_spec (x : string) (l : list string) :
  Py.in_list x l = true <-> x ∈ l.
Proof.
  unfold Py.in_list. rewrite existsb_exists, list_elem_of_In. split.
  - intros [y [Hin Heq]]. apply String.eqb_eq in Heq. now subst y.
  - intros Hin. exists x. split; [assumption | apply String.eqb_refl].
Qed.

Lemma contiguous_from_cons (start : Z) (x : string * Z)
    (l : list (string * Z)) :
  snd x = start + 1 -> contiguous_from (start + 1) l ->
  contiguous_from start (x :: l).
Proof.
  intros Hx Hl i entry. destruct i as [|i]; cbn.
  - intros [= <-]. lia.
  - intros Hi. rewrite (Hl i entry Hi). lia.
Qed.

Lemma renumber_spec (filtered : list (string * Z)) :
  forall idx : Z,
    names (renumber idx filtered) = names filtered
    /\ contiguous_from idx (renumber idx filtered)
    /\ py_len (renumber idx filtered) = py_len filtered.
Proof.
  induction filtered as [|[name position] filtered IH]; intros idx.
  - split; [reflexivity|]. split; [apply contiguous_from_nil | reflexivity].
  - destruct (IH (idx + 1)) as (Hnames & Hpos & Hlen).
    cbn [renumber names List.map fst]. fold (names (renumber (idx + 1) filtered)).
    fold (names filtered). split; [now rewrite Hnames|]. split.
    + now apply contiguous_from_cons.
    + unfold py_len in *. cbn [length]. lia.
Qed.

Lemma names_filter (removed_players : list string)
    (entries : list (string * Z)) :
  names (List.filter (fun p => negb (Py.in_list (fst p) removed_players))
           entries)
  = filter (fun name => name ∉ removed_players) (names entries).
Proof.
  induction entries as [|[name position] entries IH]; [reflexivity|].
  cbn [List.filter names List.map fst]. fold (names entries).
  rewrite filter_cons. destruct (Py.in_list name removed_players) eqn:Hin.
  - apply in_list_spec in Hin. rewrite decide_False by auto. exact IH.
  - rewrite decide_True.
    + cbn [negb names List.map fst]. f_equal. exact IH.
    + intros Hin'. apply in_list_spec in Hin'. congruence.
Qed.

Lemma contiguous_bounties_defined (entries : list (string * Z)) :
  contiguous_from 0 entries -> 5 * py_len entries < 2 ^ 53 ->
  bounties_defined (py_len entries) entries.
Proof.
  intros Hpos Hsize entry Hin. eexists. unfold entry_bounty.
  apply calculate_bounty_exact; [|assumption].
  now apply contiguous_positions.
Qed.

Lemma corrected_game_data_spec (r : Ranking) (removed_players : list string) :
  let r' := corrected_game_data r removed_players in
  names (results r')
  = filter (fun name => name ∉ removed_players) (names (results r))
  /\ contiguous_from 0 (results r')
  /\ total_players r' = py_len (results r')
  /\ py_len (results r') <= py_len (results r).
Proof.
  unfold corrected_game_data. cbn [results total_players].
  set (filtered := List.filter _ (results r)).
  destruct (renumber_spec filtered 0) as (Hnames & Hpos & Hlen).
  split; [rewrite Hnames; apply names_filter|]. split; [assumption|].
  split; [reflexivity|]. rewrite Hlen. unfold py_len, filtered.
  pose proof (List.filter_length_le
                (fun p => negb (Py.in_list (fst p) removed_players)) (results r)).
  lia.
Qed.

Lemma update_bounty_board_last (r : Ranking) (st : state) :
  last_game_data (snd (update_bounty_board r st)) = Some r.
Proof.
  rewrite update_bounty_board_run.
  generalize (results r) as entries.
  assert (forall entries (st0 : state),
             last_game_data
               (snd (for_each (add_bounty (total_players r)) entries st0))
             = last_game_data st0) as Hloop.
  { induction entries as [|entry entries IH]; intros st0; [reflexivity|].
    rewrite for_each_cons, add_bounty_run.
    destruct (entry_bounty (total_players r) entry); [|reflexivity].
    now rewrite IH. }
  intros entries. now rewrite Hloop.
Qed.

(** C5, as the code has it.  The corrected ranking holds the entries of
    the last ranking whose names are not selected, in their order,
    renumbered from 1.  With an empty selection [done_editing] returns
    at once: the board and the last ranking stay as they are, so every
    total is unchanged.  With a non-empty selection, once the revert of
    the last ranking completes, what remains is the update with the
    corrected ranking on the reverted board, and that ranking becomes
    the last one; for a last ranking that satisfies the invariant and
    has fewer than 2^53 / 5 players both steps complete. *)
Theorem done_editing_spec (r : Ranking) (removed_players : list string)
    (st : state) :
  let r' := corrected_game_data r removed_players in
  names (results r')
  = filter (fun name => name ∉ removed_players) (names (results r))
  /\ contiguous_from 0 (results r')
  /\ total_players r' = py_len (results r')
  /\ (removed_players = [] -> done_editing r removed_players st = (Ok tt, st))
  /\ (removed_players <> [] ->
      (forall st1 : state,
          revert_bounties r st = (Ok tt, st1) ->
          done_editing r removed_players st = update_bounty_board r' st1
          /\ last_game_data (snd (done_editing r removed_players st)) = Some r')
      /\ (Ranking_invariant r -> 5 * total_players r < 2 ^ 53 ->
          exists st1 st2 : state,
            revert_bounties r st = (Ok tt, st1)
            /\ update_bounty_board r' st1 = (Ok tt, st2)
            /\ done_editing r removed_players st = (Ok tt, st2)
            /\ last_game_data st2 = Some r')).
Proof.
  intros r'.
  destruct (corrected_game_data_spec r removed_players)
    as (Hnames & Hpos & Htotal & Hlen). fold r' in Hnames, Hpos, Htotal, Hlen.
  split; [exact Hnames|]. split; [exact Hpos|]. split; [exact Htotal|].
  split; [intros ->; reflexivity|]. intros Hne.
  assert (forall st1 : state,
             revert_bounties r st = (Ok tt, st1) ->
             done_editing r removed_players st = update_bounty_board r' st1)
    as Hrun.
  { intros st1 Hrevert. unfold done_editing.
    destruct removed_players as [|name rest]; [contradiction|].
    unfold bind. now rewrite Hrevert. }
  split.
  - intros st1 Hrevert. rewrite (Hrun st1 Hrevert).
    split; [reflexivity | apply update_bounty_board_last].
  - intros Hinv Hsize.
    destruct (revert_loop_lookup (total_players r) (results r) st)
      as (st1 & Hrevert & _);
      [now apply ranking_bounties_defined
      | apply names_NoDup, Hinv |].
    destruct (add_loop_completes (total_players r') (results r')
                {| bounty_board := bounty_board st1;
                   last_game_data := Some r' |}) as [st2 Hupdate].
    { rewrite Htotal. apply contiguous_bounties_defined; [assumption|].
      rewrite (inv_total r Hinv) in Hsize. lia. }
    rewrite <- update_bounty_board_run in Hupdate.
    exists st1, st2. split; [exact Hrevert|]. split; [exact Hupdate|].
    split; [now rewrite (Hrun st1 Hrevert)|].
    pose proof (update_bounty_board_last r' st1) as Hlast.
    now rewrite Hupdate in Hlast.
Qed.

(** What C5 says of an empty selection does not hold on every board.
    Alice and bob are submitted, the board is reset, and the Done button
    is pressed with nothing selected: [done_editing] returns at once and
    the board stays empty, whereas reverting the last ranking and
    applying the corrected one would put alice and bob on the board. *)
Lemma done_editing_empty_selection_counterexample :
  let fresh := {| bounty_board := ∅; last_game_data := None |} in
  let r := {| total_players := 2; results := [("alice", 1); ("bob", 2)] |} in
  let st := snd (reset_slash (snd (submit_marbles ["alice
bob"] fresh))) in
  last_game_data st = Some r
  /\ corrected_game_data r [] = r
  /\ bounty_board (snd (edit_last_game [] st)) = ∅
  /\ bounty_board
       (snd ((run revert_bounties r then
              update_bounty_board (corrected_game_data r [])) st))
     = {["alice" := 220; "bob" := 0]}
  /\ bounty_board (snd (edit_last_game [] st))
     <> bounty_board
          (snd ((run revert_bounties r then
                 update_bounty_board (corrected_game_data r [])) st)).
Proof.
  cbv zeta. split; [vm_compute; reflexivity|]. split; [vm_compute; reflexivity|].
  assert (bounty_board
            (snd (edit_last_game []
                    (snd (reset_slash
                            (snd (submit_marbles ["alice
bob"]
                                    {| bounty_board := ∅;
                                       last_game_data := None |}))))))
          = ∅) as Hcode by (vm_compute; reflexivity).
  split; [exact Hcode|]. rewrite Hcode.
  assert (forall board : gmap string Z,
             board = {["alice" := 220; "bob" := 0]} -> ∅ <> board) as Hdiffer.
  { intros board -> Heq.
    assert ((∅ : gmap string Z) !! "alice" = Some 220) as Habsurd
      by (rewrite Heq; vm_compute; reflexivity).
    rewrite lookup_empty in Habsurd. discriminate. }
  assert (bounty_board
            (snd ((run revert_bounties
                         {| total_players := 2;
                            results := [("alice", 1); ("bob", 2)] |} then
                   update_bounty_board
                     (corrected_game_data
                        {| total_players := 2;
                           results := [("alice", 1); ("bob", 2)] |} []))
                    (snd (reset_slash
                            (snd (submit_marbles ["alice
bob"]
                                    {| bounty_board := ∅;
                                       last_game_data := None |}))))))
          = {["alice" := 220; "bob" := 0]}) as Hclaim
    by (vm_compute; reflexivity).
  split; [exact Hclaim | apply Hdiffer, Hclaim].
Qed.

(** A last game of alice, bob and carol on a board that holds their
    bounties; bob is removed.  The corrected ranking is alice 1,
    carol 2, bob is left with nothing, and the corrected ranking is the
    last one. *)
Lemma done_editing_spec_witness :
  let r := {| total_players := 3;
              results := [("alice", 1); ("bob", 2); ("carol", 3)] |} in
  let st := {| bounty_board := {["alice" := 230; "bob" := 10; "carol" := -10]};
               last_game_data := Some r |} in
  exists st2 : state,
    done_editing r ["bob"] st = (Ok tt, st2)
    /\ last_game_data st2
       = Some {| total_players := 2; results := [("alice", 1); ("carol", 2)] |}
    /\ done_editing r [] st = (Ok tt, st).
Proof.
  intros r st.
  destruct (done_editing_spec r ["bob"] st) as (_ & _ & _ & _ & Hselected).
  destruct (done_editing_spec r [] st) as (_ & _ & _ & Hempty & _).
  destruct Hselected as [_ Hcompletes]; [discriminate|].
  destruct Hcompletes as (st1 & st2 & _ & _ & Hdone & Hlast).
  - constructor; [reflexivity | |].
    + intros i entry. destruct i as [|[|[|i]]]; cbn; intros [= <-]; reflexivity.
    + by_decision.
  - cbn. lia.
  - exists st2. split; [exact Hdone|]. split; [exact Hlast|].
    apply Hempty. reflexivity.
Defined.

(** ** The bounty *)

Lemma placement_score_exact_integer (position total_players : Z) :
  (placement_score_exact position total_players
   == inject_Z (20 * (total_players - position + 1) - 10 * total_players))%Q.
Proof.
  unfold placement_score_exact, Qeq. cbn. lia.
Qed.

Lemma quot_exact (n k : Z) (d : positive) :
  n = k * Z.pos d -> Z.quot n (Z.pos d) = k.
Proof. intros ->. apply Z.quot_mul. lia. Qed.

Lemma trunc_placement_score (position total_players : Z) :
  trunc (placement_score_exact position total_players)
  = 20 * (total_players - position + 1) - 10 * total_players.
Proof.
  unfold trunc, placement_score_exact. cbn. apply quot_exact. lia.
Qed.

Lemma trunc_after_bonus (position total_players : Z) (is_winner : bool) :
  trunc (inject_Z (win_bonus is_winner)
         + placement_score_exact position total_players)
  = score_spec position total_players is_winner.
Proof.
  unfold score_spec. rewrite trunc_placement_score.
  unfold trunc, placement_score_exact. cbn. apply quot_exact. lia.
Qed.

(** C1, within the exact range of binary64.  For [1 <= position <= N]
    and [5 * N < 2^53] the bounty is the win bonus plus the placement
    score [((N - position + 1) - N / 2) * 20] of exact arithmetic,
    truncated toward zero; that is
    [bonus + 20 * (N - position + 1) - 10 * N], the placement score
    being an integer, so that truncating before or after the bonus is
    added gives the same number. *)
Theorem calculate_bounty_spec (position total_players : Z)
    (is_winner : bool) :
  1 <= position <= total_players ->
  5 * total_players < 2 ^ 53 ->
  calculate_bounty position total_players is_winner
  = Ok (score_spec position total_players is_winner)
  /\ score_spec position total_players is_winner
     = (if is_winner then 200 else 0)
       + 20 * (total_players - position + 1) - 10 * total_players
  /\ (placement_score_exact position total_players
      == inject_Z (20 * (total_players - position + 1) - 10 * total_players))%Q
  /\ trunc (inject_Z (win_bonus is_winner)
            + placement_score_exact position total_players)
     = score_spec position total_players is_winner.
Proof.
  intros Hposition Hsize.
  assert (score_spec position total_players is_winner
          = bounty_formula position total_players is_winner) as Hformula.
  { unfold score_spec, bounty_formula, win_bonus.
    rewrite trunc_placement_score. lia. }
  split; [|split; [|split]].
  - rewrite Hformula. now apply calculate_bounty_exact.
  - exact Hformula.
  - apply placement_score_exact_integer.
  - apply trunc_after_bonus.
Qed.

(** Ten players: the winner earns 300, the fifth 20, the last -80. *)
Lemma calculate_bounty_spec_witness :
  calculate_bounty 1 10 true = Ok 300
  /\ calculate_bounty 5 10 false = Ok 20
  /\ calculate_bounty 10 10 false = Ok (-80).
Proof.
  split; [|split].
  - apply (calculate_bounty_spec 1 10 true); lia.
  - apply (calculate_bounty_spec 5 10 false); lia.
  - apply (calculate_bounty_spec 10 10 false); lia.
Defined.

(** C1 fails at the first size beyond that range.  With
    1801439850948199 players, five times which is [2^53 + 3], the
    winner's placement score is ten times that number and takes 55
    bits: the binary64 product is rounded to a multiple of 4, and the
    bounty is 2 more than the formula gives. *)
Lemma calculate_bounty_counterexample :
  let n := 1801439850948199 in
  1 <= 1 <= n
  /\ 5 * n = 2 ^ 53 + 3
  /\ calculate_bounty 1 n true = Ok 18014398509482192
  /\ score_spec 1 n true = 18014398509482190
  /\ 200 + 20 * (n - 1 + 1) - 10 * n = 18014398509482190
  /\ calculate_bounty 1 n true <> Ok (score_spec 1 n true).
Proof.
  cbv zeta. split; [lia|]. split; [reflexivity|].
  assert (calculate_bounty 1 1801439850948199 true = Ok 18014398509482192)
    as Hcode by (vm_compute; reflexivity).
  assert (score_spec 1 1801439850948199 true = 18014398509482190) as Hspec
    by (vm_compute; reflexivity).
  split; [exact Hcode|]. split; [exact Hspec|]. split; [reflexivity|].
  rewrite Hcode, Hspec. discriminate.
Qed.

(** * Further properties *)

(** ** The bounty by position *)

(** X1.  Within a game a better position always earns more: one place
    costs 20 points, and leaving first place costs the bonus of 200 as
    well. *)
Theorem calculate_bounty_decreasing (position position' total_players : Z) :
  1 <= position -> position < position' -> position' <= total_players ->
  5 * total_players < 2 ^ 53 ->
  exists bounty bounty' : Z,
    calculate_bounty position total_players (position =? 1) = Ok bounty
    /\ calculate_bounty position' total_players (position' =? 1) = Ok bounty'
    /\ bounty - bounty'
       = 20 * (position' - position) + (if position =? 1 then 200 else 0)
    /\ bounty' < bounty.
Proof.
  intros Hlow Hlt Hhigh Hsize.
  rewrite !calculate_bounty_exact by lia. do 2 eexists.
  split; [reflexivity|]. split; [reflexivity|].
  unfold bounty_formula.
  replace (position' =? 1) with false by (symmetry; apply Z.eqb_neq; lia).
  destruct (position =? 1); lia.
Qed.

(** Ten players: second place earns 80, third place 60. *)
Lemma calculate_bounty_decreasing_witness :
  exists bounty bounty' : Z,
    calculate_bounty 2 10 false = Ok bounty
    /\ calculate_bounty 3 10 false = Ok bounty'
    /\ bounty - bounty' = 20
    /\ bounty' < bounty.
Proof.
  destruct (calculate_bounty_decreasing 2 3 10) as (b & b' & H1 & H2 & H3 & H4);
    try lia.
  exists b, b'. repeat split; assumption.
Defined.

(** ** The sum of all totals *)

Lemma foldr_add_perm (l k : list Z) :
  l ≡ₚ k -> foldr Z.add 0 l = foldr Z.add 0 k.
Proof.
  induction 1 as [|x l k _ IH|x y l|l k m _ IH1 _ IH2]; cbn; lia.
Qed.

Lemma board_total_insert_fresh (board : gmap string Z) (name : string)
    (total : Z) :
  board !! name = None ->
  board_total (<[name := total]> board) = board_total board + total.
Proof.
  intros Hfresh. unfold board_total.
  rewrite (foldr_add_perm _ (snd <$> (name, total) :: map_to_list board)).
  - cbn. lia.
  - apply fmap_Permutation. now apply map_to_list_insert.
Qed.

Lemma board_total_delete (board : gmap string Z) (name : string) (total : Z) :
  board !! name = Some total ->
  board_total (delete name board) = board_total board - total.
Proof.
  intros Htotal.
  pose proof (board_total_insert_fresh (delete name board) name total
                (lookup_delete_eq board name)) as H.
  rewrite insert_delete_id in H by assumption. lia.
Qed.

Lemma board_total_insert (board : gmap string Z) (name : string) (total : Z) :
  board_total (<[name := total]> board)
  = board_total board - default 0 (board !! name) + total.
Proof.
  destruct (board !! name) as [old|] eqn:Hold; cbn.
  - rewrite <- (insert_delete_eq board).
    rewrite board_total_insert_fresh by apply lookup_delete_eq.
    rewrite (board_total_delete board name old Hold). lia.
  - rewrite board_total_insert_fresh by assumption. lia.
Qed.

(** The bounties of a ranking, in closed form, add up to ten points per
    player and the bonus. *)
Lemma bounty_formula_sum (total_players : Z) (entries : list (string * Z)) :
  contiguous_from 0 entries ->
  foldr Z.add 0
    (List.map (fun p => bounty_formula (snd p) total_players (snd p =? 1))
       entries)
  = py_len entries * (10 * total_players + 10 - 10 * py_len entries)
    + (if py_len entries =? 0 then 0 else 200).
Proof.
  induction entries as [|entry entries IH] using rev_ind; intros Hpos.
  - reflexivity.
  - apply contiguous_from_snoc in Hpos as [Hpos Hentry].
    rewrite map_app, foldr_app. cbn [List.map foldr].
    assert (forall (l : list Z) (x : Z),
               foldr Z.add (x + 0) l = foldr Z.add 0 l + x) as Hacc.
    { induction l as [|y l IHl]; intros x; cbn; [lia|]. rewrite IHl. lia. }
    rewrite Hacc, IH by assumption. rewrite py_len_app, Hentry.
    unfold bounty_formula. replace (py_len [entry]) with 1 by reflexivity.
    set (m := py_len entries).
    assert (0 <= m) as Hm by (unfold m, py_len; lia).
    replace (m + 1 =? 0) with false by (symmetry; apply Z.eqb_neq; lia).
    destruct (Z.eqb_spec m 0) as [Hzero|Hnonzero].
    + rewrite Hzero. change (0 + 0 + 1 =? 1) with true. cbv iota. lia.
    + replace (0 + m + 1 =? 1) with false by (symmetry; apply Z.eqb_neq; lia).
      nia.
Qed.

Lemma add_loop_total (total_players : Z) (bounty_of : string * Z -> Z)
    (entries : list (string * Z)) :
  forall st : state,
    (forall entry, entry ∈ entries ->
       entry_bounty total_players entry = Ok (bounty_of entry)) ->
    exists st1 : state,
      for_each (add_bounty total_players) entries st = (Ok tt, st1)
      /\ board_total (bounty_board st1)
         = board_total (bounty_board st)
           + foldr Z.add 0 (List.map bounty_of entries).
Proof.
  induction entries as [|entry entries IH]; intros st Hbounty.
  - exists st. split; [reflexivity | cbn; lia].
  - rewrite for_each_cons, add_bounty_run, (Hbounty entry) by left.
    destruct (IH {| bounty_board :=
                      <[fst entry := default 0 (bounty_board st !! fst entry)
                                     + bounty_of entry]> (bounty_board st);
                    last_game_data := last_game_data st |})
      as (st1 & Hrun & Htotal); [intros e He; apply Hbounty; now right|].
    exists st1. split; [exact Hrun|]. rewrite Htotal. cbn [bounty_board].
    rewrite board_total_insert. cbn [List.map foldr]. lia.
Qed.

Lemma revert_loop_total (total_players : Z) (bounty_of : string * Z -> Z)
    (entries : list (string * Z)) :
  forall st : state,
    (forall entry, entry ∈ entries ->
       entry_bounty total_players entry = Ok (bounty_of entry)) ->
    NoDup (names entries) ->
    (forall name, name ∈ names entries -> is_Some (bounty_board st !! name)) ->
    exists st1 : state,
      for_each (revert_bounty total_players) entries st = (Ok tt, st1)
      /\ board_total (bounty_board st1)
         = board_total (bounty_board st)
           - foldr Z.add 0 (List.map bounty_of entries).
Proof.
  induction entries as [|entry entries IH]; intros st Hbounty Hnodup Hkeys.
  - exists st. split; [reflexivity | cbn; lia].
  - cbn [names List.map] in Hnodup, Hkeys.
    apply NoDup_cons in Hnodup as [Hfresh Hnodup].
    destruct (Hkeys (fst entry)) as [total Htotal]; [left|].
    rewrite for_each_cons, revert_bounty_run, (Hbounty entry), Htotal by left.
    set (st' := {| bounty_board :=
                     if total - bounty_of entry =? 0
                     then delete (fst entry) (bounty_board st)
                     else <[fst entry := total - bounty_of entry]>
                            (bounty_board st);
                   last_game_data := last_game_data st |}).
    assert (board_total (bounty_board st')
            = board_total (bounty_board st) - bounty_of entry) as Hstep.
    { unfold st'. cbn [bounty_board].
      destruct (Z.eqb_spec (total - bounty_of entry) 0) as [Hzero|Hnonzero].
      - rewrite (board_total_delete _ _ total Htotal). lia.
      - rewrite board_total_insert, Htotal. cbn. lia. }
    destruct (IH st') as (st1 & Hrun & Htotal1).
    + intros e He. apply Hbounty. now right.
    + exact Hnodup.
    + intros name Hname.
      assert (name <> fst entry) as Hne by (intros ->; contradiction).
      destruct (Hkeys name) as [v Hv]; [now right|].
      exists v. unfold st'. cbn [bounty_board].
      destruct (total - bounty_of entry =? 0).
      * now rewrite lookup_delete_ne.
      * now rewrite lookup_insert_ne.
    + exists st1. split; [exact Hrun|]. rewrite Htotal1, Hstep.
      cbn [List.map foldr]. lia.
Qed.

(** X2.  A game with [N >= 1] players that satisfies the invariant raises
    the sum of all totals on the board by exactly [10 * N + 200]
    (nothing for an empty ranking), whatever the board held; reverting
    it while all its players are keys of the board lowers the sum by
    the same amount. *)
Theorem game_changes_board_total (r : Ranking) (st : state) :
  Ranking_invariant r ->
  5 * total_players r < 2 ^ 53 ->
  let stake :=
    if total_players r =? 0 then 0 else 10 * total_players r + 200 in
  (exists st1 : state,
      update_bounty_board r st = (Ok tt, st1)
      /\ board_total (bounty_board st1)
         = board_total (bounty_board st) + stake)
  /\ ((forall name, name ∈ names (results r) ->
         is_Some (bounty_board st !! name)) ->
      exists st1 : state,
        revert_bounties r st = (Ok tt, st1)
        /\ board_total (bounty_board st1)
           = board_total (bounty_board st) - stake).
Proof.
  intros Hinv Hsize stake.
  set (bounty_of := fun p : string * Z =>
                      bounty_formula (snd p) (total_players r) (snd p =? 1)).
  assert (forall entry, entry ∈ results r ->
            entry_bounty (total_players r) entry = Ok (bounty_of entry))
    as Hbounty by (intros entry Hin; now apply ranking_bounties).
  assert (foldr Z.add 0 (List.map bounty_of (results r)) = stake) as Hsum.
  { unfold bounty_of. rewrite bounty_formula_sum by apply Hinv.
    unfold stake. rewrite (inv_total r Hinv).
    destruct (py_len (results r) =? 0) eqn:Hzero; [|lia].
    apply Z.eqb_eq in Hzero. rewrite Hzero. lia. }
  split.
  - rewrite update_bounty_board_run.
    destruct (add_loop_total (total_players r) bounty_of (results r)
                {| bounty_board := bounty_board st;
                   last_game_data := Some r |} Hbounty)
      as (st1 & Hrun & Htotal).
    exists st1. split; [exact Hrun|]. now rewrite Htotal, Hsum.
  - intros Hkeys.
    destruct (revert_loop_total (total_players r) bounty_of (results r) st
                Hbounty (names_NoDup _ (inv_names r Hinv)) Hkeys)
      as (st1 & Hrun & Htotal).
    exists st1. split; [exact Hrun|]. now rewrite Htotal, Hsum.
Qed.

(** Alice, bob and carol on a board where dave has 5: the sum goes from
    5 to 235 and, on revert, back to 5. *)
Lemma game_changes_board_total_witness :
  let r := {| total_players := 3;
              results := [("alice", 1); ("bob", 2); ("carol", 3)] |} in
  let st := {| bounty_board := {["dave" := 5]}; last_game_data := None |} in
  exists st1 st2 : state,
    update_bounty_board r st = (Ok tt, st1)
    /\ board_total (bounty_board st1) = 235
    /\ revert_bounties r st1 = (Ok tt, st2)
    /\ board_total (bounty_board st2) = 5.
Proof.
  intros r st.
  assert (Ranking_invariant r) as Hinv.
  { constructor; [reflexivity | | by_decision].
    intros i entry. destruct i as [|[|[|i]]]; cbn; intros [= <-]; reflexivity. }
  destruct (game_changes_board_total r st Hinv) as [(st1 & Hrun & Htotal) _];
    [cbn; lia|].
  destruct (game_changes_board_total r st1 Hinv) as [_ Hrevert]; [cbn; lia|].
  destruct Hrevert as (st2 & Hrun2 & Htotal2).
  - assert (st1 = snd (update_bounty_board r st)) as -> by now rewrite Hrun.
    intros name Hname. apply (bool_decide_unpack _).
    revert name Hname. apply Forall_forall. by_decision.
  - exists st1, st2. split; [exact Hrun|]. split; [|split; [exact Hrun2|]].
    + rewrite Htotal. vm_compute. reflexivity.
    + rewrite Htotal2, Htotal. vm_compute. reflexivity.
Defined.

(** ** Correcting the last game *)

Lemma corrected_game_data_NoDup (r : Ranking) (removed_players : list string) :
  NoDup (names (results r)) ->
  NoDup (names (results (corrected_game_data r removed_players))).
Proof.
  intros Hnodup.
  destruct (corrected_game_data_spec r removed_players) as (-> & _).
  now apply NoDup_filter.
Qed.

Lemma corrected_bounties_defined (r : Ranking) (removed_players : list string) :
  5 * py_len (results r) < 2 ^ 53 ->
  bounties_defined (total_players (corrected_game_data r removed_players))
    (results (corrected_game_data r removed_players)).
Proof.
  intros Hsize.
  destruct (corrected_game_data_spec r removed_players)
    as (_ & Hpos & -> & Hlen).
  apply contiguous_bounties_defined; [assumption | lia].
Qed.

Lemma revert_loop_skips_all (total_players : Z) (entries : list (string * Z))
    (st : state) :
  bounties_defined total_players entries ->
  (forall name, name ∈ names entries -> bounty_board st !! name = None) ->
  for_each (revert_bounty total_players) entries st = (Ok tt, st).
Proof.
  induction entries as [|entry entries IH]; intros Hdefined Habsent;
    [reflexivity|].
  destruct (Hdefined entry) as [bounty Hbounty]; [left|].
  rewrite for_each_cons, revert_bounty_run, Hbounty, Habsent by left.
  apply IH.
  - intros e He. apply Hdefined. now right.
  - intros name Hname. apply Habsent. now right.
Qed.

Lemma elem_of_names (name : string) (entries : list (string * Z)) :
  name ∈ names entries <-> exists entry, entry ∈ entries /\ fst entry = name.
Proof.
  unfold names. rewrite list_elem_of_fmap. split; intros [entry [H1 H2]];
    exists entry; split; auto.
Qed.

Lemma default_restored (total : option Z) :
  default 0 (restored total) = default 0 total.
Proof.
  destruct total as [total|]; [|reflexivity]. cbn.
  destruct (Z.eqb_spec total 0) as [->|]; reflexivity.
Qed.

(** X3.  Correcting the game just applied gives the board that submitting
    the corrected ranking in its place would have given: every kept
    player and every bystander has the same total, and the last game is
    the corrected ranking.  The one difference is a removed player: the
    total from before the game is restored, and the entry is dropped
    when that total is zero. *)
Theorem correction_equals_resubmission (r : Ranking)
    (removed_players : list string) (st : state) :
  Ranking_invariant r ->
  5 * total_players r < 2 ^ 53 ->
  removed_players <> [] ->
  let r' := corrected_game_data r removed_players in
  exists applied corrected resubmitted : state,
    update_bounty_board r st = (Ok tt, applied)
    /\ done_editing r removed_players applied = (Ok tt, corrected)
    /\ update_bounty_board r' st = (Ok tt, resubmitted)
    /\ last_game_data corrected = last_game_data resubmitted
    /\ forall name : string,
         bounty_board corrected !! name
         = if decide (name ∈ names (results r) /\ name ∈ removed_players)
           then restored (bounty_board st !! name)
           else bounty_board resubmitted !! name.
Proof.
  intros Hinv Hsize Hselected r'.
  pose proof (names_NoDup _ (inv_names r Hinv)) as Hnodup.
  pose proof (corrected_game_data_NoDup r removed_players Hnodup) as Hnodup'.
  fold r' in Hnodup'.
  assert (bounties_defined (total_players r') (results r')) as Hdefined'.
  { apply corrected_bounties_defined. now rewrite <- (inv_total r Hinv). }
  pose proof (ranking_bounties_defined r Hinv Hsize) as Hdefined.
  destruct (corrected_game_data_spec r removed_players) as (Hnames' & _).
  fold r' in Hnames'.
  (* the four loops *)
  destruct (add_loop_completes (total_players r) (results r)
              {| bounty_board := bounty_board st; last_game_data := Some r |}
              Hdefined) as [applied Happly].
  destruct (add_loop_lookup _ _ _ _ Happly Hnodup)
    as (_ & _ & Hother1 & Hentry1).
  destruct (revert_loop_lookup (total_players r) (results r) applied
              Hdefined Hnodup) as (reverted & Hrevert & _ & Hother2 & Hentry2).
  destruct (add_loop_completes (total_players r') (results r')
              {| bounty_board := bounty_board reverted;
                 last_game_data := Some r' |} Hdefined')
    as [corrected Hcorrect].
  destruct (add_loop_lookup _ _ _ _ Hcorrect Hnodup')
    as (Hlast3 & _ & Hother3 & Hentry3).
  destruct (add_loop_completes (total_players r') (results r')
              {| bounty_board := bounty_board st; last_game_data := Some r' |}
              Hdefined') as [resubmitted Hresubmit].
  destruct (add_loop_lookup _ _ _ _ Hresubmit Hnodup')
    as (Hlast4 & _ & Hother4 & Hentry4).
  cbn [bounty_board last_game_data] in *.
  exists applied, corrected, resubmitted.
  rewrite !update_bounty_board_run.
  split; [exact Happly|]. split; [|split; [exact Hresubmit|split]].
  - unfold done_editing. destruct removed_players; [contradiction|].
    unfold bind, revert_bounties. rewrite Hrevert.
    rewrite update_bounty_board_run. exact Hcorrect.
  - congruence.
  - intros name.
    assert (name ∈ names (results r') <->
            name ∈ names (results r) /\ name ∉ removed_players) as Hkept.
    { rewrite Hnames', list_elem_of_filter. tauto. }
    destruct (decide (name ∈ names (results r'))) as [Hin'|Hout'].
    + (* a kept player *)
      rewrite decide_False by (apply Hkept in Hin'; tauto).
      pose proof Hin' as Hin. apply Hkept in Hin as [Hin _].
      apply elem_of_names in Hin' as (e' & He' & <-).
      apply elem_of_names in Hin as (e & He & Hname).
      destruct (Hdefined' e' He') as [b' Hb']. destruct (Hdefined e He) as [b Hb].
      rewrite (Hentry3 e' b' He' Hb'), (Hentry4 e' b' He' Hb').
      rewrite <- Hname, (Hentry2 e b He Hb), (Hentry1 e b He Hb).
      rewrite credited_debited. unfold credited. now rewrite default_restored.
    + rewrite (Hother3 name Hout'), (Hother4 name Hout').
      destruct (decide (name ∈ names (results r))) as [Hin|Hout].
      * (* a removed player *)
        rewrite decide_True
          by (split; [assumption|];
              destruct (decide (name ∈ removed_players)); [assumption|];
              exfalso; apply Hout', Hkept; tauto).
        apply elem_of_names in Hin as (e & He & <-).
        destruct (Hdefined e He) as [b Hb].
        rewrite (Hentry2 e b He Hb), (Hentry1 e b He Hb).
        apply credited_debited.
      * (* a bystander *)
        rewrite decide_False by tauto.
        now rewrite (Hother2 name Hout), (Hother1 name Hout).
Qed.

(** Alice, bob and carol are applied on a board where bob has -30 and
    dave has 5, then bob is removed: alice and carol stand as if the
    game had been alice, carol from the start, bob is back at -30 and
    dave keeps his 5. *)
Lemma correction_equals_resubmission_witness :
  let r := {| total_players := 3;
              results := [("alice", 1); ("bob", 2); ("carol", 3)] |} in
  let st := {| bounty_board := {["bob" := -30; "dave" := 5]};
               last_game_data := None |} in
  exists applied corrected : state,
    update_bounty_board r st = (Ok tt, applied)
    /\ done_editing r ["bob"] applied = (Ok tt, corrected)
    /\ bounty_board corrected !! "alice" = Some 220
    /\ bounty_board corrected !! "bob" = Some (-30)
    /\ bounty_board corrected !! "carol" = Some 0
    /\ bounty_board corrected !! "dave" = Some 5.
Proof.
  intros r st.
  assert (Ranking_invariant r) as Hinv.
  { constructor; [reflexivity | | by_decision].
    intros i entry. destruct i as [|[|[|i]]]; cbn; intros [= <-]; reflexivity. }
  destruct (correction_equals_resubmission r ["bob"] st Hinv)
    as (applied & corrected & resubmitted & Happly & Hdone & Hresubmit
        & _ & Hboard); [cbn; lia | discriminate |].
  exists applied, corrected. split; [exact Happly|]. split; [exact Hdone|].
  assert (resubmitted
          = snd (update_bounty_board (corrected_game_data r ["bob"]) st))
    as -> by now rewrite Hresubmit.
  rewrite !Hboard. repeat split; vm_compute; reflexivity.
Defined.

(** X4.  When no player of the last game is a key of the board any more
    (after [reset_slash], or once they have all been removed), a
    correction with a non-empty selection reverts nothing and credits
    the kept players as a fresh game: it is exactly
    [update_bounty_board] on the corrected ranking. *)
Theorem correction_after_reset (r : Ranking) (removed_players : list string)
    (st : state) :
  Ranking_invariant r ->
  5 * total_players r < 2 ^ 53 ->
  removed_players <> [] ->
  (forall name, name ∈ names (results r) -> bounty_board st !! name = None) ->
  done_editing r removed_players st
  = update_bounty_board (corrected_game_data r removed_players) st.
Proof.
  intros Hinv Hsize Hselected Habsent. unfold done_editing.
  destruct removed_players as [|name rest]; [contradiction|].
  unfold bind, revert_bounties.
  rewrite revert_loop_skips_all;
    [reflexivity | now apply ranking_bounties_defined | exact Habsent].
Qed.

(** Alice and bob are submitted, the board is reset, and bob is removed
    from the last game: alice is credited the 210 of a one-player
    game. *)
Lemma correction_after_reset_witness :
  let r := {| total_players := 2; results := [("alice", 1); ("bob", 2)] |} in
  let fresh := {| bounty_board := ∅; last_game_data := None |} in
  let st := snd (reset_slash (snd (update_bounty_board r fresh))) in
  done_editing r ["bob"] st
  = (Ok tt,
     {| bounty_board := {["alice" := 210]};
        last_game_data :=
          Some {| total_players := 1; results := [("alice", 1)] |} |}).
Proof.
  intros r fresh st. rewrite correction_after_reset.
  - vm_compute. reflexivity.
  - constructor; [reflexivity | | by_decision].
    intros i entry. destruct i as [|[|i]]; cbn; intros [= <-]; reflexivity.
  - cbn. lia.
  - discriminate.
  - intros name _. vm_compute. reflexivity.
Defined.

(** ** More on the merger *)

Lemma merge_entry_tracked (st : merge_state) (existing : gset string)
    (entry : string * Z) :
  merge_tracked st existing ->
  let '(st', existing') := merge_entry (st, existing) entry in
  merge_tracked st' existing'
  /\ (exists tail, merged_results st' = merged_results st ++ tail
                   /\ appended_from [entry] tail)
  /\ Py.lower (fst entry) ∈ folded_names (merged_results st').
Proof.
  intros [Hmax Hset]. unfold merge_entry.
  destruct (decide (Py.lower (fst entry) ∈ existing)) as [Hin|Hnotin].
  - split; [now split|]. split; [|now apply Hset].
    exists []. rewrite app_nil_r. split; [reflexivity|]. split.
    + intros name Hname. inversion Hname.
    + cbn. lia.
  - split; [split|split]; cbn [merged_results current_max_position].
    + rewrite py_len_app, Hmax. reflexivity.
    + intros x. rewrite folded_names_app, elem_of_app, elem_of_union, Hset.
      cbn. rewrite elem_of_singleton, list_elem_of_singleton. tauto.
    + eexists. split; [reflexivity|]. split; [|cbn; lia].
      intros name Hname. cbn in Hname |- *. exact Hname.
    + rewrite folded_names_app, elem_of_app. right. cbn. left.
Qed.

Lemma merge_entries_tracked (entries : list (string * Z)) :
  forall (st : merge_state) (existing : gset string),
    merge_tracked st existing ->
    let '(st', existing') := fold_left merge_entry entries (st, existing) in
    merge_tracked st' existing'
    /\ (exists tail, merged_results st' = merged_results st ++ tail
                     /\ appended_from entries tail)
    /\ (forall name, name ∈ folded_names (merged_results st) \/
                     name ∈ folded_names entries ->
                     name ∈ folded_names (merged_results st')).
Proof.
  induction entries as [|entry entries IH]; intros st existing Htracked.
  - cbn [fold_left]. split; [assumption|]. split.
    + exists []. rewrite app_nil_r. split; [reflexivity|]. split.
      * intros name Hname. inversion Hname.
      * cbn. lia.
    + intros name [H|H]; [assumption | inversion H].
  - cbn [fold_left].
    pose proof (merge_entry_tracked st existing entry Htracked) as Hstep.
    destruct (merge_entry (st, existing) entry) as [st1 existing1].
    destruct Hstep as (Htracked1 & (tail1 & Htail1 & Hfrom1 & Hlen1) & Hentry).
    specialize (IH st1 existing1 Htracked1).
    destruct (fold_left merge_entry entries (st1, existing1)) as [st2 existing2].
    destruct IH as (Htracked2 & (tail2 & Htail2 & Hfrom2 & Hlen2) & Hkeep).
    split; [assumption|]. split.
    + exists (tail1 ++ tail2). rewrite Htail2, Htail1, app_assoc.
      split; [reflexivity|]. split.
      * intros name Hname. unfold names in Hname.
        rewrite map_app in Hname. apply elem_of_app in Hname as [Hname|Hname].
        -- apply Hfrom1 in Hname. cbn in Hname |- *.
           apply list_elem_of_singleton in Hname. subst name. left.
        -- cbn. right. now apply Hfrom2.
      * rewrite length_app. cbn in Hlen1 |- *. lia.
    + intros name [Hname|Hname].
      * apply Hkeep. left. rewrite Htail1, folded_names_app, elem_of_app.
        now left.
      * cbn in Hname. apply elem_of_cons in Hname as [->|Hname].
        -- apply Hkeep. now left.
        -- apply Hkeep. now right.
Qed.

Lemma merge_screenshot_tracked (st : merge_state) (parsed_data : Ranking) :
  current_max_position st = py_len (merged_results st) ->
  let st' := merge_screenshot st parsed_data in
  current_max_position st' = py_len (merged_results st')
  /\ (exists tail, merged_results st' = merged_results st ++ tail
                   /\ appended_from (results parsed_data) tail)
  /\ (forall name, name ∈ folded_names (merged_results st) \/
                   name ∈ folded_names (results parsed_data) ->
                   name ∈ folded_names (merged_results st')).
Proof.
  intros Hmax. unfold merge_screenshot.
  pose proof (merge_entries_tracked (results parsed_data) st
                (lower_names (merged_results st))) as H.
  destruct (fold_left merge_entry (results parsed_data)
              (st, lower_names (merged_results st))) as [st' existing'].
  destruct H as ([Hmax' _] & Htail & Hkeep).
  - split; [assumption | apply lower_names_spec].
  - cbn [fst]. repeat split; assumption.
Qed.

(** X5.  Merging step by step is merging at once.  For any rankings
    whatever, merging the first two and then merging the result with
    the remaining ones gives what one call on the whole list gives. *)
Theorem merge_screenshot_data_incremental (first second : Ranking)
    (rest : list Ranking) :
  exists merged : Ranking,
    merge_screenshot_data [first; second] = Ok merged
    /\ merge_screenshot_data (merged :: rest)
       = merge_screenshot_data (first :: second :: rest).
Proof.
  eexists. split; [reflexivity|].
  destruct rest as [|third rest]; [reflexivity|].
  unfold merge_screenshot_data. cbn [fold_left results].
  set (st0 := {| merged_results := results first;
                 current_max_position := py_len (results first) |}).
  destruct (merge_screenshot_tracked st0 second eq_refl) as (Hmax & _).
  replace {| merged_results := merged_results (merge_screenshot st0 second);
             current_max_position :=
               py_len (merged_results (merge_screenshot st0 second)) |}
    with (merge_screenshot st0 second); [reflexivity|].
  destruct (merge_screenshot st0 second) as [merged cur].
  cbn [merged_results current_max_position] in *. now rewrite Hmax.
Qed.

Lemma merge_screenshots_tracked (rest : list Ranking) :
  forall st : merge_state,
    current_max_position st = py_len (merged_results st) ->
    let st' := fold_left merge_screenshot rest st in
    (forall name,
        name ∈ folded_names (merged_results st)
        \/ (exists r, r ∈ rest /\ name ∈ folded_names (results r)) ->
        name ∈ folded_names (merged_results st'))
    /\ (forall name,
          name ∈ names (merged_results st') ->
          name ∈ names (merged_results st)
          \/ exists r, r ∈ rest /\ name ∈ names (results r))
    /\ (length (merged_results st')
        <= length (merged_results st)
           + sum_list ((fun r => length (results r)) <$> rest))%nat.
Proof.
  induction rest as [|r rest IH]; intros st Hmax; cbn [fold_left].
  - split; [|split].
    + intros name [H | (r & Hr & _)]; [assumption | inversion Hr].
    + intros name H. now left.
    + cbn. lia.
  - destruct (merge_screenshot_tracked st r Hmax)
      as (Hmax1 & (tail & Htail & Hfrom & Hlen) & Hkeep1).
    destruct (IH (merge_screenshot st r) Hmax1) as (Hkeep & Hfrom' & Hlen').
    split; [|split].
    + intros name [H | (r' & Hr' & Hname)].
      * apply Hkeep. left. apply Hkeep1. now left.
      * apply elem_of_cons in Hr' as [->|Hr'].
        -- apply Hkeep. left. apply Hkeep1. now right.
        -- apply Hkeep. right. now exists r'.
    + intros name Hname. apply Hfrom' in Hname as [Hname | (r' & Hr' & Hname)].
      * rewrite Htail in Hname. unfold names in Hname.
        rewrite map_app in Hname. apply elem_of_app in Hname as [Hname|Hname].
        -- now left.
        -- right. exists r. split; [left | now apply Hfrom].
      * right. exists r'. split; [now right | assumption].
    + rewrite Htail, length_app in Hlen'. cbn [fmap list_fmap sum_list].
      cbn in Hlen' |- *. lia.
Qed.

(** X6.  The merger neither loses nor invents a player.  Every name of
    every input ranking occurs in the result, ignoring case; every name
    in the result is, letter for letter, a name of some input; and the
    result has no more entries than the inputs together. *)
Theorem merge_screenshot_data_keeps_players (rankings : list Ranking)
    (merged : Ranking) :
  merge_screenshot_data rankings = Ok merged ->
  (forall r name,
      r ∈ rankings -> name ∈ names (results r) ->
      Py.lower name ∈ folded_names (results merged))
  /\ (forall name,
        name ∈ names (results merged) ->
        exists r, r ∈ rankings /\ name ∈ names (results r))
  /\ (length (results merged)
      <= sum_list ((fun r => length (results r)) <$> rankings))%nat.
Proof.
  assert (forall (r : Ranking) name,
             name ∈ names (results r) ->
             Py.lower name ∈ folded_names (results r)) as Hfold.
  { intros r name Hname. apply elem_of_names in Hname as (e & He & <-).
    unfold folded_names. apply list_elem_of_fmap. now exists e. }
  destruct rankings as [|first [|second rest]]; [discriminate| |].
  - intros [= <-]. split; [|split].
    + intros r name Hr Hname. apply list_elem_of_singleton in Hr. subst r.
      now apply Hfold.
    + intros name Hname. exists first. split; [left | assumption].
    + cbn. lia.
  - unfold merge_screenshot_data. intros [= <-]. cbn [results].
    set (st0 := {| merged_results := results first;
                   current_max_position := py_len (results first) |}).
    destruct (merge_screenshots_tracked (second :: rest) st0 eq_refl)
      as (Hkeep & Hfrom & Hlen).
    split; [|split].
    + intros r name Hr Hname. apply Hkeep.
      apply elem_of_cons in Hr as [->|Hr].
      * left. now apply Hfold.
      * right. exists r. split; [assumption | now apply Hfold].
    + intros name Hname. apply Hfrom in Hname as [Hname | (r & Hr & Hname)].
      * exists first. split; [left | assumption].
      * exists r. split; [now right | assumption].
    + exact Hlen.
Qed.

(** Two overlapping screenshots: Bob of the second one is found in the
    result as bob, and the three entries are fewer than the four of the
    inputs. *)
Lemma merge_screenshot_data_keeps_players_witness :
  let first := {| total_players := 2;
                  results := [("alice", 1); ("bob", 2)] |} in
  let second := {| total_players := 2;
                   results := [("Bob", 1); ("carol", 2)] |} in
  exists merged : Ranking,
    merge_screenshot_data [first; second] = Ok merged
    /\ Py.lower "Bob" ∈ folded_names (results merged)
    /\ (length (results merged) <= 4)%nat.
Proof.
  intros first second. eexists. split; [reflexivity|].
  destruct (merge_screenshot_data_keeps_players [first; second] _ eq_refl)
    as (Hkeep & _ & Hlen).
  split; [|exact Hlen].
  apply (Hkeep second); [right; left | by_decision].
Defined.

(** ** More on strings *)

Ltac by_cases_on_char c :=
  destruct c as [[] [] [] [] [] [] [] []]; vm_compute; intros; congruence.

Lemma ident_char_not_space (c : ascii) :
  Py.ident_char c = true -> Py.isspace c = false.
Proof. by_cases_on_char c. Qed.

Lemma ident_char_word_char (c : ascii) :
  Py.ident_char c = true -> Py.word_char c = true.
Proof. unfold Py.word_char. now intros ->. Qed.

Lemma str_map_length (f : ascii -> ascii) (s : string) :
  String.length (Py.map f s) = String.length s.
Proof. induction s as [|c s IH]; cbn; [reflexivity | now rewrite IH]. Qed.

Lemma str_map_app (f : ascii -> ascii) (s t : string) :
  Py.map f (s +:+ t) = Py.map f s +:+ Py.map f t.
Proof.
  induction s as [|c s IH]; [reflexivity|].
  rewrite str_app_cons. cbn [Py.map]. now rewrite IH, str_app_cons.
Qed.


Lemma str_app_assoc (s t u : string) : (s +:+ t) +:+ u = s +:+ (t +:+ u).
Proof.
  induction s as [|c s IH]; [reflexivity|].
  now rewrite !str_app_cons, IH.
Qed.

Lemma normalize_char_not_confusable (c : ascii) :
  confusable (normalize_char c) = false.
Proof. destruct c as [[] [] [] [] [] [] [] []]; reflexivity. Qed.

Lemma normalize_char_lower (c : ascii) :
  normalize_char (Py.lower_char c) = normalize_char c.
Proof. destruct c as [[] [] [] [] [] [] [] []]; reflexivity. Qed.

Lemma any_map (p : ascii -> bool) (f : ascii -> ascii) (s : string) :
  (forall c, p (f c) = false) -> Py.any p (Py.map f s) = false.
Proof.
  intros Hp. induction s as [|c s IH]; [reflexivity|].
  cbn [Py.map Py.any]. now rewrite Hp, IH.
Qed.

(** X7.  Normalization rewrites character by character.  The result has
    the length of the text, holds no capital letter and none of l, 1, 0
    and 5, is the same for a text and its lower-cased form, and the
    normal form of a concatenation is the concatenation of the normal
    forms. *)
Theorem normalize_ocr_text_shape (text other : string) :
  Py.len (normalize_ocr_text text) = Py.len text
  /\ Py.any confusable (normalize_ocr_text text) = false
  /\ normalize_ocr_text (Py.lower text) = normalize_ocr_text text
  /\ normalize_ocr_text (text +:+ other)
     = normalize_ocr_text text +:+ normalize_ocr_text other.
Proof.
  rewrite !normalize_ocr_text_map. split; [|split; [|split]].
  - unfold Py.len. now rewrite str_map_length.
  - apply any_map, normalize_char_not_confusable.
  - unfold Py.lower. rewrite str_map_map.
    apply str_map_ext, normalize_char_lower.
  - apply str_map_app.
Qed.




(** ** Cleaning a player name *)

Lemma split_go_words (p : ascii -> bool) (s : string) :
  Py.all (fun c => Py.isspace c || p c) s = true ->
  Py.any Py.isspace (fst (Py.split_go s)) = false
  /\ Py.all p (fst (Py.split_go s)) = true
  /\ Forall (fun w => word w /\ Py.all p w = true) (snd (Py.split_go s)).
Proof.
  induction s as [|c s IH]; intros Hall.
  - cbn. repeat split. constructor.
  - cbn [Py.all] in Hall. apply andb_true_iff in Hall as [Hc Hall].
    destruct (IH Hall) as (Hspace & Hp & Hwords). cbn [Py.split_go].
    destruct (Py.split_go s) as [w ws]. cbn [fst snd] in *.
    destruct (Py.isspace c) eqn:Hsp; cbn [fst snd].
    + repeat split. destruct w as [|d w]; [exact Hwords|].
      cbn [Py.push_word]. constructor; [|exact Hwords].
      split; [split; [discriminate | exact Hspace] | exact Hp].
    + cbn [orb] in Hc. cbn [Py.any Py.all]. rewrite Hsp, Hc, Hspace, Hp.
      repeat split. exact Hwords.
Qed.

Lemma split_words (p : ascii -> bool) (s : string) :
  Py.all (fun c => Py.isspace c || p c) s = true ->
  Forall (fun w => word w /\ Py.all p w = true) (Py.split s).
Proof.
  intros Hall. destruct (split_go_words p s Hall) as (Hspace & Hp & Hwords).
  unfold Py.split. destruct (Py.split_go s) as [w ws]. cbn [fst snd] in *.
  destruct w as [|d w]; [exact Hwords|].
  cbn [Py.push_word]. constructor; [|exact Hwords].
  split; [split; [discriminate | exact Hspace] | exact Hp].
Qed.

Lemma split_go_app_word (w rest : string) :
  Py.any Py.isspace w = false ->
  Py.split_go (w +:+ rest)
  = (w +:+ fst (Py.split_go rest), snd (Py.split_go rest)).
Proof.
  induction w as [|c w IH]; intros Hspace.
  - rewrite !str_app_nil_l. now destruct (Py.split_go rest).
  - cbn [Py.any] in Hspace. apply orb_false_iff in Hspace as [Hc Hspace].
    rewrite str_app_cons. cbn [Py.split_go]. rewrite (IH Hspace), Hc.
    now rewrite str_app_cons.
Qed.

Lemma str_app_nil_r (s : string) : s +:+ "" = s.
Proof. induction s as [|c s IH]; [reflexivity|]. now rewrite str_app_cons, IH. Qed.

Lemma join_cons (w w' : string) (ws : list string) :
  Py.join " " (w :: w' :: ws) = w +:+ " " +:+ Py.join " " (w' :: ws).
Proof. reflexivity. Qed.

Lemma split_go_join (w : string) (ws : list string) :
  Forall word (w :: ws) -> Py.split_go (Py.join " " (w :: ws)) = (w, ws).
Proof.
  revert w. induction ws as [|w' ws IH]; intros w Hwords.
  - apply Forall_cons in Hwords as [[_ Hspace] _].
    change (Py.join " " [w]) with w.
    rewrite <- (str_app_nil_r w) at 1. rewrite split_go_app_word by assumption.
    cbn. now rewrite str_app_nil_r.
  - apply Forall_cons in Hwords as [[_ Hspace] Hwords].
    rewrite join_cons, split_go_app_word by assumption.
    rewrite str_app_cons, str_app_nil_l. cbn [Py.split_go].
    rewrite (IH w' Hwords).
    replace (Py.isspace " ") with true by reflexivity. cbn [fst snd].
    rewrite str_app_nil_r. f_equal.
    apply Forall_cons in Hwords as [[Hne _] _].
    destruct w'; [contradiction | reflexivity].
Qed.

Lemma split_join (ws : list string) :
  Forall word ws -> Py.split (Py.join " " ws) = ws.
Proof.
  destruct ws as [|w ws]; [reflexivity|]. intros Hwords.
  unfold Py.split. rewrite split_go_join by assumption.
  apply Forall_cons in Hwords as [[Hne _] _].
  destruct w; [contradiction | reflexivity].
Qed.

Lemma rstrip_word (w : string) : Py.any Py.isspace w = false -> Py.rstrip w = w.
Proof.
  induction w as [|c w IH]; [reflexivity|]. cbn [Py.any]. intros Hspace.
  apply orb_false_iff in Hspace as [Hc Hspace]. cbn [Py.rstrip].
  rewrite (IH Hspace), Hc. now destruct w.
Qed.

Lemma rstrip_app_word (a w : string) :
  word w -> Py.rstrip (a +:+ w) = a +:+ w.
Proof.
  intros [Hne Hspace]. induction a as [|c a IH].
  - rewrite str_app_nil_l. now apply rstrip_word.
  - rewrite str_app_cons. cbn [Py.rstrip]. rewrite IH.
    destruct (a +:+ w) eqn:Happ; [|reflexivity].
    destruct a; [|discriminate]. rewrite str_app_nil_l in Happ. contradiction.
Qed.

Lemma join_ends_with_word (w : string) (ws : list string) :
  Forall word (w :: ws) ->
  exists a last, word last /\ Py.join " " (w :: ws) = a +:+ last.
Proof.
  revert w. induction ws as [|w' ws IH]; intros w Hwords.
  - exists "", w. apply Forall_cons in Hwords as [Hw _]. now split.
  - apply Forall_cons in Hwords as [_ Hwords].
    destruct (IH w' Hwords) as (a & last & Hlast & Hjoin).
    exists (w +:+ " " +:+ a), last. split; [assumption|].
    now rewrite join_cons, Hjoin, !str_app_assoc.
Qed.

Lemma strip_join (ws : list string) :
  Forall word ws -> Py.strip (Py.join " " ws) = Py.join " " ws.
Proof.
  destruct ws as [|w ws]; [reflexivity|]. intros Hwords. unfold Py.strip.
  assert (Py.lstrip (Py.join " " (w :: ws)) = Py.join " " (w :: ws)) as ->.
  { pose proof Hwords as Hw. apply Forall_cons in Hw as [[Hne Hspace] _].
    destruct w as [|c w]; [contradiction|].
    cbn [Py.any] in Hspace. apply orb_false_iff in Hspace as [Hc _].
    destruct ws as [|w' ws].
    - change (Py.join " " [String c w]) with (String c w).
      cbn [Py.lstrip]. now rewrite Hc.
    - rewrite join_cons, str_app_cons. cbn [Py.lstrip]. now rewrite Hc. }
  destruct (join_ends_with_word w ws Hwords) as (a & last & Hlast & ->).
  now apply rstrip_app_word.
Qed.

Lemma filter_app (p : ascii -> bool) (s t : string) :
  Py.filter p (s +:+ t) = Py.filter p s +:+ Py.filter p t.
Proof.
  induction s as [|c s IH]; [reflexivity|].
  rewrite str_app_cons. cbn [Py.filter]. rewrite IH.
  now destruct (p c).
Qed.

Lemma filter_all (p : ascii -> bool) (s : string) :
  Py.all p s = true -> Py.filter p s = s.
Proof.
  induction s as [|c s IH]; [reflexivity|]. cbn [Py.all Py.filter].
  intros H. apply andb_true_iff in H as [-> H]. now rewrite IH.
Qed.

Lemma all_filter (p : ascii -> bool) (s : string) :
  Py.all p (Py.filter p s) = true.
Proof.
  induction s as [|c s IH]; [reflexivity|]. cbn [Py.filter].
  destruct (p c) eqn:Hc; [|exact IH]. cbn [Py.all]. now rewrite Hc, IH.
Qed.

Lemma all_impl (p q : ascii -> bool) (s : string) :
  (forall c, p c = true -> q c = true) ->
  Py.all p s = true -> Py.all q s = true.
Proof.
  intros Hpq. induction s as [|c s IH]; [reflexivity|]. cbn [Py.all].
  intros H. apply andb_true_iff in H as [Hc H]. now rewrite (Hpq c Hc), IH.
Qed.

Lemma filter_join (p : ascii -> bool) (ws : list string) :
  p " "%char = true -> Forall (fun w => Py.all p w = true) ws ->
  Py.filter p (Py.join " " ws) = Py.join " " ws.
Proof.
  intros Hspace. induction ws as [|w ws IH]; intros Hwords; [reflexivity|].
  apply Forall_cons in Hwords as [Hw Hwords]. destruct ws as [|w' ws].
  - now apply filter_all.
  - rewrite join_cons, !filter_app, (filter_all p w Hw), (IH Hwords).
    cbn [Py.filter]. now rewrite Hspace.
Qed.

(** The characters that the first step of [clean_player_name] keeps. *)
Lemma kept_char_cases (c : ascii) :
  Py.word_char c || Py.isspace c || Py.is_code 45 c = true ->
  Py.isspace c || name_char c = true.
Proof. unfold name_char. destruct (Py.word_char c), (Py.isspace c); auto. Qed.

Lemma name_char_kept (c : ascii) :
  name_char c = true ->
  Py.word_char c || Py.isspace c || Py.is_code 45 c = true.
Proof. unfold name_char. destruct (Py.word_char c), (Py.isspace c); auto. Qed.

(** X9.  A cleaned name is a list of words joined by single spaces, each
    word non-empty and made of word characters and hyphens only (so
    there is no space at either end and the final [strip] removes
    nothing); cleaning a cleaned name changes nothing; and a name of
    letters, digits and underscores only is left as it is. *)
Theorem clean_player_name_shape (name : string) :
  (exists words : list string,
      clean_player_name name = Py.join " " words
      /\ Forall (fun w => word w /\ Py.all name_char w = true) words)
  /\ clean_player_name (clean_player_name name) = clean_player_name name
  /\ (Py.all Py.ident_char name = true -> clean_player_name name = name).
Proof.
  set (keep := fun c => Py.word_char c || Py.isspace c || Py.is_code 45 c).
  assert (forall s,
             Forall (fun w => word w /\ Py.all name_char w = true)
               (Py.split (Py.filter keep s))) as Hsplit.
  { intros s. apply split_words.
    apply (all_impl keep); [apply kept_char_cases | apply all_filter]. }
  assert (forall ws,
             Forall (fun w => word w /\ Py.all name_char w = true) ws ->
             Forall word ws) as Hword
    by (intros ws H; eapply Forall_impl; [exact H|]; intros w [Hw _];
        exact Hw).
  assert (forall s, clean_player_name s
                    = Py.join " " (Py.split (Py.filter keep s))) as Hclean.
  { intros s. unfold clean_player_name. fold keep.
    apply strip_join, Hword, Hsplit. }
  split; [|split].
  - eexists. split; [apply Hclean | apply Hsplit].
  - rewrite (Hclean (clean_player_name name)), (Hclean name).
    rewrite filter_join.
    + rewrite split_join; [reflexivity | apply Hword, Hsplit].
    + reflexivity.
    + eapply Forall_impl; [apply Hsplit|]. intros w [_ Hw].
      apply (all_impl name_char); [apply name_char_kept | exact Hw].
  - intros Hident. rewrite Hclean.
    rewrite filter_all
      by (apply (all_impl Py.ident_char); [|exact Hident];
          intros c Hc; unfold keep; now rewrite ident_char_word_char).
    destruct name as [|c name]; [reflexivity|].
    assert (word (String c name)) as Hw.
    { split; [discriminate|].
      clear Hclean Hsplit. induction (String c name) as [|d s IH];
        [reflexivity|].
      cbn [Py.all] in Hident. apply andb_true_iff in Hident as [Hd Hs].
      cbn [Py.any]. now rewrite (ident_char_not_space d Hd), IH. }
    assert (Py.split (String c name) = [String c name]) as ->
      by (apply (split_join [String c name]); now constructor).
    reflexivity.
Qed.

(** "Pl4yer0ne" is left as it is. *)
Lemma clean_player_name_shape_witness :
  clean_player_name "Pl4yer0ne" = "Pl4yer0ne".
Proof.
  apply (clean_player_name_shape "Pl4yer0ne"). vm_compute. reflexivity.
Defined.

(** ** More on the parser *)

Lemma take_while_all (p : ascii -> bool) (s : string) :
  Py.all p (Py.take_while p s) = true.
Proof.
  induction s as [|c s IH]; [reflexivity|]. cbn [Py.take_while].
  destruct (p c) eqn:Hc; [|reflexivity]. cbn [Py.all]. now rewrite Hc, IH.
Qed.

Lemma substring_whole (s : string) :
  String.substring 0 (String.length s) s = s.
Proof. induction s as [|c s IH]; [reflexivity|]. cbn. now rewrite IH. Qed.

Lemma take_while_rest (p : ascii -> bool) (s : string) :
  Py.take_while p s
  +:+ String.substring (String.length (Py.take_while p s))
        (String.length s - String.length (Py.take_while p s)) s
  = s.
Proof.
  induction s as [|c s IH]; [reflexivity|]. cbn [Py.take_while].
  destruct (p c).
  - rewrite str_app_cons. cbn [String.length String.substring Nat.sub].
    now rewrite IH.
  - rewrite str_app_nil_l. cbn [String.length]. rewrite Nat.sub_0_r.
    apply (substring_whole (String c s)).
Qed.

Lemma all_app (p : ascii -> bool) (s t : string) :
  Py.all p (s +:+ t) = Py.all p s && Py.all p t.
Proof.
  induction s as [|c s IH]; [reflexivity|].
  rewrite str_app_cons. cbn [Py.all]. now rewrite IH, andb_assoc.
Qed.

(** On a string of word characters the pattern of a username matches
    only identifiers: the newline that [$] tolerates cannot occur. *)
Lemma match_username_word (s : string) :
  Py.all Py.word_char s = true -> Py.match_username s = true ->
  (3 <=? Py.len s) = true -> username s = true.
Proof.
  destruct s as [|c s]; [discriminate|]. cbn [Py.all Py.match_username username].
  intros Hword Hmatch Hlen.
  apply andb_true_iff in Hword as [_ Hword].
  apply andb_true_iff in Hmatch as [-> Hmatch]. cbv zeta in Hmatch.
  pose proof (take_while_rest Py.ident_char s) as Hsplit.
  pose proof (take_while_all Py.ident_char s) as Hbody.
  set (body := Py.take_while Py.ident_char s) in *.
  set (rest := String.substring _ _ s) in *.
  assert (Py.all Py.ident_char s = true) as ->.
  { apply orb_true_iff in Hmatch as [Hrest|Hrest];
      apply String.eqb_eq in Hrest; rewrite Hrest in Hsplit.
    - rewrite str_app_nil_r in Hsplit. now rewrite <- Hsplit.
    - rewrite <- Hsplit, all_app in Hword.
      apply andb_true_iff in Hword as [_ Hword]. discriminate. }
  cbn [andb]. apply Z.leb_le in Hlen. unfold Py.len in Hlen.
  cbn [String.length] in Hlen. apply Nat.leb_le. lia.
Qed.

Lemma username_ident (name : string) :
  username name = true -> Py.all Py.ident_char name = true.
Proof.
  destruct name as [|c name]; [discriminate|]. cbn [username Py.all].
  intros H. apply andb_true_iff in H as [H _].
  apply andb_true_iff in H as [Hc ->]. unfold Py.ident_char. now rewrite Hc.
Qed.

Lemma find_player_name_accepted (tokens : list string) (name : string) :
  find_player_name tokens = Some name -> accepted_name name.
Proof.
  induction tokens as [|token tokens IH]; [discriminate|].
  cbn [find_player_name]. cbv zeta.
  set (token_clean := Py.filter Py.word_char token).
  destruct (Py.upper_in token placement_indicators); [exact IH|].
  destruct (fuzzy_match_any token_clean header_keywords) eqn:Hheader;
    [exact IH|].
  destruct (Py.in_list (Py.lower token_clean) ignore_words) eqn:Hignore;
    [exact IH|].
  destruct (Py.match_username token_clean) eqn:Hmatch; [|exact IH].
  destruct (3 <=? Py.len token_clean) eqn:Hlen; [|exact IH].
  cbn [andb]. intros [= <-].
  assert (username token_clean = true) as Huser
    by (apply match_username_word; [apply all_filter | assumption..]).
  destruct (clean_player_name_shape token_clean) as (_ & _ & Hsame).
  rewrite (Hsame (username_ident _ Huser)). now repeat split.
Qed.

Lemma findall_go_usernames (s : string) :
  forall skip : nat, Forall (fun name => username name = true)
                       (Py.findall_go skip s).
Proof.
  induction s as [|c s IH]; intros skip; [constructor|].
  cbn [Py.findall_go]. destruct skip as [|k]; [|apply IH].
  destruct (Py.ascii_letter c) eqn:Hc; [|apply IH]. cbv zeta.
  destruct (2 <=? String.length (Py.take_while Py.ident_char s))%nat eqn:Hlen;
    [|apply IH].
  constructor; [|apply IH]. cbn [username].
  now rewrite Hc, take_while_all, Hlen.
Qed.

Lemma pick_name_accepted (results : list (string * Z))
    (candidates : list string) (name : string) :
  Forall (fun name => username name = true) candidates ->
  pick_name results candidates = Some name -> accepted_name name.
Proof.
  induction candidates as [|c candidates IH]; intros Husers; [discriminate|].
  apply Forall_cons in Husers as [Huser Husers]. cbn [pick_name].
  destruct (fuzzy_match_any c header_keywords) eqn:Hheader; [now apply IH|].
  destruct (Py.in_list (Py.lower c) ignore_words) eqn:Hignore; [now apply IH|].
  destruct (listed c results); [now apply IH|].
  intros [= <-]. now repeat split.
Qed.

Lemma names_app (l k : list (string * Z)) : names (l ++ k) = names l ++ names k.
Proof. apply map_app. Qed.

Lemma strict_line_accepted (st : parse_state) (line : string) :
  Forall accepted_name (names (ps_results st)) ->
  Forall accepted_name (names (ps_results (strict_line st line))).
Proof.
  intros Hok. unfold strict_line.
  destruct (fuzzy_match_any line ["place"; "player"]); [exact Hok|].
  destruct (fuzzy_match_any line header_keywords && negb (Py.any Py.isdigit line));
    [exact Hok|].
  destruct (find_player_name (Py.split line)) as [player_name|] eqn:Hfind;
    [|exact Hok].
  destruct (negb (String.eqb player_name "") && (3 <=? Py.len player_name));
    [|exact Hok].
  destruct (listed player_name (ps_results st)); [exact Hok|].
  cbn [negb accept ps_results]. rewrite names_app. apply Forall_app.
  split; [exact Hok|]. constructor; [|constructor].
  eapply find_player_name_accepted, Hfind.
Qed.

Lemma aggressive_line_accepted (st : parse_state) (line : string) :
  Forall accepted_name (names (ps_results st)) ->
  Forall accepted_name (names (ps_results (aggressive_line st line))).
Proof.
  intros Hok. unfold aggressive_line.
  destruct (fuzzy_match_any line ["place"; "player"]); [exact Hok|].
  destruct (pick_name (ps_results st) (Py.findall_names line)) as [name|]
    eqn:Hpick; [|exact Hok].
  cbn [accept ps_results]. rewrite names_app. apply Forall_app.
  split; [exact Hok|]. constructor; [|constructor].
  eapply pick_name_accepted; [|exact Hpick]. apply findall_go_usernames.
Qed.

Lemma strict_line_grows (st : parse_state) (line : string) :
  (length (ps_results (strict_line st line))
   <= S (length (ps_results st)))%nat.
Proof.
  unfold strict_line.
  repeat match goal with
         | |- context [if ?b then _ else _] => destruct b
         | |- context [match ?o with Some _ => _ | None => _ end] => destruct o
         end;
    cbn [accept ps_results]; rewrite ?length_app; cbn [length]; lia.
Qed.

Lemma aggressive_line_grows (st : parse_state) (line : string) :
  (length (ps_results (aggressive_line st line))
   <= S (length (ps_results st)))%nat.
Proof.
  unfold aggressive_line.
  repeat match goal with
         | |- context [if ?b then _ else _] => destruct b
         | |- context [match ?o with Some _ => _ | None => _ end] => destruct o
         end;
    cbn [accept ps_results]; rewrite ?length_app; cbn [length]; lia.
Qed.

Lemma fold_left_grows (step : parse_state -> string -> parse_state)
    (lines : list string) :
  (forall st line,
      (length (ps_results (step st line)) <= S (length (ps_results st)))%nat) ->
  forall st,
    (length (ps_results (fold_left step lines st))
     <= length (ps_results st) + length lines)%nat.
Proof.
  intros Hstep. induction lines as [|line lines IH]; intros st; cbn [fold_left].
  - cbn. lia.
  - specialize (IH (step st line)). specialize (Hstep st line).
    cbn [length]. lia.
Qed.

(** The parser returns the result list of one of its two passes. *)
Lemma parse_marbles_screenshot_pass (text : string) :
  exists st : parse_state,
    (st = strict_pass (clean_lines text)
     \/ exists header_found,
          st = aggressive_pass header_found (clean_lines text))
    /\ parse_marbles_screenshot text
       = match ps_results st with
         | [] => None
         | results =>
             Some {| total_players := py_len results; results := results |}
         end.
Proof.
  unfold parse_marbles_screenshot.
  destruct (py_len (ps_results (strict_pass (clean_lines text))) <? 2).
  - eexists. split; [right; eexists; reflexivity | reflexivity].
  - eexists. split; [left; reflexivity | reflexivity].
Qed.

Lemma parsed_names_accepted (text : string) (r : Ranking) :
  parse_marbles_screenshot text = Some r ->
  Forall accepted_name (names (results r)).
Proof.
  intros Hparse.
  destruct (parse_marbles_screenshot_pass text) as (st & Hpass & Heq).
  rewrite Heq in Hparse.
  assert (Forall accepted_name (names (ps_results st))) as Hok.
  { destruct Hpass as [-> | [header_found ->]].
    - unfold strict_pass.
      apply (fold_left_preserves
               (fun st => Forall accepted_name (names (ps_results st))));
        [apply strict_line_accepted | constructor].
    - unfold aggressive_pass.
      apply (fold_left_preserves
               (fun st => Forall accepted_name (names (ps_results st))));
        [apply aggressive_line_accepted | constructor]. }
  destruct (ps_results st) as [|entry entries]; [discriminate|].
  injection Hparse as <-. exact Hok.
Qed.

(** X10.  Every name the parser returns is an ASCII letter followed by at
    least two letters, digits or underscores; it contains no header
    keyword, not even in a confusable spelling, and is none of the
    ignored words. *)
Theorem parse_marbles_screenshot_names (text : string) (r : Ranking) :
  parse_marbles_screenshot text = Some r ->
  Forall accepted_name (names (results r)).
Proof. apply parsed_names_accepted. Qed.

(** A results screen with a header: "Timmy" holds "tim" but no header
    keyword and is returned; "Winston" holds "wins" and is not. *)
Lemma parse_marbles_screenshot_names_witness :
  parse_marbles_screenshot "Place Player
1ST Timmy
2ND Winston
3RD Bob_2"
  = Some {| total_players := 2; results := [("Timmy", 1); ("Bob_2", 2)] |}
  /\ Forall accepted_name ["Timmy"; "Bob_2"].
Proof.
  assert (parse_marbles_screenshot "Place Player
1ST Timmy
2ND Winston
3RD Bob_2"
          = Some {| total_players := 2;
                    results := [("Timmy", 1); ("Bob_2", 2)] |}) as Hparse
    by (vm_compute; reflexivity).
  split; [exact Hparse|].
  apply (parse_marbles_screenshot_names _ _ Hparse).
Defined.

(** X11.  The parser returns at most one player for each line of the text
    that is longer than two characters once stripped, hence at most one
    for each line. *)
Theorem parse_marbles_screenshot_one_per_line (text : string) (r : Ranking) :
  parse_marbles_screenshot text = Some r ->
  total_players r = py_len (results r)
  /\ py_len (results r) <= py_len (clean_lines text)
  /\ py_len (clean_lines text) <= py_len (Py.split_on "010" text).
Proof.
  intros Hparse.
  destruct (parse_marbles_screenshot_pass text) as (st & Hpass & Heq).
  rewrite Heq in Hparse.
  assert (length (ps_results st) <= length (clean_lines text))%nat as Hlen.
  { destruct Hpass as [-> | [header_found ->]].
    - unfold strict_pass.
      apply (fold_left_grows strict_line _ strict_line_grows parse_init).
    - unfold aggressive_pass.
      apply (fold_left_grows aggressive_line _ aggressive_line_grows
               {| ps_results := []; ps_position := 0;
                  ps_header_found := header_found |}). }
  destruct (ps_results st) as [|entry entries] eqn:Hresults; [discriminate|].
  injection Hparse as <-. cbn [total_players results].
  split; [reflexivity|]. split; [unfold py_len; lia|].
  unfold clean_lines, py_len.
  pose proof (List.filter_length_le
                (fun line => negb (String.eqb line "") && (2 <? Py.len line))
                (List.map Py.strip (Py.split_on "010" text))) as Hfilter.
  rewrite length_map in Hfilter. lia.
Qed.

(** Three lines, one of them too short to count: at most two players. *)
Lemma parse_marbles_screenshot_one_per_line_witness :
  exists r : Ranking,
    parse_marbles_screenshot "alice bob
xy
carol dave" = Some r
    /\ py_len (results r) <= 2.
Proof.
  eexists. split; [vm_compute; reflexivity|].
  eapply Z.le_trans.
  - refine (proj1 (proj2 (parse_marbles_screenshot_one_per_line "alice bob
xy
carol dave" _ _))). vm_compute. reflexivity.
  - vm_compute. discriminate.
Defined.

(** ** The board in key order *)

Lemma board_items_cons (name : string) (order : list string)
    (board : gmap string Z) :
  board_items (name :: order) board
  = match board !! name with
    | Some bounty => (name, bounty) :: board_items order board
    | None => board_items order board
    end.
Proof. unfold board_items. cbn. now destruct (board !! name). Qed.

Lemma elem_of_board_items (order : list string) (board : gmap string Z)
    (name : string) (bounty : Z) :
  (name, bounty) ∈ board_items order board
  <-> name ∈ order /\ board !! name = Some bounty.
Proof.
  unfold board_items. rewrite list_elem_of_omap. split.
  - intros (key & Hkey & Hpair).
    destruct (board !! key) as [b|] eqn:Hb; [|discriminate].
    cbn in Hpair. injection Hpair as <- <-. now split.
  - intros [Hname Hbounty]. exists name. split; [assumption|].
    now rewrite Hbounty.
Qed.

Lemma names_board_items (order : list string) (board : gmap string Z) :
  names (board_items order board)
  = List.filter (fun name => bool_decide (is_Some (board !! name))) order.
Proof.
  induction order as [|name order IH]; [reflexivity|].
  rewrite board_items_cons. cbn [List.filter].
  destruct (board !! name) as [bounty|] eqn:Hb.
  - rewrite bool_decide_eq_true_2 by (now exists bounty).
    cbn [names List.map fst]. f_equal. exact IH.
  - rewrite bool_decide_eq_false_2 by (intros [b Hsome]; discriminate).
    exact IH.
Qed.

Lemma board_items_names (order : list string) (board : gmap string Z) :
  key_order order board -> names (board_items order board) = order.
Proof.
  intros [_ Hkeys]. rewrite names_board_items.
  assert (forall name, name ∈ order -> is_Some (board !! name)) as Hall
    by (intros name; apply Hkeys).
  clear Hkeys. induction order as [|name order IH]; [reflexivity|].
  cbn [List.filter].
  rewrite bool_decide_eq_true_2 by (apply Hall; left).
  f_equal. apply IH. intros other Hother. apply Hall. now right.
Qed.

(** In key order the items of the board are its entries, each once. *)
Lemma board_items_perm (order : list string) (board : gmap string Z) :
  key_order order board -> board_items order board ≡ₚ map_to_list board.
Proof.
  intros Horder. pose proof Horder as [Hnodup Hkeys].
  apply NoDup_Permutation.
  - apply (NoDup_fmap_1 fst). change (NoDup (names (board_items order board))).
    now rewrite board_items_names.
  - apply NoDup_map_to_list.
  - intros [name bounty]. rewrite elem_of_board_items, elem_of_map_to_list.
    split; [now intros [_ H]|]. intros H. split; [|assumption].
    apply Hkeys. now exists bounty.
Qed.

(** A board built from a list of entries with distinct names has the
    names of the list as its key order. *)
Lemma key_order_list_to_map (items : list (string * Z)) :
  NoDup (names items) -> key_order (names items) (list_to_map items).
Proof.
  intros Hnodup. split; [assumption|]. intros name.
  rewrite <- not_eq_None_Some.
  rewrite <- (not_elem_of_list_to_map (M := gmap string) items name).
  split; [tauto|]. intros Hnot.
  destruct (decide (name ∈ names items)) as [Hin|Hout]; [assumption|].
  now destruct Hnot.
Qed.

Lemma find_ignoring_case_first (player : string) (order : list string)
    (board : gmap string Z) (name : string) (bounty : Z) :
  find_ignoring_case player (board_items order board) = Some (name, bounty) ->
  board !! name = Some bounty
  /\ Py.lower name = Py.lower player
  /\ exists before after : list string,
       order = before ++ name :: after
       /\ forall other, other ∈ before -> is_Some (board !! other) ->
                        Py.lower other <> Py.lower player.
Proof.
  unfold find_ignoring_case. cbv zeta.
  induction order as [|key order IH]; [discriminate|].
  rewrite board_items_cons.
  destruct (board !! key) as [b|] eqn:Hb.
  - cbn [List.find fst].
    destruct (String.eqb_spec (Py.lower key) (Py.lower player)) as [Heq|Hne].
    + intros [= <- <-]. repeat split; try assumption.
      exists [], order. split; [reflexivity|]. intros other Hin.
      now apply elem_of_nil in Hin.
    + intros Hfind. destruct (IH Hfind) as (H1 & H2 & before & after & -> & H3).
      repeat split; try assumption. exists (key :: before), after.
      split; [reflexivity|]. intros other Hin Hsome.
      apply elem_of_cons in Hin as [-> | Hin]; [assumption | now apply H3].
  - intros Hfind. destruct (IH Hfind) as (H1 & H2 & before & after & -> & H3).
    repeat split; try assumption. exists (key :: before), after.
    split; [reflexivity|]. intros other Hin [b' Hsome].
    apply elem_of_cons in Hin as [-> | Hin]; [congruence|].
    apply H3; [assumption | now exists b'].
Qed.

Lemma find_ignoring_case_none (player : string) (order : list string)
    (board : gmap string Z) :
  find_ignoring_case player (board_items order board) = None ->
  forall name, name ∈ order -> is_Some (board !! name) ->
               Py.lower name <> Py.lower player.
Proof.
  unfold find_ignoring_case. cbv zeta.
  induction order as [|key order IH]; intros Hfind name Hin Hsome.
  - now apply elem_of_nil in Hin.
  - rewrite board_items_cons in Hfind.
    destruct (board !! key) as [b|] eqn:Hb.
    + cbn [List.find fst] in Hfind.
      destruct (String.eqb_spec (Py.lower key) (Py.lower player)) as [Heq|Hne];
        [discriminate|].
      apply elem_of_cons in Hin as [-> | Hin]; [assumption | now apply IH].
    + apply elem_of_cons in Hin as [-> | Hin]; [|now apply IH].
      destruct Hsome as [b' Hsome]. congruence.
Qed.

(** X12.  The bounty commands, slash and text, answer alike and change
    nothing.  The player they name is the key equal to the argument if
    there is one, whatever other spellings the board holds; otherwise
    the first key, in the order of the board, that equals the argument
    when case is ignored; and they report no player only if no key does. *)
Theorem bounty_slash_spec (order : list string) (player : string)
    (st : state) :
  key_order order (bounty_board st) ->
  exists reply : option (string * Z),
    bounty_slash order player st = (Ok reply, st)
    /\ show_bounty order player st = (Ok reply, st)
    /\ match reply with
       | Some (name, bounty) =>
           bounty_board st !! name = Some bounty
           /\ Py.lower name = Py.lower player
           /\ (is_Some (bounty_board st !! player) -> name = player)
           /\ exists before after : list string,
                order = before ++ name :: after
                /\ (name <> player ->
                    forall other, other ∈ before ->
                                  Py.lower other <> Py.lower player)
       | None =>
           forall name, is_Some (bounty_board st !! name) ->
                        Py.lower name <> Py.lower player
       end.
Proof.
  intros [Hnodup Hkeys]. unfold bounty_slash, show_bounty, bind, get_board, ret.
  destruct (bounty_board st !! player) as [bounty|] eqn:Hexact.
  - exists (Some (player, bounty)). repeat split; try assumption.
    assert (player ∈ order) as Hin by (apply Hkeys; now exists bounty).
    apply list_elem_of_split in Hin as (before & after & ->).
    exists before, after. split; [reflexivity|]. now intros Hne.
  - destruct (find_ignoring_case player (board_items order (bounty_board st)))
      as [[name bounty]|] eqn:Hfind.
    + exists (Some (name, bounty)). split; [reflexivity|].
      split; [reflexivity|].
      destruct (find_ignoring_case_first _ _ _ _ _ Hfind)
        as (Hname & Hlower & before & after & -> & Hfirst).
      repeat split; try assumption.
      * intros [b Hsome]. discriminate.
      * exists before, after. split; [reflexivity|].
        intros _ other Hother. apply Hfirst; [assumption|].
        apply Hkeys. apply elem_of_app. now left.
    + exists None. split; [reflexivity|]. split; [reflexivity|].
      intros name Hsome.
      apply (find_ignoring_case_none _ _ _ Hfind); [|assumption].
      now apply Hkeys.
Qed.

(** A board with two spellings of a name: each is found as it is
    written, and a third spelling finds the older one. *)
Lemma bounty_slash_spec_witness :
  exists reply : option (string * Z),
    bounty_slash ["Bob"; "bob"] "BOB"
      {| bounty_board := list_to_map [("Bob", 30); ("bob", -20)];
         last_game_data := None |}
    = (Ok reply, {| bounty_board := list_to_map [("Bob", 30); ("bob", -20)];
                    last_game_data := None |})
    /\ reply = Some ("Bob", 30).
Proof.
  assert (key_order ["Bob"; "bob"]
            (list_to_map [("Bob", 30); ("bob", -20)])) as Horder
    by (apply (key_order_list_to_map [("Bob", 30); ("bob", -20)]);
        by_decision).
  destruct (bounty_slash_spec ["Bob"; "bob"] "BOB"
              {| bounty_board := list_to_map [("Bob", 30); ("bob", -20)];
                 last_game_data := None |} Horder)
    as (reply & Hrun & _ & _).
  exists reply. split; [exact Hrun|].
  vm_compute in Hrun. now injection Hrun as <-.
Defined.

(** X13.  [remove_player] removes the player that the bounty command names
    for the same argument, and no other: the new board is the old one
    without that key, so its total falls by that bounty, the argument
    itself is no key any more, and the last game is as it was.  Other
    spellings of the name stay. *)
Theorem remove_player_spec (order : list string) (player : string)
    (st : state) :
  key_order order (bounty_board st) ->
  exists (reply : option (string * Z)) (st' : state),
    bounty_slash order player st = (Ok reply, st)
    /\ remove_player order player st = (Ok reply, st')
    /\ last_game_data st' = last_game_data st
    /\ bounty_board st' !! player = None
    /\ match reply with
       | Some (name, bounty) =>
           bounty_board st' = delete name (bounty_board st)
           /\ board_total (bounty_board st')
              = board_total (bounty_board st) - bounty
       | None => bounty_board st' = bounty_board st
       end.
Proof.
  intros Horder.
  destruct (bounty_slash_spec order player st Horder)
    as (reply & Hrun & _ & Hreply).
  exists reply. revert Hrun.
  unfold bounty_slash, remove_player, bind, get_board, ret, set_board,
    save_bounty_board.
  destruct (bounty_board st !! player) as [bounty|] eqn:Hexact.
  - intros [= <-]. eexists. split; [reflexivity|]. split; [reflexivity|].
    cbn [bounty_board last_game_data]. split; [reflexivity|].
    split; [apply lookup_delete_eq|]. split; [reflexivity|].
    now apply board_total_delete.
  - destruct (find_ignoring_case player (board_items order (bounty_board st)))
      as [[name bounty]|] eqn:Hfind; intros [= <-].
    + eexists. split; [reflexivity|]. split; [reflexivity|].
      cbn [bounty_board last_game_data]. split; [reflexivity|].
      destruct Hreply as (Hname & _).
      split; [|split; [reflexivity | now apply board_total_delete]].
      apply lookup_delete_None. now right.
    + exists st. now repeat split.
Qed.

Lemma remove_player_spec_witness :
  exists (reply : option (string * Z)) (st' : state),
    remove_player ["Bob"; "bob"] "BOB"
      {| bounty_board := list_to_map [("Bob", 30); ("bob", -20)];
         last_game_data := None |}
    = (Ok reply, st')
    /\ bounty_board st' !! "BOB" = None.
Proof.
  assert (key_order ["Bob"; "bob"]
            (list_to_map [("Bob", 30); ("bob", -20)])) as Horder
    by (apply (key_order_list_to_map [("Bob", 30); ("bob", -20)]);
        by_decision).
  destruct (remove_player_spec ["Bob"; "bob"] "BOB"
              {| bounty_board := list_to_map [("Bob", 30); ("bob", -20)];
                 last_game_data := None |} Horder)
    as (reply & st' & _ & Hrun & _ & Hgone & _).
  now exists reply, st'.
Defined.

(** ** The leaderboard, sorted *)

Lemma insert_by_bounty_perm (item : string * Z) (sorted : list (string * Z)) :
  insert_by_bounty item sorted ≡ₚ item :: sorted.
Proof.
  induction sorted as [|next rest IH]; [reflexivity|]. cbn [insert_by_bounty].
  destruct (snd next <=? snd item); [reflexivity|].
  rewrite IH. apply Permutation_swap.
Qed.

Lemma sorted_by_bounty_perm (items : list (string * Z)) :
  sorted_by_bounty items ≡ₚ items.
Proof.
  induction items as [|item items IH]; [reflexivity|].
  cbn [sorted_by_bounty foldr]. rewrite insert_by_bounty_perm.
  now apply Permutation_cons.
Qed.

Lemma insert_by_bounty_sorted (item : string * Z)
    (sorted : list (string * Z)) :
  StronglySorted (fun a b => snd b <= snd a) sorted ->
  StronglySorted (fun a b => snd b <= snd a) (insert_by_bounty item sorted).
Proof.
  induction sorted as [|next rest IH]; intros Hsorted.
  - repeat constructor.
  - cbn [insert_by_bounty]. pose proof Hsorted as Hwhole.
    apply StronglySorted_inv in Hsorted as [Hrest Hnext].
    destruct (Z.leb_spec (snd next) (snd item)) as [Hle|Hlt].
    + constructor; [assumption|]. constructor; [assumption|].
      eapply List.Forall_impl; [|exact Hnext]. cbn. intros other Hother. lia.
    + constructor; [now apply IH|].
      rewrite insert_by_bounty_perm. constructor; [lia | assumption].
Qed.

Lemma sorted_by_bounty_sorted (items : list (string * Z)) :
  StronglySorted (fun a b => snd b <= snd a) (sorted_by_bounty items).
Proof.
  induction items as [|item items IH]; [constructor|].
  now apply insert_by_bounty_sorted.
Qed.

Lemma insert_by_bounty_stable (bounty : Z) (item : string * Z)
    (sorted : list (string * Z)) :
  List.filter (fun p => snd p =? bounty) (insert_by_bounty item sorted)
  = List.filter (fun p => snd p =? bounty) (item :: sorted).
Proof.
  induction sorted as [|next rest IH]; [reflexivity|]. cbn [insert_by_bounty].
  destruct (Z.leb_spec (snd next) (snd item)) as [Hle|Hlt]; [reflexivity|].
  cbn [List.filter] in *. rewrite IH.
  destruct (Z.eqb_spec (snd next) bounty) as [Hnext|Hnext];
    destruct (Z.eqb_spec (snd item) bounty) as [Hitem|Hitem];
    try reflexivity; lia.
Qed.

Lemma sorted_by_bounty_stable (bounty : Z) (items : list (string * Z)) :
  List.filter (fun p => snd p =? bounty) (sorted_by_bounty items)
  = List.filter (fun p => snd p =? bounty) items.
Proof.
  induction items as [|item items IH]; [reflexivity|].
  cbn [sorted_by_bounty foldr]. rewrite insert_by_bounty_stable.
  cbn [List.filter]. fold (sorted_by_bounty items). now rewrite IH.
Qed.

Lemma board_items_with_bounty (bounty : Z) (order : list string)
    (board : gmap string Z) :
  names (List.filter (fun p => snd p =? bounty) (board_items order board))
  = List.filter (fun name => bool_decide (board !! name = Some bounty)) order.
Proof.
  induction order as [|name order IH]; [reflexivity|].
  rewrite board_items_cons. cbn [List.filter].
  destruct (board !! name) as [b|] eqn:Hb.
  - cbn [List.filter snd]. destruct (Z.eqb_spec b bounty) as [->|Hne].
    + rewrite bool_decide_eq_true_2 by reflexivity.
      cbn [names List.map fst]. f_equal. exact IH.
    + rewrite bool_decide_eq_false_2 by congruence. exact IH.
  - rewrite bool_decide_eq_false_2 by congruence. exact IH.
Qed.

(** X14.  The sorted leaderboard lists every entry of the board exactly
    once, the higher bounty first, and players of the same bounty in
    the order of the board. *)
Theorem get_sorted_leaderboard_spec (order : list string)
    (board : gmap string Z) :
  key_order order board ->
  let leaderboard := LeaderboardEditView.get_sorted_leaderboard order board in
  leaderboard ≡ₚ map_to_list board
  /\ StronglySorted (fun a b => snd b <= snd a) leaderboard
  /\ forall bounty,
       names (List.filter (fun p => snd p =? bounty) leaderboard)
       = List.filter (fun name => bool_decide (board !! name = Some bounty))
           order.
Proof.
  intros Horder leaderboard. subst leaderboard.
  unfold LeaderboardEditView.get_sorted_leaderboard. split; [|split].
  - rewrite sorted_by_bounty_perm. now apply board_items_perm.
  - apply sorted_by_bounty_sorted.
  - intros bounty. rewrite sorted_by_bounty_stable.
    apply board_items_with_bounty.
Qed.

Lemma get_sorted_leaderboard_spec_witness :
  LeaderboardEditView.get_sorted_leaderboard ["al"; "bo"; "cy"; "di"]
    (list_to_map [("al", 10); ("bo", 300); ("cy", 10); ("di", -90)])
  ≡ₚ map_to_list
       (list_to_map [("al", 10); ("bo", 300); ("cy", 10); ("di", -90)]
        : gmap string Z).
Proof.
  apply (get_sorted_leaderboard_spec ["al"; "bo"; "cy"; "di"]
           (list_to_map [("al", 10); ("bo", 300); ("cy", 10); ("di", -90)])).
  apply (key_order_list_to_map
           [("al", 10); ("bo", 300); ("cy", 10); ("di", -90)]).
  by_decision.
Defined.

(** ** Pages *)

Lemma slice_length {A : Type} (l : list A) (p : Z) :
  py_len (slice (p * players_per_page)
            (p * players_per_page + players_per_page) l)
  <= players_per_page.
Proof.
  unfold slice, py_len, players_per_page. cbv zeta. rewrite length_take.
  set (len := Z.of_nat (length l)).
  assert (slice_index len (p * 25 + 25) - slice_index len (p * 25) <= 25)
    as Hwidth.
  { unfold slice_index.
    destruct (Z.ltb_spec (p * 25 + 25) 0), (Z.ltb_spec (p * 25) 0); lia. }
  lia.
Qed.

Lemma slice_page {A : Type} (l : list A) (p : Z) :
  0 <= p ->
  slice (p * players_per_page) (p * players_per_page + players_per_page) l
  = take 25 (drop (Z.to_nat p * 25) l).
Proof.
  intros Hp. unfold slice, py_len, players_per_page, slice_index. cbv zeta.
  destruct (Z.ltb_spec (p * 25 + 25) 0) as [|_]; [lia|].
  destruct (Z.ltb_spec (p * 25) 0) as [|_]; [lia|].
  destruct (Z_le_gt_dec (Z.of_nat (length l)) (p * 25)) as [Hshort|Hlong].
  - rewrite !Z.min_l by lia. rewrite !drop_ge by lia. now rewrite !take_nil.
  - rewrite (Z.min_r _ (p * 25)) by lia.
    replace (Z.to_nat (p * 25)) with (Z.to_nat p * 25)%nat by lia.
    destruct (Z_le_gt_dec (p * 25 + 25) (Z.of_nat (length l))) as [Hfull|Hpart].
    + rewrite Z.min_r by lia. f_equal. lia.
    + rewrite Z.min_l by lia. rewrite !take_ge; [reflexivity|..];
        rewrite length_drop; lia.
Qed.

Lemma pages_concat {A : Type} (n : nat) :
  forall l : list A,
    (length l <= n * 25)%nat ->
    mjoin ((fun p => take 25 (drop (p * 25) l)) <$> seq 0 n) = l.
Proof.
  induction n as [|n IH]; intros l Hlen.
  - destruct l; [reflexivity | cbn in Hlen; lia].
  - transitivity (take 25 l ++ drop 25 l); [|apply take_drop].
    rewrite <- (IH (drop 25 l)) by (rewrite length_drop; lia).
    cbn [seq]. rewrite fmap_cons, <- fmap_S_seq, <- list_fmap_compose.
    change (mjoin (?x :: ?xs)) with (x ++ mjoin xs).
    f_equal. f_equal. apply list_fmap_ext. intros _ p _.
    unfold compose. rewrite drop_drop. reflexivity.
Qed.

(** The pages up to a number that is enough for the list are the list
    cut into pieces. *)
Lemma pages_cover {A : Type} (l : list A) (total_pages : Z) :
  (py_len l + players_per_page - 1) / players_per_page <= total_pages ->
  mjoin ((fun p => slice (p * players_per_page)
                     (p * players_per_page + players_per_page) l)
         <$> range 0 total_pages)
  = l.
Proof.
  intros Htotal. unfold range, seqZ. rewrite <- list_fmap_compose.
  transitivity (mjoin ((fun p => take 25 (drop (p * 25) l))
                       <$> seq 0 (Z.to_nat (total_pages - 0)))).
  - f_equal. apply list_fmap_ext. intros _ p _. unfold compose.
    rewrite (slice_page l (Z.of_nat p + 0)) by lia.
    do 3 f_equal. lia.
  - apply pages_concat. unfold players_per_page, py_len in Htotal.
    assert (Z.of_nat (length l) <= 25 * ((Z.of_nat (length l) + 25 - 1) / 25))
      by (pose proof (Z.mul_succ_div_gt (Z.of_nat (length l) + 25 - 1) 25);
          lia).
    nia.
Qed.

Lemma page_not_empty {A : Type} (l : list A) (p : Z) :
  0 <= p < (py_len l + players_per_page - 1) / players_per_page ->
  slice (p * players_per_page) (p * players_per_page + players_per_page) l
  <> [].
Proof.
  intros [Hp Hlast]. rewrite (slice_page l p Hp).
  unfold players_per_page, py_len in Hlast.
  assert (p * 25 < Z.of_nat (length l)) as Hstart.
  { pose proof (Z.mul_div_le (Z.of_nat (length l) + 25 - 1) 25
                  ltac:(lia)) as Hdiv.
    set (q := (Z.of_nat (length l) + 25 - 1) / 25) in *. lia. }
  intros Hnil. apply (f_equal length) in Hnil.
  rewrite length_take, length_drop in Hnil.
  change (length (@nil A)) with 0%nat in Hnil. lia.
Qed.

Lemma names_mjoin (pages : list (list (string * Z))) :
  names (mjoin pages) = mjoin (names <$> pages).
Proof.
  induction pages as [|page pages IH]; [reflexivity|].
  cbn [mjoin list_join fmap list_fmap]. rewrite names_app. now f_equal.
Qed.

Lemma total_pages_pos {A : Type} (l : list A) :
  l <> [] -> 0 < (py_len l + players_per_page - 1) / players_per_page.
Proof.
  intros Hl. unfold players_per_page, py_len.
  destruct l as [|x l]; [contradiction|]. cbn [length].
  apply Z.div_str_pos. lia.
Qed.

(** ** The views *)









Lemma options_length (available : list (string * Z)) (p : Z) :
  py_len (names (slice (p * players_per_page)
                   (p * players_per_page + players_per_page) available))
  <= players_per_page.
Proof.
  unfold names, py_len. rewrite length_map. apply slice_length.
Qed.

Lemma names_not_nil (entries : list (string * Z)) :
  entries <> [] -> names entries <> [].
Proof. now destruct entries. Qed.

(** X16.  The select menus of the leaderboard view, over its pages, list
    the players not yet marked, each once, in the order of the sorted
    leaderboard.  No menu has more than 25 options, there is at least
    one page, and while a player is left every page has a menu. *)
Theorem leaderboard_pages (order : list string) (board : gmap string Z)
    (removed : list string) :
  let at_page p := {| removed_players := removed; page := p |} in
  let menu p :=
    options (LeaderboardEditView.update_view order board (at_page p)) in
  let available :=
    LeaderboardEditView.get_available_players order board (at_page 0) in
  let total_pages :=
    LeaderboardEditView.get_total_pages order board (at_page 0) in
  1 <= total_pages
  /\ mjoin (menu <$> range 0 total_pages) = names available
  /\ (forall p, py_len (menu p) <= 25)
  /\ (forall p, 0 <= p < total_pages -> available <> [] -> menu p <> []).
Proof.
  intros at_page menu available total_pages.
  assert (forall p, menu p
                    = match available with
                      | [] => []
                      | _ => names (slice (p * players_per_page)
                                      (p * players_per_page + players_per_page)
                                      available)
                      end) as Hmenu.
  { intros p. subst menu available. unfold LeaderboardEditView.update_view.
    cbv zeta. unfold LeaderboardEditView.get_available_players. cbv zeta.
    cbn [removed_players page].
    now destruct (List.filter _ _). }
  subst total_pages. unfold LeaderboardEditView.get_total_pages. cbv zeta.
  fold available. split; [lia|]. split; [|split].
  - rewrite (list_fmap_ext menu _ _ (fun _ p _ => Hmenu p)).
    destruct available as [|entry entries] eqn:Havailable.
    + change ((py_len (@nil (string * Z)) + players_per_page - 1)
              / players_per_page) with 0.
      reflexivity.
    + rewrite <- Havailable.
      rewrite (list_fmap_compose
                 (fun p => slice (p * players_per_page)
                             (p * players_per_page + players_per_page)
                             available) names).
      rewrite <- names_mjoin. f_equal. apply pages_cover. lia.
  - intros p. rewrite Hmenu. destruct available; [discriminate|].
    apply options_length.
  - intros p Hp Hleft. rewrite Hmenu.
    destruct available as [|entry entries] eqn:Havailable; [contradiction|].
    rewrite <- Havailable in *. apply names_not_nil, page_not_empty.
    pose proof (total_pages_pos available Hleft). lia.
Qed.

Lemma leaderboard_pages_witness :
  options (LeaderboardEditView.update_view ["al"; "bo"; "cy"]
             (list_to_map [("al", 10); ("bo", 300); ("cy", 10)])
             {| removed_players := ["cy"]; page := 0 |})
  <> [].
Proof.
  refine (proj2 (proj2 (proj2
            (leaderboard_pages ["al"; "bo"; "cy"]
               (list_to_map [("al", 10); ("bo", 300); ("cy", 10)]) ["cy"])))
            0 _ _).
  - vm_compute. split; [discriminate | reflexivity].
  - vm_compute. discriminate.
Defined.

(** X17.  The same for the view of the last game, whose pages are none
    when every player is marked: the menus list the players not yet
    marked, each once and in the order of the game, 25 at most on a
    page, and no page is without a menu. *)
Theorem removal_pages (game_data : Ranking) (removed : list string) :
  let at_page p := {| removed_players := removed; page := p |} in
  let menu p := options (PlayerRemovalView.update_view game_data (at_page p)) in
  let available :=
    PlayerRemovalView.get_available_players game_data (at_page 0) in
  let total_pages := PlayerRemovalView.get_total_pages game_data (at_page 0) in
  (0 < total_pages <-> available <> [])
  /\ mjoin (menu <$> range 0 total_pages) = names available
  /\ (forall p, py_len (menu p) <= 25)
  /\ (forall p, 0 <= p < total_pages -> menu p <> []).
Proof.
  intros at_page menu available total_pages.
  assert (forall p, menu p
                    = match available with
                      | [] => []
                      | _ => names (slice (p * players_per_page)
                                      (p * players_per_page + players_per_page)
                                      available)
                      end) as Hmenu.
  { intros p. subst menu available. unfold PlayerRemovalView.update_view.
    cbv zeta. unfold PlayerRemovalView.get_available_players.
    cbn [removed_players page].
    now destruct (List.filter _ _). }
  subst total_pages. unfold PlayerRemovalView.get_total_pages. cbv zeta.
  fold available. split; [|split; [|split]].
  - split.
    + intros Hpos ->. revert Hpos. vm_compute. discriminate.
    + apply total_pages_pos.
  - rewrite (list_fmap_ext menu _ _ (fun _ p _ => Hmenu p)).
    destruct available as [|entry entries] eqn:Havailable; [reflexivity|].
    rewrite <- Havailable.
    rewrite (list_fmap_compose
               (fun p => slice (p * players_per_page)
                           (p * players_per_page + players_per_page)
                           available) names).
    rewrite <- names_mjoin. f_equal. apply pages_cover. lia.
  - intros p. rewrite Hmenu. destruct available; [discriminate|].
    apply options_length.
  - intros p Hp. rewrite Hmenu.
    destruct available as [|entry entries] eqn:Havailable.
    + change ((py_len (@nil (string * Z)) + players_per_page - 1)
              / players_per_page) with 0 in Hp.
      lia.
    + rewrite <- Havailable in *. now apply names_not_nil, page_not_empty.
Qed.

Lemma removal_pages_witness :
  options (PlayerRemovalView.update_view
             {| total_players := 3;
                results := [("amy", 1); ("ben", 2); ("cat", 3)] |}
             {| removed_players := ["ben"]; page := 0 |})
  <> [].
Proof.
  refine (proj2 (proj2 (proj2
            (removal_pages
               {| total_players := 3;
                  results := [("amy", 1); ("ben", 2); ("cat", 3)] |}
               ["ben"]))) 0 _).
  vm_compute. split; [discriminate | reflexivity].
Defined.

Lemma total_pages_bounds {A : Type} (l : list A) :
  0 <= (py_len l + players_per_page - 1) / players_per_page
  /\ (l = [] -> (py_len l + players_per_page - 1) / players_per_page = 0).
Proof.
  split.
  - apply Z.div_pos; unfold players_per_page, py_len; lia.
  - now intros ->.
Qed.

(** X18.  In the leaderboard view a page that is in range stays in range
    under Previous, Next and any selection, and on such a page the menu
    is there while a player is left.  Previous and Next move by one page
    exactly when their button is on the view, and leave the marks as
    they are. *)
Theorem leaderboard_navigation (order : list string) (board : gmap string Z)
    (self : view) :
  let total_pages := LeaderboardEditView.get_total_pages order board in
  let shown := LeaderboardEditView.update_view order board self in
  let previous := LeaderboardEditView.previous_page self in
  let next := LeaderboardEditView.next_page order board self in
  0 <= page self < total_pages self ->
  (LeaderboardEditView.get_available_players order board self <> [] ->
   options shown <> [])
  /\ removed_players previous = removed_players self
  /\ page previous
     = (if previous_button shown then page self - 1 else page self)
  /\ 0 <= page previous < total_pages previous
  /\ removed_players next = removed_players self
  /\ page next = (if next_button shown then page self + 1 else page self)
  /\ 0 <= page next < total_pages next
  /\ forall selected,
       let self' :=
         LeaderboardEditView.player_selected order board selected self in
       0 <= page self' < total_pages self'.
Proof.
  intros total_pages shown previous next. subst total_pages shown previous next.
  unfold LeaderboardEditView.update_view, LeaderboardEditView.previous_page,
    LeaderboardEditView.next_page, LeaderboardEditView.player_selected,
    LeaderboardEditView.get_total_pages,
    LeaderboardEditView.get_available_players.
  cbv zeta. cbn [removed_players page].
  set (available := List.filter _ _).
  destruct (total_pages_bounds available) as [Hpos Hnone].
  pose proof (total_pages_pos available) as Hsome.
  pose proof (page_not_empty available (page self)) as Hmenu.
  set (pages := (py_len available + players_per_page - 1)
                / players_per_page) in *.
  clearbody pages. clearbody available.
  intros Hpage. split; [|split; [reflexivity|split; [|split; [|split;
    [reflexivity|split; [|split]]]]]].
  - intros Hleft. specialize (Hsome Hleft).
    destruct available as [|entry entries]; [contradiction|].
    cbn [options]. apply names_not_nil, Hmenu. lia.
  - destruct available as [|entry entries]; cbn [previous_button].
    + specialize (Hnone eq_refl). lia.
    + destruct (Z.ltb_spec 0 (page self)); lia.
  - lia.
  - destruct available as [|entry entries]; cbn [next_button].
    + specialize (Hnone eq_refl). lia.
    + destruct (Z.ltb_spec (page self) (Z.max 1 pages - 1)); lia.
  - lia.
  - intros selected.
    set (available' := List.filter _ _).
    destruct (total_pages_bounds available') as [Hpos' _].
    set (pages' := (py_len available' + players_per_page - 1)
                   / players_per_page) in *.
    destruct (Z.leb_spec (Z.max 1 pages') (page self));
      destruct (Z.ltb_spec 0 (Z.max 1 pages'));
      cbn [andb page removed_players];
      change (List.filter _ _) with available';
      change ((py_len available' + players_per_page - 1) / players_per_page)
        with pages';
      clearbody pages'; lia.
Qed.

Lemma leaderboard_navigation_witness :
  page (LeaderboardEditView.next_page ["al"; "bo"; "cy"]
          (list_to_map [("al", 10); ("bo", 300); ("cy", 10)])
          {| removed_players := ["cy"]; page := 0 |})
  = 0.
Proof.
  refine (proj1 (proj2 (proj2 (proj2 (proj2 (proj2
            (leaderboard_navigation ["al"; "bo"; "cy"]
               (list_to_map [("al", 10); ("bo", 300); ("cy", 10)])
               {| removed_players := ["cy"]; page := 0 |} _))))))).
  vm_compute. split; [discriminate | reflexivity].
Defined.

(** X19.  In the view of the last game a page that is not negative, and
    in range while a player is left, stays so under Previous, under
    Next when its button is on the view, and under any selection; on
    such a page the menu is there while a player is left.  Once every
    player is marked the view has no item at all, the Done button
    included, and Next would set the page to -1. *)
Theorem removal_navigation (game_data : Ranking) (self : view) :
  let available := PlayerRemovalView.get_available_players game_data in
  let total_pages := PlayerRemovalView.get_total_pages game_data in
  let shown := PlayerRemovalView.update_view game_data self in
  let previous := PlayerRemovalView.previous_page self in
  let next := PlayerRemovalView.next_page game_data self in
  0 <= page self ->
  (available self <> [] -> page self < total_pages self) ->
  (available self <> [] -> options shown <> [] /\ action_buttons shown = true)
  /\ (available self = [] ->
      shown = {| options := []; previous_button := false;
                 next_button := false; action_buttons := false |}
      /\ page next = -1)
  /\ removed_players previous = removed_players self
  /\ (previous_button shown = true -> page previous = page self - 1)
  /\ (previous_button shown = false -> available self <> [] ->
      page previous = page self)
  /\ 0 <= page previous
  /\ (available previous <> [] -> page previous < total_pages previous)
  /\ removed_players next = removed_players self
  /\ (next_button shown = true ->
      page next = page self + 1 /\ page next < total_pages next)
  /\ (next_button shown = false -> available self <> [] ->
      page next = page self)
  /\ forall selected,
       let self' := PlayerRemovalView.player_selected game_data selected self in
       0 <= page self'
       /\ (available self' <> [] -> page self' < total_pages self').
Proof.
  intros available total_pages shown previous next.
  subst available total_pages shown previous next.
  unfold PlayerRemovalView.update_view, PlayerRemovalView.previous_page,
    PlayerRemovalView.next_page, PlayerRemovalView.player_selected,
    PlayerRemovalView.get_total_pages,
    PlayerRemovalView.get_available_players.
  cbv zeta. cbn [removed_players page].
  set (available := List.filter _ _).
  destruct (total_pages_bounds available) as [Hpos Hnone].
  pose proof (total_pages_pos available) as Hsome.
  pose proof (page_not_empty available (page self)) as Hmenu.
  set (pages := (py_len available + players_per_page - 1)
                / players_per_page) in *.
  clearbody pages. clearbody available.
  intros Hpage Hrange.
  split; [|split; [|split; [reflexivity|split; [|split; [|split; [|split;
    [|split; [reflexivity|split; [|split]]]]]]]]].
  - intros Hleft. specialize (Hrange Hleft).
    destruct available as [|entry entries]; [contradiction|].
    cbn [options action_buttons].
    split; [|reflexivity]. apply names_not_nil, Hmenu. lia.
  - intros Hempty. rewrite Hempty. split; [reflexivity|].
    rewrite Hnone by assumption. lia.
  - destruct available as [|entry entries]; cbn [previous_button];
      [discriminate|].
    intros Hprevious. apply Z.ltb_lt in Hprevious. lia.
  - destruct available as [|entry entries]; cbn [previous_button];
      [contradiction|].
    intros Hprevious _. apply Z.ltb_ge in Hprevious. lia.
  - lia.
  - intros Hleft. specialize (Hrange Hleft). lia.
  - destruct available as [|entry entries]; cbn [next_button];
      [discriminate|].
    intros Hnext. apply Z.ltb_lt in Hnext. lia.
  - destruct available as [|entry entries]; cbn [next_button];
      [contradiction|].
    intros Hnext Hleft. apply Z.ltb_ge in Hnext.
    specialize (Hrange Hleft). lia.
  - intros selected.
    set (available' := List.filter _ _).
    destruct (total_pages_bounds available') as [Hpos' _].
    pose proof (total_pages_pos available') as Hsome'.
    set (pages' := (py_len available' + players_per_page - 1)
                   / players_per_page) in *.
    destruct (Z.leb_spec pages' (page self));
      destruct (Z.ltb_spec 0 pages');
      cbn [andb page removed_players];
      change (List.filter _ _) with available';
      change ((py_len available' + players_per_page - 1) / players_per_page)
        with pages';
      clearbody pages';
      (split; [lia|]); intros Hleft; specialize (Hsome' Hleft); lia.
Qed.

Lemma removal_navigation_witness :
  removed_players
    (PlayerRemovalView.previous_page
       {| removed_players := ["ben"]; page := 0 |})
  = ["ben"].
Proof.
  refine (proj1 (proj2 (proj2
            (removal_navigation
               {| total_players := 3;
                  results := [("amy", 1); ("ben", 2); ("cat", 3)] |}
               {| removed_players := ["ben"]; page := 0 |} _ _)))).
  - vm_compute. discriminate.
  - intros _. vm_compute. reflexivity.
Defined.




(** ** Messages *)

Lemma of_str_length (s : string) : py_len (of_str s) = Py.len s.
Proof.
  unfold py_len, Py.len. induction s as [|c s IH]; [reflexivity|].
  cbn [of_str length String.length]. lia.
Qed.

Lemma py_len_replicate {A : Type} (n : nat) (x : A) :
  py_len (replicate n x) = Z.of_nat n.
Proof. unfold py_len. now rewrite length_replicate. Qed.

Lemma py_len_nonneg {A : Type} (l : list A) : 0 <= py_len l.
Proof. unfold py_len. lia. Qed.

Lemma ljust_length (width : Z) (t : text) :
  py_len (ljust width t) = Z.max width (py_len t).
Proof.
  unfold ljust. rewrite py_len_app, py_len_replicate.
  pose proof (py_len_nonneg t). lia.
Qed.

Lemma rjust_length (width : Z) (t : text) :
  py_len (rjust width t) = Z.max width (py_len t).
Proof.
  unfold rjust. rewrite py_len_app, py_len_replicate.
  pose proof (py_len_nonneg t). lia.
Qed.

Lemma digits_length (fuel : nat) :
  forall (n : Z) (acc : text) (k : Z),
    0 <= n < 2 ^ (Z.of_nat fuel + 1) -> n < 10 ^ k -> 1 <= k ->
    py_len (digits fuel n acc) <= k + py_len acc.
Proof.
  induction fuel as [|fuel IH]; intros n acc k Hn Hk Hone.
  - cbn [digits]. unfold py_len. cbn [length]. lia.
  - cbn [digits]. destruct (Z.ltb_spec n 10) as [Hsmall|Hbig].
    + unfold py_len. cbn [length]. lia.
    + assert (2 <= k) as Htwo.
      { destruct (Z.eq_dec k 1) as [->|]; [|lia]. change (10 ^ 1) with 10 in Hk.
        lia. }
      etransitivity.
      * apply (IH (n / 10) _ (k - 1)); [split|..].
        -- apply Z.div_pos; lia.
        -- apply Z.div_lt_upper_bound; [lia|].
           replace (Z.of_nat (S fuel) + 1) with (Z.succ (Z.of_nat fuel + 1))
             in Hn by lia.
           rewrite Z.pow_succ_r in Hn by lia. lia.
        -- apply Z.div_lt_upper_bound; [lia|].
           rewrite <- Z.pow_succ_r by lia.
           now replace (Z.succ (k - 1)) with k by lia.
        -- lia.
      * unfold py_len. cbn [length]. lia.
Qed.

(** [str(n)] has at most [k] digits, and a sign, when [|n| < 10^k]. *)
Lemma str_of_int_length (n k : Z) :
  Z.abs n < 10 ^ k -> 1 <= k -> py_len (str_of_int n) <= k + 1.
Proof.
  intros Hk Hone. unfold str_of_int. cbv zeta.
  assert (py_len (digits (Z.to_nat (Z.log2 (Z.abs n))) (Z.abs n) []) <= k)
    as Hdigits.
  { etransitivity; [apply (digits_length _ _ _ k)|]; try assumption.
    - split; [lia|]. rewrite Z2Nat.id by apply Z.log2_nonneg.
      destruct (Z.eq_dec (Z.abs n) 0) as [->|Hpos]; [reflexivity|].
      apply Z.log2_spec. lia.
    - unfold py_len. cbn [length]. lia. }
  destruct (n <? 0); [|lia]. unfold py_len in *. cbn [length]. lia.
Qed.

Lemma str_of_int_length_nonneg (n k : Z) :
  0 <= n < 10 ^ k -> 1 <= k -> py_len (str_of_int n) <= k.
Proof.
  intros Hk Hone. unfold str_of_int. cbv zeta.
  destruct (Z.ltb_spec n 0); [lia|]. rewrite Z.abs_eq by lia.
  etransitivity; [apply (digits_length _ _ _ k)|]; try assumption.
  - split; [lia|]. rewrite Z2Nat.id by apply Z.log2_nonneg.
    destruct (Z.eq_dec n 0) as [->|Hpos]; [reflexivity|].
    apply Z.log2_spec. lia.
  - lia.
  - unfold py_len. cbn [length]. lia.
Qed.

Lemma signed_length (n k : Z) :
  Z.abs n < 10 ^ k -> 1 <= k -> py_len (signed n) <= k + 1.
Proof.
  intros Hk Hone. unfold signed. destruct (Z.ltb_spec n 0).
  - now apply str_of_int_length.
  - change (py_len (43%N :: str_of_int n)) with
      (Z.of_nat (S (length (str_of_int n)))).
    pose proof (str_of_int_length_nonneg n k). unfold py_len in *. lia.
Qed.

Lemma add_lines_cons (continued line : text) (lines : list text)
    (st : list text * text) :
  add_lines continued (line :: lines) st
  = add_lines continued lines (add_line continued line st).
Proof. reflexivity. Qed.

Lemma mjoin_snoc (group : list text) (line : text) :
  mjoin (group ++ [line]) = mjoin group ++ line.
Proof.
  induction group as [|l group IH].
  - cbn. now rewrite app_nil_r.
  - change (mjoin ((l :: group) ++ [line]))
      with (l ++ mjoin (group ++ [line])).
    rewrite IH. apply app_assoc.
Qed.

(** The loop closes messages and fills the open one so that the lines
    are cut into groups. *)
Lemma add_lines_chunked (continued : text) (lines : list text) :
  forall (messages : list text) (top : text) (group : list text),
    exists (first : list text) (groups : list (list text)),
      mjoin (first :: groups) = lines
      /\ Forall (fun group => group <> []) groups
      /\ fst (add_lines continued lines (messages, top ++ mjoin group))
         ++ [snd (add_lines continued lines (messages, top ++ mjoin group))
             ++ fence]
         = messages ++ render top (group ++ first)
                       :: (render continued <$> groups).
Proof.
  induction lines as [|line lines IH]; intros messages top group.
  - exists [], []. split; [reflexivity|]. split; [constructor|].
    cbn [add_lines fold_left fmap list_fmap fst snd]. unfold render.
    now rewrite (app_nil_r group), <- (app_assoc top).
  - rewrite add_lines_cons. unfold add_line.
    destruct (1900 <? py_len (top ++ mjoin group) + py_len line + 10).
    + replace (continued ++ line) with (continued ++ mjoin [line])
        by (cbn; now rewrite app_nil_r).
      destruct (IH (messages ++ [(top ++ mjoin group) ++ fence]) continued
                  [line]) as (first & groups & Hlines & Hgroups & Hrun).
      exists [], (([line] ++ first) :: groups). split; [|split].
      * now subst lines.
      * constructor; [discriminate | assumption].
      * rewrite Hrun. rewrite <- app_assoc. cbn [app fmap list_fmap].
        unfold render. now rewrite (app_nil_r group), <- (app_assoc top).
    + replace ((top ++ mjoin group) ++ line)
        with (top ++ mjoin (group ++ [line]))
        by (now rewrite mjoin_snoc, app_assoc).
      destruct (IH messages top (group ++ [line]))
        as (first & groups & Hlines & Hgroups & Hrun).
      exists (line :: first), groups. split; [|split].
      * now subst lines.
      * assumption.
      * rewrite Hrun. now rewrite <- app_assoc.
Qed.

(** No message grows beyond 1893 characters while a continuation with
    any one line stays within 1890. *)
Lemma add_lines_sizes (continued : text) (lines : list text) :
  Forall (fun line => py_len continued + py_len line <= 1890) lines ->
  forall (messages : list text) (current_message : text),
    py_len current_message <= 1890 ->
    Forall (fun message => py_len message <= 1893) messages ->
    Forall (fun message => py_len message <= 1893)
      (fst (add_lines continued lines (messages, current_message))
       ++ [snd (add_lines continued lines (messages, current_message))
           ++ fence]).
Proof.
  induction 1 as [|line lines Hline _ IH]; intros messages current Hcur Hall.
  - cbn [add_lines fold_left fst snd]. apply Forall_app.
    split; [assumption|].
    constructor; [|constructor]. rewrite py_len_app.
    change (py_len fence) with 3. lia.
  - rewrite add_lines_cons. unfold add_line.
    destruct (Z.ltb_spec 1900 (py_len current + py_len line + 10)).
    + apply IH.
      * rewrite py_len_app. lia.
      * apply Forall_app. split; [assumption|]. constructor; [|constructor].
        rewrite py_len_app. change (py_len fence) with 3. lia.
    + apply IH; [|assumption]. rewrite py_len_app. lia.
Qed.

Lemma add_lines_result (continued top : text) (lines : list text) :
  exists (messages : list text) (current_message : text),
    add_lines continued lines ([], top) = (messages, current_message)
    /\ chunked top continued lines (messages ++ [current_message ++ fence])
    /\ (Forall (fun line => py_len continued + py_len line <= 1890) lines ->
        py_len top <= 1890 ->
        Forall (fun message => py_len message <= 1893)
          (messages ++ [current_message ++ fence])).
Proof.
  destruct (add_lines_chunked continued lines [] top [])
    as (first & groups & Hlines & Hgroups & Hrun).
  replace (top ++ mjoin []) with top in Hrun by (symmetry; apply app_nil_r).
  exists (fst (add_lines continued lines ([], top))),
    (snd (add_lines continued lines ([], top))).
  split; [apply surjective_pairing|]. split.
  - exists first, groups. split; [assumption|]. split; [assumption|].
    exact Hrun.
  - intros Hall Htop.
    exact (add_lines_sizes continued lines Hall [] top Htop (Forall_nil_2 _)).
Qed.

Lemma chunked_not_nil (top continued : text) (lines messages : list text) :
  chunked top continued lines messages -> messages <> [].
Proof. now intros (first & groups & _ & _ & ->). Qed.

Lemma leaderboard_loop_lines (sorted_players : list (string * Z)) :
  forall (rank : Z) (st : list text * text),
    leaderboard_loop rank sorted_players st
    = add_lines leaderboard_continued (leaderboard_lines rank sorted_players)
        st.
Proof.
  induction sorted_players as [|[player bounty] rest IH]; intros rank st;
    [reflexivity|].
  cbn [leaderboard_loop leaderboard_lines]. cbv zeta.
  now rewrite add_lines_cons, IH.
Qed.

Lemma leaderboard_line_length (rank : Z) (player : string) (bounty : Z) :
  0 <= rank < 10 ^ 20 -> Py.len player <= 1700 -> Z.abs bounty < 10 ^ 20 ->
  py_len (leaderboard_line rank player bounty) <= 1748.
Proof.
  intros Hrank Hplayer Hbounty. unfold leaderboard_line. cbv zeta.
  rewrite !py_len_app, !ljust_length, rjust_length, !of_str_length.
  change (Py.len " ") with 1. change (py_len newline) with 1.
  pose proof (str_of_int_length_nonneg rank 20 Hrank ltac:(lia)).
  pose proof (str_of_int_length bounty 20 Hbounty ltac:(lia)).
  assert (py_len (if rank =? 1 then [129351%N]
                  else if rank =? 2 then [129352%N]
                       else if rank =? 3 then [129353%N] else of_str "   ")
          <= 3) as Hmedal
    by (destruct (rank =? 1), (rank =? 2), (rank =? 3); vm_compute;
        discriminate).
  lia.
Qed.

Lemma leaderboard_lines_sizes (sorted_players : list (string * Z)) :
  forall rank : Z,
    0 <= rank -> rank + py_len sorted_players <= 10 ^ 20 ->
    Forall (fun p => Py.len (fst p) <= 1700 /\ Z.abs (snd p) < 10 ^ 20)
      sorted_players ->
    Forall (fun line => py_len leaderboard_continued + py_len line <= 1890)
      (leaderboard_lines rank sorted_players).
Proof.
  induction sorted_players as [|[player bounty] rest IH];
    intros rank Hrank Hlast Hall; [constructor|].
  apply Forall_cons in Hall as [[Hplayer Hbounty] Hall].
  unfold py_len in Hlast. cbn [length] in Hlast.
  cbn [leaderboard_lines]. constructor.
  - pose proof (leaderboard_line_length rank player bounty) as Hline.
    change (py_len leaderboard_continued) with 124.
    cbn [fst snd] in *. lia.
  - apply IH; [lia | unfold py_len; lia | assumption].
Qed.

Lemma format_leaderboard_cases (order : list string)
    (board : gmap string Z) :
  let messages := format_leaderboard order board in
  (board = ∅ -> messages = [no_bounties])
  /\ (board <> ∅ ->
      chunked leaderboard_top leaderboard_continued
        (leaderboard_lines 1
           (LeaderboardEditView.get_sorted_leaderboard order board))
        messages)
  /\ ((forall name bounty, board !! name = Some bounty ->
         Py.len name <= 1700 /\ Z.abs bounty < 10 ^ 20) ->
      py_len order < 10 ^ 20 ->
      Forall (fun message => py_len message <= 1893) messages).
Proof.
  intros messages. subst messages. unfold format_leaderboard.
  unfold LeaderboardEditView.get_sorted_leaderboard.
  set (sorted_players := sorted_by_bounty (board_items order board)).
  destruct (decide (board = ∅)) as [Hempty|Hfull].
  - split; [reflexivity|]. split; [contradiction|]. intros _ _.
    constructor; [|constructor]. vm_compute. discriminate.
  - split; [contradiction|]. cbv zeta. rewrite leaderboard_loop_lines.
    destruct (add_lines_result leaderboard_continued leaderboard_top
                (leaderboard_lines 1 sorted_players))
      as (messages & current_message & Hrun & Hchunked & Hsizes).
    rewrite Hrun. split; [intros _; exact Hchunked|].
    intros Hboard Hplayers. apply Hsizes.
    + apply leaderboard_lines_sizes; [lia|..].
      * assert (py_len sorted_players <= py_len order); [|lia].
        subst sorted_players. unfold py_len.
        rewrite (Permutation_length (sorted_by_bounty_perm _)).
        rewrite <- (length_map fst (board_items order board)).
        change (List.map fst (board_items order board))
          with (names (board_items order board)).
        rewrite names_board_items.
        pose proof (List.filter_length_le
          (fun name => bool_decide (is_Some (board !! name))) order). lia.
      * apply Forall_forall. intros [player bounty] Hin.
        subst sorted_players. rewrite sorted_by_bounty_perm in Hin.
        apply elem_of_board_items in Hin as [_ Hin].
        now apply Hboard.
    + vm_compute. discriminate.
Qed.

(** X21.  The leaderboard is sent as the one message that no bounty is
    recorded when the board is empty, and else as messages that hold
    the lines of the sorted leaderboard, every line once and in order:
    the first message under the title, each further one under the
    title of a continuation and with at least one line.  There is
    always a first message, so the slash command, which reads it by
    index, does not fail.  While names have at most 1700 characters,
    and bounties and the number of players stay below 10^20, no message
    is longer than 1893 characters. *)
Theorem format_leaderboard_spec (order : list string)
    (board : gmap string Z) :
  let messages := format_leaderboard order board in
  leaderboard_slash order board = Ok messages
  /\ (board = ∅ -> messages = [no_bounties])
  /\ (board <> ∅ ->
      chunked leaderboard_top leaderboard_continued
        (leaderboard_lines 1
           (LeaderboardEditView.get_sorted_leaderboard order board))
        messages)
  /\ ((forall name bounty, board !! name = Some bounty ->
         Py.len name <= 1700 /\ Z.abs bounty < 10 ^ 20) ->
      py_len order < 10 ^ 20 ->
      Forall (fun message => py_len message <= 1893) messages).
Proof.
  cbv zeta.
  pose proof (format_leaderboard_cases order board) as Hcases.
  cbv zeta in Hcases. split; [|exact Hcases].
  destruct Hcases as (Hempty & Hfull & _).
  unfold leaderboard_slash. cbv zeta.
  destruct (decide (board = ∅)) as [Hboard|Hboard].
  - now rewrite (Hempty Hboard).
  - destruct (Hfull Hboard) as (first & groups & _ & _ & Hmessages).
    now rewrite Hmessages.
Qed.

Lemma format_leaderboard_spec_witness :
  Forall (fun message => py_len message <= 1893)
    (format_leaderboard ["al"; "bo"; "cy"]
       (list_to_map [("al", 10); ("bo", 300); ("cy", -90)])).
Proof.
  refine (proj2 (proj2 (proj2
            (format_leaderboard_spec ["al"; "bo"; "cy"]
               (list_to_map [("al", 10); ("bo", 300); ("cy", -90)])))) _ _).
  - intros name bounty Hname.
    apply (elem_of_list_to_map_2 (M := gmap string)) in Hname.
    repeat (apply elem_of_cons in Hname as [[= -> ->] | Hname];
            [vm_compute; now split|]).
    now apply elem_of_nil in Hname.
  - vm_compute. reflexivity.
Defined.

Lemma game_results_loop_lines (total_players : Z)
    (results : list (string * Z)) :
  (forall entry, entry ∈ results ->
     entry_bounty total_players entry
     = Ok (bounty_formula (snd entry) total_players (snd entry =? 1))) ->
  forall st : list text * text,
    game_results_loop total_players results st
    = Ok (add_lines game_results_continued
            (game_results_lines total_players results) st).
Proof.
  induction results as [|[player_name position] rest IH]; intros Hall st;
    [reflexivity|].
  cbn [game_results_loop game_results_lines List.map]. cbv zeta.
  pose proof (Hall (player_name, position) ltac:(left)) as Hbounty.
  unfold entry_bounty in Hbounty. cbn [fst snd] in *. rewrite Hbounty.
  cbn [result_bind]. rewrite add_lines_cons. apply IH.
  intros entry Hin. apply Hall. now right.
Qed.

Lemma game_results_line_length (position : Z) (player_name : string)
    (bounty : Z) :
  0 <= position < 10 ^ 20 -> Py.len player_name <= 1700 ->
  Z.abs bounty < 10 ^ 20 ->
  py_len (game_results_line position player_name bounty) <= 1747.
Proof.
  intros Hposition Hplayer Hbounty. unfold game_results_line. cbv zeta.
  rewrite !py_len_app, !ljust_length, rjust_length, !of_str_length.
  change (Py.len " ") with 1. change (py_len newline) with 1.
  pose proof (str_of_int_length_nonneg position 20 Hposition ltac:(lia)).
  pose proof (signed_length bounty 20 Hbounty ltac:(lia)).
  assert (py_len (if position =? 1 then [128081%N] else of_str "   ") <= 3)
    as Hmedal by (destruct (position =? 1); vm_compute; discriminate).
  lia.
Qed.

(** X22.  For a ranking that keeps the invariant, with five times its
    players below 2^53, [format_game_results] returns messages that
    hold one line for each player, in the order of the ranking and with
    the bounty in closed form: the first message under the title with
    the number of players, each further one under the title of a
    continuation and with at least one line.  While names have at most
    1700 characters no message is longer than 1893 characters. *)
Theorem format_game_results_spec (r : Ranking) :
  Ranking_invariant r -> 5 * total_players r < 2 ^ 53 ->
  exists messages : list text,
    format_game_results r = Ok messages
    /\ chunked (game_results_top (total_players r)) game_results_continued
         (game_results_lines (total_players r) (results r)) messages
    /\ ((forall name, name ∈ names (results r) -> Py.len name <= 1700) ->
        Forall (fun message => py_len message <= 1893) messages).
Proof.
  intros Hinv Hsize. unfold format_game_results. cbv zeta.
  rewrite game_results_loop_lines
    by (intros entry Hin; now apply ranking_bounties).
  cbn [result_bind].
  set (top := game_results_top (total_players r)).
  set (lines := game_results_lines (total_players r) (results r)).
  pose proof (py_len_nonneg (results r)) as Hcount.
  rewrite <- (inv_total r Hinv) in Hcount.
  destruct (add_lines_result game_results_continued top lines)
    as (messages & current_message & Hrun & Hchunked & Hsizes).
  rewrite Hrun. eexists. split; [reflexivity|]. split; [exact Hchunked|].
  intros Hnames. apply Hsizes.
    + subst lines. unfold game_results_lines. apply List.Forall_map.
      apply Forall_forall. intros [player_name position] Hin. cbn [fst snd].
      change (py_len game_results_continued) with 115.
      pose proof (contiguous_positions _ _ (inv_positions r Hinv) Hin)
        as Hposition.
      rewrite <- (inv_total r Hinv) in Hposition. cbn [snd] in Hposition.
      pose proof (game_results_line_length position player_name
                    (bounty_formula position (total_players r)
                       (position =? 1))) as Hline.
      assert (Py.len player_name <= 1700) as Hname.
      { apply Hnames. unfold names.
        apply (list_elem_of_fmap_2 fst _ _ Hin). }
      assert (Z.abs (bounty_formula position (total_players r)
                       (position =? 1)) < 10 ^ 20) as Hbounty
        by (unfold bounty_formula; destruct (position =? 1); lia).
      lia.
    + subst top. unfold game_results_top.
      rewrite !py_len_app, !of_str_length.
      pose proof (str_of_int_length_nonneg (total_players r) 20
                    ltac:(lia) ltac:(lia)) as Hdigits.
      change (py_len flag) with 1.
      change (Py.len " **RACE RESULTS** (Total Players: ") with 34.
      change (Py.len ")") with 1. change (py_len newline) with 1.
      change (py_len (columns (ljust 5 (of_str "Pos")))) with 83.
      lia.
Qed.

Lemma format_game_results_spec_witness :
  exists messages : list text,
    format_game_results
      {| total_players := 3;
         results := [("amy", 1); ("ben", 2); ("cat", 3)] |}
    = Ok messages.
Proof.
  destruct (format_game_results_spec
              {| total_players := 3;
                 results := [("amy", 1); ("ben", 2); ("cat", 3)] |})
    as (messages & Hrun & _).
  - split; cbn [total_players results].
    + reflexivity.
    + intros i entry Hi. destruct i as [|[|[|i]]]; cbn in Hi;
        try discriminate; now injection Hi as <-.
    + by_decision.
  - vm_compute. reflexivity.
  - now exists messages.
Defined.

(** ** The globals as the commands keep them *)














(** ** The view of the last game and its Done button *)

Lemma filter_lookup {A : Type} (f : A -> bool) (l : list A) :
  forall (i : nat) (x : A),
    List.filter f l !! i = Some x ->
    exists j : nat, l !! j = Some x /\ (i <= j)%nat.
Proof.
  induction l as [|y l IH]; intros i x Hx; [discriminate|].
  cbn [List.filter] in Hx. destruct (f y).
  - destruct i as [|i].
    + exists 0%nat. split; [exact Hx | lia].
    + destruct (IH i x Hx) as (j & Hj & Hle). exists (S j). split;
        [exact Hj | lia].
  - destruct (IH i x Hx) as (j & Hj & Hle). exists (S j). split;
      [exact Hj | lia].
Qed.

Lemma renumber_lookup (filtered : list (string * Z)) :
  forall (idx : Z) (i : nat) (name : string) (position : Z),
    renumber idx filtered !! i = Some (name, position) ->
    position = idx + Z.of_nat i + 1
    /\ exists old, filtered !! i = Some (name, old).
Proof.
  induction filtered as [|[name0 old0] filtered IH];
    intros idx i name position Hi; [discriminate|].
  cbn [renumber] in Hi. destruct i as [|i].
  - injection Hi as <- <-. split; [lia|]. now exists old0.
  - destruct (IH (idx + 1) i name position Hi) as (-> & old & Hold).
    split; [lia|]. now exists old.
Qed.

(** X24.  What Done records is what the view of the last game shows: the
    corrected game holds the players that the view lists as available,
    in the same order and numbered from 1.  On a game that satisfies
    the invariant no player gets a worse position than before, and
    since the Done button is on the view only while a player is
    available, a corrected game is never empty. *)
Theorem removal_view_done (game_data : Ranking) (self : view) :
  let corrected := corrected_game_data game_data (removed_players self) in
  let available := PlayerRemovalView.get_available_players game_data self in
  names (results corrected) = names available
  /\ total_players corrected = py_len available
  /\ (forall (i : nat) name position,
        results corrected !! i = Some (name, position) ->
        position = Z.of_nat i + 1
        /\ exists old,
             ((name, old) ∈ results game_data)
             /\ (name ∉ removed_players self)
             /\ (Ranking_invariant game_data -> position <= old))
  /\ (action_buttons (PlayerRemovalView.update_view game_data self) = true ->
      1 <= total_players corrected).
Proof.
  intros corrected available. subst corrected available.
  unfold corrected_game_data, PlayerRemovalView.get_available_players,
    PlayerRemovalView.update_view, PlayerRemovalView.get_total_pages.
  cbv zeta. unfold PlayerRemovalView.get_available_players.
  cbn [results total_players].
  set (filtered := List.filter _ (results game_data)).
  destruct (renumber_spec filtered 0) as (Hnames & _ & Hlen).
  split; [exact Hnames|]. split; [exact Hlen|]. split.
  - intros i name position Hi.
    destruct (renumber_lookup filtered 0 i name position Hi)
      as (-> & old & Hold).
    split; [lia|]. exists old.
    destruct (filter_lookup _ _ _ _ Hold) as (j & Hj & Hle).
    assert ((name, old) ∈ filtered) as Hin
      by (eapply list_elem_of_lookup_2, Hold).
    apply list_elem_of_In, List.filter_In in Hin as [Hin Hkept].
    cbn [fst] in Hkept. apply negb_true_iff in Hkept.
    split; [now apply list_elem_of_In|]. split.
    + intros Hremoved. apply in_list_spec in Hremoved. congruence.
    + intros Hinv. pose proof (inv_positions game_data Hinv j _ Hj) as Hpos.
      cbn [snd] in Hpos. lia.
  - rewrite Hlen. destruct filtered as [|entry entries]; [discriminate|].
    intros _. unfold py_len. cbn [length]. lia.
Qed.

Lemma removal_view_done_witness :
  1 <= total_players
         (corrected_game_data
            {| total_players := 3;
               results := [("amy", 1); ("ben", 2); ("cat", 3)] |}
            ["ben"]).
Proof.
  refine (proj2 (proj2 (proj2
            (removal_view_done
               {| total_players := 3;
                  results := [("amy", 1); ("ben", 2); ("cat", 3)] |}
               {| removed_players := ["ben"]; page := 0 |}))) _).
  vm_compute. reflexivity.
Defined.
